(** * unheard-prod: the Modal experiment functions, embedded and verified

    Shallow embedding of [modal_functions/sentiment.py],
    [modal_functions/van_westendorp.py], [modal_functions/experiment_runner.py],
    the response model, the event stream and the aggregation phase of
    [modal_functions/app.py],
    [modal_functions/insight_extractor.py] and the code-fence stripping it
    shares with [modal_functions/persona_generator.py].

    Modelling conventions.
    - A Python [str] is a list of code points.  The development covers the
      code points U+0000..U+00FF, carried by Rocq's [ascii]; the character
      classes [\w], [\s], [\d], [str.lower] and [str.strip] follow Python's
      Unicode tables on that range.
    - A Python [float] is an exact rational ([Q]); [round(x, n)] rounds half
      to even at [n] decimals.  Equality of floats is [Qeq].
    - A Python [int] is a [Z].
    - Code that can raise returns in the [exc] monad. *)

From Stdlib Require Import List String Ascii Bool Arith ZArith NArith.
From Stdlib Require Import DecimalString.
From Stdlib Require Import QArith Qround Qabs Lia Lqa Permutation Sorted.
Import ListNotations.

Set Implicit Arguments.

(* ================================================================== *)
(** ** Python runtime: exceptions, numbers, characters *)

Module Py.

(** The exceptions the modelled code can meet.  [ApiError] stands for
    whatever the text-generation client raises (timeout, transport,
    malformed response), with its class name and message. *)
Inductive pyexn : Type :=
| ZeroDivisionError
| IndexError
| KeyError (key : string)
| ValueError
| AttributeError
| ApiError (kind msg : string).

(** [type(e).__name__] *)
Definition exn_name (e : pyexn) : string :=
  match e with
  | ZeroDivisionError => "ZeroDivisionError"
  | IndexError => "IndexError"
  | KeyError _ => "KeyError"
  | ValueError => "ValueError"
  | AttributeError => "AttributeError"
  | ApiError kind _ => kind
  end.

(** [str(e)] *)
Definition exn_str (e : pyexn) : string :=
  match e with
  | ZeroDivisionError => "division by zero"
  | IndexError => "list index out of range"
  | KeyError key => "'" ++ key ++ "'"
  | ValueError => "could not convert string to float"
  | AttributeError => "object has no attribute 'text'"
  | ApiError _ msg => msg
  end.

Inductive exc (A : Type) : Type :=
| Ok (a : A)
| Raise (e : pyexn).

Arguments Ok {A} a.
Arguments Raise {A} e.

Definition bind {A B} (c : exc A) (f : A -> exc B) : exc B :=
  match c with
  | Ok a => f a
  | Raise e => Raise e
  end.

(** [for x in l: acc = f acc x], stopping at the first exception. *)
Fixpoint foldM {A S} (f : S -> A -> exc S) (l : list A) (s : S) : exc S :=
  match l with
  | [] => Ok s
  | x :: l' => bind (f s x) (foldM f l')
  end.

Fixpoint mapM {A B} (f : A -> exc B) (l : list A) : exc (list B) :=
  match l with
  | [] => Ok []
  | x :: l' =>
      bind (f x) (fun y => bind (mapM f l') (fun ys => Ok (y :: ys)))
  end.

(** *** Floats as rationals *)

Definition float := Q.

Definition flt (x y : float) : bool := negb (Qle_bool y x).
Definition fle (x y : float) : bool := Qle_bool x y.
Definition feq (x y : float) : bool := Qeq_bool x y.

(** [x / y] on floats: raises on a zero divisor. *)
Definition fdiv (x y : float) : exc float :=
  if feq y 0 then Raise ZeroDivisionError else Ok (x / y)%Q.

(** [a / n] on ints (true division). *)
Definition idiv (a n : Z) : exc float :=
  if Z.eqb n 0 then Raise ZeroDivisionError else Ok (inject_Z a / inject_Z n)%Q.

Definition fabs (x : float) : float := Qabs x.

Definition fmin (a b : float) : float := if flt b a then b else a.
Definition fmax (a b : float) : float := if flt a b then b else a.

(** Nearest integer, ties to the even neighbour. *)
Definition round_half_even (x : Q) : Z :=
  let f := Qfloor x in
  match Qcompare (x - inject_Z f)%Q (1 # 2)%Q with
  | Lt => f
  | Gt => (f + 1)%Z
  | Eq => if Z.even f then f else (f + 1)%Z
  end.

Definition pow10 (n : nat) : Z := (10 ^ Z.of_nat n)%Z.

(** [round(x, n)]. *)
Definition round (x : float) (n : nat) : float :=
  (inject_Z (round_half_even (x * inject_Z (pow10 n))) / inject_Z (pow10 n))%Q.

(** [1e-10] *)
Definition eps10 : float := (1 # 10000000000)%Q.

(** *** Characters (code points below U+0100) *)

Definition code (c : ascii) : N := N_of_ascii c.

Definition in_range (lo hi : N) (c : ascii) : bool :=
  (N.leb lo (code c) && N.leb (code c) hi)%bool.

(** [[a-z]] *)
Definition is_az : ascii -> bool := in_range 97 122.

(** [\d] *)
Definition is_digit : ascii -> bool := in_range 48 57.

(** [\s], which is also what [str.strip()] removes. *)
Definition is_space (c : ascii) : bool :=
  in_range 9 13 c || in_range 28 32 c || N.eqb (code c) 133
  || N.eqb (code c) 160.

(** [\w]: alphanumeric (in the Unicode sense) or underscore. *)
Definition is_word (c : ascii) : bool :=
  in_range 48 57 c || in_range 65 90 c || N.eqb (code c) 95
  || in_range 97 122 c
  || N.eqb (code c) 170 || in_range 178 179 c || N.eqb (code c) 181
  || in_range 185 186 c || in_range 188 190 c
  || in_range 192 214 c || in_range 216 246 c || in_range 248 255 c.

(** [str.lower()] on one character. *)
Definition lower_char (c : ascii) : ascii :=
  if in_range 65 90 c
     || (in_range 192 222 c && negb (N.eqb (code c) 215))
  then ascii_of_N (code c + 32)
  else c.

Definition lower (s : list ascii) : list ascii := map lower_char s.

Fixpoint lstrip (s : list ascii) : list ascii :=
  match s with
  | c :: s' => if is_space c then lstrip s' else s
  | [] => []
  end.

(** [str.strip()] *)
Definition strip (s : list ascii) : list ascii :=
  rev (lstrip (rev (lstrip s))).

(** Truthiness of a string: [not s] holds exactly for the empty string. *)
Definition str_falsy (s : list ascii) : bool :=
  match s with [] => true | _ => false end.

End Py.

Import Py.

Notation "x <- c ;; k" := (Py.bind c (fun x => k))
  (at level 61, c at next level, right associativity).

(* ================================================================== *)
(** ** The fragment of [re] the code uses

    A backtracking matcher in continuation-passing style.  The cursor is
    the text split at the current position: the characters already passed
    (nearest first) and the characters still ahead. *)

Module Re.

Definition cls := ascii -> bool.

Inductive regex : Type :=
| Eps
| Chr (p : cls)                               (* one character of a class *)
| Seq (r1 r2 : regex)
| Rep (p : cls) (lo : nat) (hi : option nat)   (* greedy [*], [+], [{m,n}] on a class *)
| Opt (r : regex)                             (* greedy [?] *)
| Grp (r : regex)                             (* capture group 1 *)
| NotBehind (ps : list cls)                   (* [(?<!...)], fixed width *)
| WordB.                                      (* [\b] *)

(** A literal character under [re.IGNORECASE]: it matches the
    characters with its lowercase form.  This is what [re] does on the
    code points the development covers; beyond U+00FF [re] also lets I
    match U+0130 and U+0131, S match U+017F and K match U+212A, characters
    that no text of this model contains. *)
Definition ci (c : ascii) : cls :=
  fun x => N.eqb (code (lower_char x)) (code (lower_char c)).

(** A literal character, case-sensitive. *)
Definition lit (c : ascii) : cls := fun x => N.eqb (code x) (code c).

Definition cls_or (p q : cls) : cls := fun x => p x || q x.

Fixpoint str_ci (s : string) : regex :=
  match s with
  | EmptyString => Eps
  | String c s' => Seq (Chr (ci c)) (str_ci s')
  end.

Fixpoint cls_ci (s : string) : list cls :=
  match s with
  | EmptyString => []
  | String c s' => ci c :: cls_ci s'
  end.

Definition star (p : cls) : regex := Rep p 0 None.
Definition plus (p : cls) : regex := Rep p 1 None.

Section Matcher.

Variable R : Type.

(** Greedy repetition: take as many characters as allowed, then give
    them back one at a time until the continuation succeeds. *)
Fixpoint rep_greedy (p : cls) (lo : nat) (hi : option nat) (n : nat)
    (bef aft : list ascii)
    (k : list ascii -> list ascii -> option R) : option R :=
  let stop := if lo <=? n then k bef aft else None in
  match aft with
  | c :: aft' =>
      if p c && match hi with Some h => n <? h | None => true end
      then match rep_greedy p lo hi (S n) (c :: bef) aft' k with
           | Some r => Some r
           | None => stop
           end
      else stop
  | [] => stop
  end.

(** [ps] are the classes of the characters that must precede the
    position, nearest first. *)
Fixpoint behind (ps : list cls) (bef : list ascii) : bool :=
  match ps, bef with
  | [], _ => true
  | p :: ps', c :: bef' => p c && behind ps' bef'
  | _ :: _, [] => false
  end.

Definition word_at (s : list ascii) : bool :=
  match s with c :: _ => is_word c | [] => false end.

Definition boundary (bef aft : list ascii) : bool :=
  xorb (word_at bef) (word_at aft).

(** The text consumed between two cursors. *)
Definition consumed (bef0 bef1 : list ascii) : list ascii :=
  rev (firstn (List.length bef1 - List.length bef0) bef1).

Fixpoint m (r : regex) (bef aft : list ascii) (g : option (list ascii))
    (k : list ascii -> list ascii -> option (list ascii) -> option R)
    : option R :=
  match r with
  | Eps => k bef aft g
  | Chr p =>
      match aft with
      | c :: aft' => if p c then k (c :: bef) aft' g else None
      | [] => None
      end
  | Seq r1 r2 => m r1 bef aft g (fun b a g' => m r2 b a g' k)
  | Rep p lo hi => rep_greedy p lo hi 0 bef aft (fun b a => k b a g)
  | Opt r1 =>
      match m r1 bef aft g k with
      | Some x => Some x
      | None => k bef aft g
      end
  | Grp r1 => m r1 bef aft g (fun b a _ => k b a (Some (consumed bef b)))
  | NotBehind ps => if behind (rev ps) bef then None else k bef aft g
  | WordB => if boundary bef aft then k bef aft g else None
  end.

End Matcher.

(** A match object: where it starts, [group(0)], [group(1)], and the
    cursor at its end. *)
Record match_obj : Type := MkMatch {
  m_start : nat;
  m_group0 : list ascii;
  m_group1 : option (list ascii);
  m_end_bef : list ascii;
  m_end_aft : list ascii
}.

(** Try the pattern at the cursor. *)
Definition match_here (r : regex) (bef aft : list ascii) : option match_obj :=
  m r bef aft None
    (fun b a g => Some (MkMatch (List.length bef) (consumed bef b) g b a)).

(** [re.search]: the first position, left to right, where the pattern
    matches. *)
Fixpoint search_from (r : regex) (bef aft : list ascii) : option match_obj :=
  match match_here r bef aft with
  | Some mo => Some mo
  | None =>
      match aft with
      | c :: aft' => search_from r (c :: bef) aft'
      | [] => None
      end
  end.

Definition search (r : regex) (text : list ascii) : option match_obj :=
  search_from r [] text.

(** [re.findall] for a pattern without groups: scan left to right; after
    a match the scan resumes at its end ([skip] counts the characters of
    the match still to pass), after an empty match one character on. *)
Fixpoint findall_go (r : regex) (skip : nat) (bef aft : list ascii)
    : list (list ascii) :=
  match skip with
  | S n =>
      match aft with
      | c :: aft' => findall_go r n (c :: bef) aft'
      | [] => []
      end
  | O =>
      match match_here r bef aft with
      | Some mo =>
          m_group0 mo ::
          match aft with
          | c :: aft' => findall_go r (pred (List.length (m_group0 mo))) (c :: bef) aft'
          | [] => []
          end
      | None =>
          match aft with
          | c :: aft' => findall_go r 0 (c :: bef) aft'
          | [] => []
          end
      end
  end.

Definition findall (r : regex) (text : list ascii) : list (list ascii) :=
  findall_go r 0 [] text.

(** Patterns whose every match sets group 1 (the group is not optional). *)
Fixpoint sets_group (r : regex) : bool :=
  match r with
  | Grp _ => true
  | Seq r1 r2 => sets_group r1 || sets_group r2
  | _ => false
  end.

End Re.

(* ================================================================== *)
(** ** sentiment.py *)

Module Sentiment.

Import Re.

Local Open Scope string_scope.

Definition _POSITIVE_SIGNALS : list (string * Z) :=
  [ ("invest", 2); ("excited", 2); ("compelling", 2); ("strong", 2);
    ("excellent", 2); ("impressive", 2); ("outstanding", 2); ("love", 2);
    ("definitely", 2); ("absolutely", 2); ("confident", 2);
    ("interested", 1); ("good", 1); ("promising", 1); ("potential", 1);
    ("like", 1); ("positive", 1); ("solid", 1); ("great", 1);
    ("prefer", 1); ("agree", 1); ("recommend", 1); ("support", 1);
    ("valuable", 1); ("useful", 1); ("important", 1); ("beneficial", 1);
    ("opportunity", 1); ("innovative", 1); ("growth", 1); ("traction", 1);
    ("appealing", 1); ("reasonable", 1); ("fair", 1); ("willing", 1);
    ("upgrade", 1); ("subscribe", 1); ("adopt", 1) ]%Z.

Definition _NEGATIVE_SIGNALS : list (string * Z) :=
  [ ("pass", 2); ("reject", 2); ("terrible", 2); ("awful", 2);
    ("never", 2); ("unacceptable", 2); ("dealbreaker", 2); ("overpriced", 2);
    ("churn", 2); ("cancel", 2); ("leave", 2);
    ("concern", 1); ("risk", 1); ("worry", 1); ("doubt", 1);
    ("expensive", 1); ("unclear", 1); ("weak", 1); ("problem", 1);
    ("difficult", 1); ("challenge", 1); ("issue", 1); ("missing", 1);
    ("lack", 1); ("insufficient", 1); ("unlikely", 1); ("hesitant", 1);
    ("skeptical", 1); ("cautious", 1); ("limited", 1); ("concerned", 1);
    ("competitive", 1); ("crowded", 1); ("saturated", 1); ("premature", 1);
    ("confused", 1); ("frustrated", 1); ("disappointed", 1) ]%Z.

(** [d.get(w)]: [None] when [w not in d]. *)
Fixpoint dict_get (d : list (string * Z)) (w : string) : option Z :=
  match d with
  | [] => None
  | (k, v) :: d' => if String.eqb k w then Some v else dict_get d' w
  end.

(** [r"\b[a-z]+\b"] *)
Definition word_re : regex := Seq WordB (Seq (plus is_az) WordB).

(** [re.findall(r"\b[a-z]+\b", text.lower())] *)
Definition words (text : string) : list string :=
  map string_of_list_ascii (findall word_re (lower (list_ascii_of_string text))).

(** One iteration of the scoring loop on the pair
    [(positive_score, negative_score)]. *)
Definition score_step (acc : Z * Z) (word : string) : Z * Z :=
  let '(positive_score, negative_score) := acc in
  let positive_score :=
    match dict_get _POSITIVE_SIGNALS word with
    | Some w => (positive_score + w)%Z
    | None => positive_score
    end in
  let negative_score :=
    match dict_get _NEGATIVE_SIGNALS word with
    | Some w => (negative_score + w)%Z
    | None => negative_score
    end in
  (positive_score, negative_score).

Definition scores (ws : list string) : Z * Z :=
  fold_left score_step ws (0, 0)%Z.

Definition positive_score (text : string) : Z := fst (scores (words text)).
Definition negative_score (text : string) : Z := snd (scores (words text)).

Definition analyze_sentiment (text : string) : float :=
  let t := list_ascii_of_string text in
  if str_falsy t || str_falsy (strip t) then 0%Q
  else
    let '(positive_score, negative_score) := scores (words text) in
    let total := (positive_score + negative_score)%Z in
    if Z.eqb total 0 then 0%Q
    else
      let raw_score := (inject_Z (positive_score - negative_score) / inject_Z total)%Q in
      fmax (-1)%Q (fmin 1%Q (round raw_score 2)).

End Sentiment.

(* ================================================================== *)
(** ** The result dicts passed between the modules

    A key that may be missing from a dict is an [option] field ([None]:
    the key is absent); a value that may be Python's [None] is an inner
    [option]. *)

Module Tokens.
Record t : Type := Mk { input : option Z; output : option Z }.
End Tokens.

Module Result.
Record t : Type := Mk {
  persona_id : option string;
  persona_name : option string;
  archetype_id : option string;
  archetype_name : option string;
  response : option (option string);
  sentiment : option float;
  tokens : option Tokens.t;
  model : option string;
  elapsed_seconds : option float;
  error : option (option string)
}.
End Result.

(* ================================================================== *)
(** ** van_westendorp.py *)

Module Prices.
(** The dict built by [_parse_price_points], keys in insertion order. *)
Record t : Type := Mk {
  too_expensive : float;
  expensive : float;
  bargain : float;
  too_cheap : float
}.
Definition values (p : t) : list float :=
  [too_expensive p; expensive p; bargain p; too_cheap p].
End Prices.

Module Row.
(** One entry of [cumulative]. *)
Record t : Type := Mk {
  price : float;
  too_cheap : float;
  bargain : float;
  expensive : float;
  too_expensive : float
}.
End Row.

Module VanWestendorp.

Import Re.

(** The curve names passed to [_find_intersection]. *)
Inductive curve : Type := too_cheap | bargain | expensive | too_expensive.

(** [cumulative[i][curve]] *)
Definition get (r : Row.t) (c : curve) : float :=
  match c with
  | too_cheap => Row.too_cheap r
  | bargain => Row.bargain r
  | expensive => Row.expensive r
  | too_expensive => Row.too_expensive r
  end.

Record price_range : Type := MkRange { low : option float; high : option float }.

Record archetype_points : Type := MkPoints {
  opp : option float;
  ipp : option float;
  pmc : option float;
  pme : option float
}.

(** The dict returned by [calculate_van_westendorp]; [by_archetype] is
    [None] while the key is absent (as in the dict returned by
    [_calculate_intersections]). *)
Record vw_dict : Type := MkVW {
  optimal_price_point : option float;
  indifference_price_point : option float;
  point_of_marginal_cheapness : option float;
  point_of_marginal_expensiveness : option float;
  acceptable_price_range : price_range;
  cumulative_data : list Row.t;
  by_archetype : option (list (string * archetype_points))
}.

Definition set_by_archetype (d : vw_dict)
    (v : list (string * archetype_points)) : vw_dict :=
  MkVW (optimal_price_point d) (indifference_price_point d)
       (point_of_marginal_cheapness d) (point_of_marginal_expensiveness d)
       (acceptable_price_range d) (cumulative_data d) (Some v).

(** *** The four patterns *)

(** [[_\s]] *)
Definition sep : cls := cls_or (lit "_") is_space.

(** [([\d,]+(?:\.\d{1,2})?)] *)
Definition number_re : regex :=
  Grp (Seq (plus (cls_or is_digit (lit ",")))
           (Opt (Seq (Chr (lit ".")) (Rep is_digit 1 (Some 2%nat))))).

(** [\s*:\s*\$?\s*([\d,]+(?:\.\d{1,2})?)] *)
Definition value_re : regex :=
  Seq (star is_space)
    (Seq (Chr (lit ":"))
       (Seq (star is_space)
          (Seq (Opt (Chr (lit "$")))
             (Seq (star is_space) number_re)))).

(** [TOO[_\s]EXPENSIVE\s*:\s*\$?\s*([\d,]+(?:\.\d{1,2})?)] *)
Definition re_too_expensive : regex :=
  Seq (str_ci "TOO") (Seq (Chr sep) (Seq (str_ci "EXPENSIVE") value_re)).

(** [(?<!TOO[_\s])EXPENSIVE\s*:\s*\$?\s*([\d,]+(?:\.\d{1,2})?)] *)
Definition re_expensive : regex :=
  Seq (NotBehind (cls_ci "TOO" ++ [sep])) (Seq (str_ci "EXPENSIVE") value_re).

(** [BARGAIN\s*:\s*\$?\s*([\d,]+(?:\.\d{1,2})?)] *)
Definition re_bargain : regex := Seq (str_ci "BARGAIN") value_re.

(** [TOO[_\s]CHEAP\s*:\s*\$?\s*([\d,]+(?:\.\d{1,2})?)] *)
Definition re_too_cheap : regex :=
  Seq (str_ci "TOO") (Seq (Chr sep) (Seq (str_ci "CHEAP") value_re)).

(** [s.replace(",", "")] *)
Definition remove_commas (s : list ascii) : list ascii :=
  filter (fun c => negb (lit "," c)) s.

(** *** [float(value_str)]

    On the strings group 1 can hold once the commas are gone: digits with
    at most one decimal point.  Such a string is a float literal unless it
    has no digit at all; every other string is outside this model and is
    reported as [ValueError].  The value is the decimal number the text
    writes, exactly, where Python's [float()] gives the double nearest
    to it (and [inf] beyond the range of doubles): the convention on
    floats of this development. *)

Fixpoint digits_value (acc : Z) (s : list ascii) : option Z :=
  match s with
  | [] => Some acc
  | c :: s' =>
      if is_digit c
      then digits_value (10 * acc + Z.of_N (code c - 48)) s'
      else None
  end.

Fixpoint split_point (s : list ascii) : list ascii * option (list ascii) :=
  match s with
  | [] => ([], None)
  | c :: s' =>
      if lit "." c then ([], Some s')
      else let '(ip, fp) := split_point s' in (c :: ip, fp)
  end.

Definition float_of_str (s : list ascii) : exc float :=
  let '(ip, fp) := split_point s in
  let fp := match fp with Some f => f | None => [] end in
  match ip, fp with
  | [], [] => Raise ValueError
  | _, _ =>
      match digits_value 0 ip, digits_value 0 fp with
      | Some i, Some f =>
          Ok (inject_Z i + inject_Z f / inject_Z (pow10 (List.length fp)))%Q
      | _, _ => Raise ValueError
      end
  end.

(** One iteration of the loop over [patterns.items()]: [Ok None] stands
    for the early [return None]. *)
Definition price_for (pattern : regex) (text : list ascii)
    : exc (option float) :=
  match search pattern text with
  | Some mo =>
      match m_group1 mo with
      | Some g =>
          match float_of_str (remove_commas g) with
          | Ok v => Ok (Some v)
          | Raise ValueError => Ok None
          | Raise e => Raise e
          end
      | None => Raise AttributeError      (* [None.replace] *)
      end
  | None => Ok None
  end.

Definition _parse_price_points (text : option string)
    : exc (option Prices.t) :=
  match text with
  | None => Ok None
  | Some s =>
      let t := list_ascii_of_string s in
      if str_falsy t then Ok None
      else
        te <- price_for re_too_expensive t ;;
        match te with None => Ok None | Some te =>
        e <- price_for re_expensive t ;;
        match e with None => Ok None | Some e =>
        b <- price_for re_bargain t ;;
        match b with None => Ok None | Some b =>
        tc <- price_for re_too_cheap t ;;
        match tc with None => Ok None | Some tc =>
        (* the check too_cheap <= bargain <= expensive <= too_expensive
           only passes: the values are used as they are *)
        Ok (Some (Prices.Mk te e b tc))
        end end end end
  end.

(** *** [_find_intersection] *)

(** The loop over [range(len(cumulative) - 1)] followed by the check of
    the last point: the recursion reaches a one-row list exactly when the
    loop has run out. *)
Fixpoint _find_intersection (cumulative : list Row.t) (curve_a curve_b : curve)
    : exc (option float) :=
  match cumulative with
  | [] => Ok None
  | r1 :: rest =>
      match rest with
      | [] =>
          if flt (fabs (get r1 curve_a - get r1 curve_b)) eps10
          then Ok (Some (round (Row.price r1) 2))
          else Ok None
      | r2 :: _ =>
          let a1 := get r1 curve_a in
          let b1 := get r1 curve_b in
          let a2 := get r2 curve_a in
          let b2 := get r2 curve_b in
          let diff1 := (a1 - b1)%Q in
          let diff2 := (a2 - b2)%Q in
          if flt (diff1 * diff2) 0 then
            let p1 := Row.price r1 in
            let p2 := Row.price r2 in
            let denom := ((a2 - a1) - (b2 - b1))%Q in
            if flt (fabs denom) eps10
            then Ok (Some (round ((p1 + p2) / 2) 2))
            else
              t <- fdiv (b1 - a1) denom ;;
              Ok (Some (round (p1 + t * (p2 - p1)) 2))
          else if flt (fabs diff1) eps10
          then Ok (Some (round (Row.price r1) 2))
          else _find_intersection rest curve_a curve_b
      end
  end.

(** *** [_calculate_intersections] *)

(** [all_values.update(p.values())]: a set holds one copy of equal floats. *)
Definition set_add (s : list float) (x : float) : list float :=
  if existsb (feq x) s then s else s ++ [x].

Definition all_values (price_data : list Prices.t) : list float :=
  fold_left (fun s p => fold_left set_add (Prices.values p) s) price_data [].

Fixpoint insert_sorted (x : float) (l : list float) : list float :=
  match l with
  | [] => [x]
  | y :: l' => if fle x y then x :: l else y :: insert_sorted x l'
  end.

(** [sorted(...)] *)
Definition sorted (l : list float) : list float :=
  fold_right insert_sorted [] l.

(** [sum(1 for p in price_data if test(p))] *)
Definition count (test : Prices.t -> bool) (price_data : list Prices.t) : Z :=
  Z.of_nat (List.length (filter test price_data)).

(** The four fractions at [price], before rounding, in the order
    too_cheap, bargain, expensive, too_expensive. *)
Definition fractions (price_data : list Prices.t) (n : Z) (price : float)
    : exc (float * float * float * float) :=
  too_cheap_cum <- idiv (count (fun p => fle price (Prices.too_cheap p)) price_data) n ;;
  bargain_cum <- idiv (count (fun p => fle price (Prices.bargain p)) price_data) n ;;
  expensive_cum <- idiv (count (fun p => fle (Prices.expensive p) price) price_data) n ;;
  too_expensive_cum <- idiv (count (fun p => fle (Prices.too_expensive p) price) price_data) n ;;
  Ok (too_cheap_cum, bargain_cum, expensive_cum, too_expensive_cum).

Definition cumulative_row (price_data : list Prices.t) (n : Z) (price : float)
    : exc Row.t :=
  f <- fractions price_data n price ;;
  let '(too_cheap_cum, bargain_cum, expensive_cum, too_expensive_cum) := f in
  Ok (Row.Mk price (round too_cheap_cum 4) (round bargain_cum 4)
             (round expensive_cum 4) (round too_expensive_cum 4)).

Definition price_points (price_data : list Prices.t) : list float :=
  sorted (all_values price_data).

Definition cumulative (price_data : list Prices.t) : exc (list Row.t) :=
  mapM (cumulative_row price_data (Z.of_nat (List.length price_data)))
       (price_points price_data).

(** [l[0]] and [l[-1]] *)
Definition first_item (l : list float) : exc float :=
  match l with x :: _ => Ok x | [] => Raise IndexError end.

Definition last_item (l : list float) : exc float :=
  match rev l with x :: _ => Ok x | [] => Raise IndexError end.

Definition _calculate_intersections (price_data : list Prices.t) : exc vw_dict :=
  let price_points := price_points price_data in
  cumulative <- cumulative price_data ;;
  opp <- _find_intersection cumulative too_expensive too_cheap ;;
  ipp <- _find_intersection cumulative expensive bargain ;;
  pmc <- _find_intersection cumulative too_cheap expensive ;;
  pme <- _find_intersection cumulative too_expensive bargain ;;
  low <- match pmc with Some v => Ok v | None => first_item price_points end ;;
  high <- match pme with Some v => Ok v | None => last_item price_points end ;;
  Ok (MkVW opp ipp pmc pme
           (MkRange (Some (round low 2)) (Some (round high 2)))
           cumulative None).

Definition _empty_result : vw_dict :=
  MkVW None None None None (MkRange None None) [] (Some []).

(** *** [calculate_van_westendorp] *)

(** [if k not in d: d[k] = []] followed by [d[k].append(v)]; a dict keeps
    its keys in insertion order. *)
Fixpoint dict_append (d : list (string * list Prices.t)) (k : string)
    (v : Prices.t) : list (string * list Prices.t) :=
  match d with
  | [] => [(k, [v])]
  | (k', l) :: d' =>
      if String.eqb k' k then (k', l ++ [v]) :: d'
      else (k', l) :: dict_append d' k v
  end.

(** [d[k] = v] *)
Fixpoint dict_set {V} (d : list (string * V)) (k : string) (v : V)
    : list (string * V) :=
  match d with
  | [] => [(k, v)]
  | (k', v') :: d' =>
      if String.eqb k' k then (k', v) :: d'
      else (k', v') :: dict_set d' k v
  end.

Definition is_not_none {A} (v : option (option A)) : bool :=
  match v with Some (Some _) => true | _ => false end.

(** The body of the loop over [results], on the pair
    [(all_prices, by_archetype)]. *)
Definition collect_step
    (acc : list Prices.t * list (string * list Prices.t)) (r : Result.t)
    : exc (list Prices.t * list (string * list Prices.t)) :=
  let '(all_prices, by_archetype) := acc in
  if is_not_none (Result.error r) then Ok acc
  else
    let response_text :=
      match Result.response r with Some v => v | None => Some ""%string end in
    prices <- _parse_price_points response_text ;;
    match prices with
    | None => Ok acc
    | Some prices =>
        let archetype :=
          match Result.archetype_name r with
          | Some a => a
          | None => "unknown"%string
          end in
        Ok (all_prices ++ [prices], dict_append by_archetype archetype prices)
    end.

Definition archetype_step (archetype_results : list (string * archetype_points))
    (item : string * list Prices.t)
    : exc (list (string * archetype_points)) :=
  let '(arch, arch_prices) := item in
  if (2 <=? List.length arch_prices)%nat then
    arch_intersections <- _calculate_intersections arch_prices ;;
    Ok (dict_set archetype_results arch
          (MkPoints (optimal_price_point arch_intersections)
                    (indifference_price_point arch_intersections)
                    (point_of_marginal_cheapness arch_intersections)
                    (point_of_marginal_expensiveness arch_intersections)))
  else Ok archetype_results.

Definition calculate_van_westendorp (results : list Result.t) : exc vw_dict :=
  acc <- foldM collect_step results ([], []) ;;
  let '(all_prices, by_archetype) := acc in
  if (List.length all_prices <? 2)%nat then Ok _empty_result
  else
    overall <- _calculate_intersections all_prices ;;
    archetype_results <- foldM archetype_step by_archetype [] ;;
    Ok (set_by_archetype overall archetype_results).

End VanWestendorp.

(* ================================================================== *)
(** ** experiment_runner.py *)

Module Persona.
Inductive beliefs_t : Type :=
| Text (s : string)
| Items (l : list string).

Record t : Type := Mk {
  id : option string;
  name : option string;
  role : option string;
  company : option string;
  background : option string;
  beliefs : option beliefs_t;
  decision_style : option string;
  archetype_id : option string;
  archetype_name : option string
}.
End Persona.

Module Runner.

Local Open Scope string_scope.

Definition nl : string := String (ascii_of_nat 10) EmptyString.

(** [d[key]] *)
Definition item (key : string) (v : option string) : exc string :=
  match v with Some x => Ok x | None => Raise (KeyError key) end.

(** [d.get(key, default)] *)
Definition get_or (v : option string) (default : string) : string :=
  match v with Some x => x | None => default end.

Fixpoint join (sep : string) (l : list string) : string :=
  match l with
  | [] => ""
  | [x] => x
  | x :: l' => x ++ sep ++ join sep l'
  end.

Definition build_persona_system_prompt (persona : Persona.t) : exc string :=
  let beliefs_text :=
    match Persona.beliefs persona with
    | None => ""
    | Some (Persona.Text s) => s
    | Some (Persona.Items l) => join nl (map (fun b => "- " ++ b) l)
    end in
  name <- item "name" (Persona.name persona) ;;
  role <- item "role" (Persona.role persona) ;;
  Ok ("You are " ++ name ++ ", a " ++ role ++ "." ++ nl ++ nl
      ++ "Company: " ++ get_or (Persona.company persona) "N/A" ++ nl ++ nl
      ++ "Background:" ++ nl
      ++ get_or (Persona.background persona) "" ++ nl ++ nl
      ++ "Your beliefs and values:" ++ nl
      ++ beliefs_text ++ nl ++ nl
      ++ "Decision-making style: "
      ++ get_or (Persona.decision_style persona) "" ++ nl ++ nl
      ++ "Respond to the following scenario fully in character. Be specific and authentic"
      ++ nl
      ++ "to your persona's perspective, experience level, and decision-making style."
      ++ nl
      ++ "Do not break character or acknowledge that you are an AI.").

(** *** The text-generation client *)

Record request : Type := MkRequest {
  req_model : string;
  req_max_tokens : Z;
  req_temperature : float;
  req_system : string;
  req_messages : list (string * string)     (* role, content *)
}.

(** A content block; only a text block has a [text] attribute. *)
Inductive block : Type :=
| TextBlock (text : string)
| OtherBlock.

Record usage_t : Type := MkUsage { input_tokens : Z; output_tokens : Z }.

Record message : Type := MkMessage { content : list block; usage : usage_t }.

(** [client.messages.create]: returns a message or raises. *)
Definition client_t : Type := request -> exc message.

(** [response.content[0].text] *)
Definition first_text (m : message) : exc string :=
  match content m with
  | [] => Raise IndexError
  | TextBlock text :: _ => Ok text
  | OtherBlock :: _ => Raise AttributeError
  end.

(** [execute_persona]; [start_time] and [end_time] are the two readings
    of [time.time()]. *)
Definition execute_persona (start_time end_time : float) (client : client_t)
    (persona : Persona.t) (stimulus : string) (model : string)
    (temperature : float) (max_tokens : Z) : exc Result.t :=
  system_prompt <- build_persona_system_prompt persona ;;
  let attempt : exc Result.t :=
    response <- client (MkRequest model max_tokens temperature system_prompt
                          [("user", stimulus)]) ;;
    response_text <- first_text response ;;
    let sentiment := Sentiment.analyze_sentiment response_text in
    let elapsed := (end_time - start_time)%Q in
    persona_id <- item "id" (Persona.id persona) ;;
    persona_name <- item "name" (Persona.name persona) ;;
    Ok (Result.Mk (Some persona_id) (Some persona_name)
          (Some (get_or (Persona.archetype_id persona) ""))
          (Some (get_or (Persona.archetype_name persona) ""))
          (Some (Some response_text))
          (Some sentiment)
          (Some (Tokens.Mk (Some (input_tokens (usage response)))
                           (Some (output_tokens (usage response)))))
          (Some model)
          (Some (round elapsed 2))
          (Some None)) in
  match attempt with
  | Ok r => Ok r
  | Raise e =>
      let elapsed := (end_time - start_time)%Q in
      persona_id <- item "id" (Persona.id persona) ;;
      persona_name <- item "name" (Persona.name persona) ;;
      Ok (Result.Mk (Some persona_id) (Some persona_name)
            (Some (get_or (Persona.archetype_id persona) ""))
            (Some (get_or (Persona.archetype_name persona) ""))
            (Some None)
            (Some 0%Q)
            (Some (Tokens.Mk (Some 0%Z) (Some 0%Z)))
            (Some model)
            (Some (round elapsed 2))
            (Some (Some (exn_name e ++ ": " ++ exn_str e))))
  end.

End Runner.

(* ================================================================== *)
(** ** app.py: token totals and phase 3 of [stream_results] *)

Module App.

Record metrics : Type := MkMetrics {
  total_personas : nat;
  successful_responses : nat;
  failed_responses : nat;
  avg_sentiment : float;
  archetype_sentiments : list (string * float);
  total_tokens : Z * Z;                       (* input, output *)
  elapsed_seconds : float
}.

(** [result.get("tokens", {}).get(key, 0)] *)
Definition tokens_get (r : Result.t) (key : Tokens.t -> option Z) : Z :=
  match Result.tokens r with
  | Some t => match key t with Some v => v | None => 0%Z end
  | None => 0%Z
  end.

(** The running totals kept by the loop of phase 2. *)
Definition add_tokens (total_tokens : Z * Z) (result : Result.t) : Z * Z :=
  (fst total_tokens + tokens_get result Tokens.input,
   snd total_tokens + tokens_get result Tokens.output)%Z.

Definition error_is_none (r : Result.t) : bool :=
  negb (VanWestendorp.is_not_none (Result.error r)).

(** [r["sentiment"]] *)
Definition sentiment_of (r : Result.t) : exc float :=
  match Result.sentiment r with
  | Some s => Ok s
  | None => Raise (KeyError "sentiment")
  end.

(** [sum(l)] on floats *)
Definition fsum (l : list float) : float :=
  fold_left Qplus l 0%Q.

(** [round(sum(l) / len(l), 3)] *)
Definition mean3 (l : list float) : exc float :=
  q <- fdiv (fsum l) (inject_Z (Z.of_nat (List.length l))) ;;
  Ok (round q 3).

(** [if k not in d: d[k] = []] followed by [d[k].append(v)] *)
Fixpoint group_append (d : list (string * list float)) (k : string)
    (v : float) : list (string * list float) :=
  match d with
  | [] => [(k, [v])]
  | (k', l) :: d' =>
      if String.eqb k' k then (k', l ++ [v]) :: d'
      else (k', l) :: group_append d' k v
  end.

Definition group_step (by_archetype : list (string * list float))
    (r : Result.t) : exc (list (string * list float)) :=
  let arch :=
    match Result.archetype_name r with
    | Some a => a
    | None => "unknown"%string
    end in
  s <- sentiment_of r ;;
  Ok (group_append by_archetype arch s).

(** Phase 3.  [start_time] and [now] are the readings of [time.time()] at
    the start of the stream and at the start of the phase; [total_tokens]
    is what the loop of phase 2 has accumulated. *)
Definition compute_metrics (start_time now : float)
    (personas : list Persona.t) (results : list Result.t)
    (total_tokens : Z * Z) : exc metrics :=
  let elapsed := round (now - start_time) 2 in
  let successful := filter error_is_none results in
  let failed := filter (fun r => negb (error_is_none r)) results in
  sentiments <- mapM sentiment_of successful ;;
  avg_sentiment <-
    match sentiments with
    | [] => Ok 0%Q
    | _ => mean3 sentiments
    end ;;
  by_archetype <- foldM group_step successful [] ;;
  archetype_sentiments <-
    mapM (fun item => m <- mean3 (snd item) ;; Ok (fst item, m)) by_archetype ;;
  Ok (MkMetrics (List.length personas) (List.length successful)
        (List.length failed) avg_sentiment archetype_sentiments
        total_tokens elapsed).

(** Phases 2 and 3 on the results in the order they complete. *)
Definition aggregate (start_time now : float) (personas : list Persona.t)
    (completed : list Result.t) : exc metrics :=
  let results := completed in
  let total_tokens := fold_left add_tokens completed (0, 0)%Z in
  compute_metrics start_time now personas results total_tokens.

End App.

(* ================================================================== *)
(** ** Vocabulary of the specification *)

Module Vocabulary.

(** The maximal runs of characters of class [p] in a text; every other
    character is a separator.  [acc] is the run being read. *)
Fixpoint runs_acc (p : ascii -> bool) (acc s : list ascii)
    : list (list ascii) :=
  match s with
  | [] => match acc with [] => [] | _ => [acc] end
  | c :: s' =>
      if p c then runs_acc p (acc ++ [c]) s'
      else match acc with [] => [] | _ => [acc] end ++ runs_acc p [] s'
  end.

Definition runs (p : ascii -> bool) (s : list ascii) : list (list ascii) :=
  runs_acc p [] s.

(** The maximal alphabetic runs of the lowercased text. *)
Definition alpha_runs (text : string) : list string :=
  map string_of_list_ascii (runs is_az (lower (list_ascii_of_string text))).

(** The letter-only word runs of a text. *)
Definition tokens (s : list ascii) : list (list ascii) :=
  filter (forallb is_az) (runs is_word s).

(** The maximal runs of word characters (letters, digits, underscore) of
    the lowercased text that are made of the letters a-z only. *)
Definition letter_words (text : string) : list string :=
  map string_of_list_ascii (tokens (lower (list_ascii_of_string text))).

(** Does the text ahead start with a letter a-z? *)
Definition az_at (s : list ascii) : bool :=
  match s with c :: _ => is_az c | [] => false end.

(** The text ahead without the word characters it starts with. *)
Fixpoint drop_word (s : list ascii) : list ascii :=
  match s with
  | c :: s' => if is_word c then drop_word s' else s
  | [] => []
  end.

(** The score the specification gives to signal totals [pos] and [neg]. *)
Definition clamped_ratio (pos neg : Z) : float :=
  if Z.eqb (pos + neg) 0 then 0%Q
  else fmax (-1)%Q
         (fmin 1%Q (round (inject_Z (pos - neg) / inject_Z (pos + neg))%Q 2)).

(** The weight of a word in a signal table, 0 when it is not a signal. *)
Definition weight (d : list (string * Z)) (w : string) : Z :=
  match Sentiment.dict_get d w with Some v => v | None => 0%Z end.

Definition total_weight (d : list (string * Z)) (ws : list string) : Z :=
  fold_right Z.add 0%Z (map (weight d) ws).

(** *** Price analysis *)

(** [r.get("response", "")] *)
Definition response_text (r : Result.t) : option string :=
  match Result.response r with Some v => v | None => Some ""%string end.

(** The quadruple a result contributes to the price analysis, if any. *)
Definition quadruple_of (r : Result.t) : option Prices.t :=
  if VanWestendorp.is_not_none (Result.error r) then None
  else match VanWestendorp._parse_price_points (response_text r) with
       | Ok (Some p) => Some p
       | _ => None
       end.

(** [r.get("archetype_name", "unknown")] *)
Definition archetype_of (r : Result.t) : string :=
  match Result.archetype_name r with
  | Some a => a
  | None => "unknown"%string
  end.

(** The valid parsed quadruples of a list of results. *)
Definition valid_quadruples (results : list Result.t) : list Prices.t :=
  flat_map (fun r => match quadruple_of r with Some p => [p] | None => [] end)
           results.

(** The text holds the word [w], in any case. *)
Definition holds_word (w : string) (text : list ascii) : Prop :=
  exists pre x post,
    text = pre ++ x ++ post /\ lower x = lower (list_ascii_of_string w).

(** The text holds TOO, one underscore or whitespace character, and the
    word [w], in any case. *)
Definition holds_too (w : string) (text : list ascii) : Prop :=
  exists pre x c y post,
    text = pre ++ x ++ c :: y ++ post
    /\ lower x = lower (list_ascii_of_string "TOO")
    /\ VanWestendorp.sep c = true
    /\ lower y = lower (list_ascii_of_string w).

(** Does the text passed so far ([bef], nearest first) end with TOO, in
    any case, followed by one or more underscores or whitespace
    characters? *)
Fixpoint after_too (bef : list ascii) : bool :=
  match bef with
  | c :: bef' =>
      VanWestendorp.sep c
      && (Re.behind [Re.ci "o"; Re.ci "o"; Re.ci "t"] bef' || after_too bef')
  | [] => false
  end.

(** The row of the cumulative table at [price], for [n] respondents. *)
Definition fraction (test : Prices.t -> bool) (price_data : list Prices.t)
    (n : Z) : float :=
  (inject_Z (VanWestendorp.count test price_data) / inject_Z n)%Q.

Definition raw_row (price_data : list Prices.t) (n : Z) (price : float)
    : float * float * float * float :=
  (fraction (fun p => fle price (Prices.too_cheap p)) price_data n,
   fraction (fun p => fle price (Prices.bargain p)) price_data n,
   fraction (fun p => fle (Prices.expensive p) price) price_data n,
   fraction (fun p => fle (Prices.too_expensive p) price) price_data n).

Definition row_of (price_data : list Prices.t) (n : Z) (price : float)
    : Row.t :=
  let '(tc, b, e, te) := raw_row price_data n price in
  Row.Mk price (round tc 4) (round b 4) (round e 4) (round te 4).

(** [r1] stands before [r2] on the price axis and the curves move the
    way they should between them. *)
Definition row_le (r1 r2 : Row.t) : Prop :=
  (Row.price r1 <= Row.price r2
   /\ Row.too_cheap r2 <= Row.too_cheap r1
   /\ Row.bargain r2 <= Row.bargain r1
   /\ Row.expensive r1 <= Row.expensive r2
   /\ Row.too_expensive r1 <= Row.too_expensive r2)%Q.

Definition unit (x : float) : Prop := (0 <= x <= 1)%Q.

Definition row_unit (r : Row.t) : Prop :=
  unit (Row.too_cheap r) /\ unit (Row.bargain r)
  /\ unit (Row.expensive r) /\ unit (Row.too_expensive r).

Definition raw_le (f1 f2 : float * float * float * float) : Prop :=
  let '(tc1, b1, e1, te1) := f1 in
  let '(tc2, b2, e2, te2) := f2 in
  (tc2 <= tc1 /\ b2 <= b1 /\ e1 <= e2 /\ te1 <= te2)%Q.

Definition raw_unit (f : float * float * float * float) : Prop :=
  let '(tc, b, e, te) := f in unit tc /\ unit b /\ unit e /\ unit te.

End Vocabulary.

(* ================================================================== *)
(** ** Sample inputs *)

Module Samples.

Local Open Scope string_scope.

(** A successful result dict with the given response text and archetype. *)
Definition answered (response archetype : string) : Result.t :=
  Result.Mk (Some "p") (Some "P") (Some "a") (Some archetype)
            (Some (Some response)) (Some (Sentiment.analyze_sentiment response))
            (Some (Tokens.Mk (Some 120%Z) (Some 45%Z))) (Some "m")
            (Some 0%Q) (Some None).

(** A failed result dict. *)
Definition failed (message : string) : Result.t :=
  Result.Mk (Some "p") (Some "P") (Some "a") (Some "A")
            (Some None) (Some 0%Q)
            (Some (Tokens.Mk (Some 0%Z) (Some 0%Z))) (Some "m")
            (Some 0%Q) (Some (Some message)).

(** A persona with every key. *)
Definition ada : Persona.t :=
  Persona.Mk (Some "p-1") (Some "Ada") (Some "CFO") (Some "Acme")
             (Some "Twenty years in finance.")
             (Some (Persona.Items ["Cash is king"; "Trust but verify"]))
             (Some "analytical") (Some "a-1") (Some "Buyer").

(** A client whose call times out. *)
Definition timing_out : Runner.client_t :=
  fun _ => Raise (ApiError "APITimeoutError" "Request timed out.").

(** A client that answers with one text block. *)
Definition answering (text : string) : Runner.client_t :=
  fun _ => Ok (Runner.MkMessage [Runner.TextBlock text]
                                (Runner.MkUsage 120 45)).

(** A client whose reply has no content block. *)
Definition silent : Runner.client_t :=
  fun _ => Ok (Runner.MkMessage [] (Runner.MkUsage 120 0)).

End Samples.

(* ================================================================== *)
(** ** Further vocabulary *)

Module Notions.

Import Re.

(** The texts a pattern can consume; a lookbehind and a word boundary
    consume nothing. *)
Fixpoint consumes (r : regex) (w : list ascii) : Prop :=
  match r with
  | Eps => w = []
  | Chr p => exists c, w = [c] /\ p c = true
  | Seq r1 r2 =>
      exists w1 w2, w = (w1 ++ w2)%list /\ consumes r1 w1 /\ consumes r2 w2
  | Rep p lo hi =>
      forallb p w = true /\ (lo <= List.length w)%nat
      /\ match hi with Some h => (List.length w <= h)%nat | None => True end
  | Opt r1 => w = [] \/ consumes r1 w
  | Grp r1 => consumes r1 w
  | NotBehind _ => w = []
  | WordB => w = []
  end.

(** Patterns that end with the number group. *)
Inductive ends_with_number : regex -> Prop :=
| number_here : ends_with_number VanWestendorp.number_re
| number_later (r1 r2 : regex) :
    ends_with_number r2 -> ends_with_number (Seq r1 r2).

(** A number as the patterns let it reach [float()], commas removed:
    digits, then perhaps a point and one or two digits; no sign, no
    exponent, no word. *)
Definition plain_decimal (w : list ascii) : Prop :=
  exists ip tail,
    forallb is_digit ip = true
    /\ match tail with
       | Some ds => forallb is_digit ds = true
                    /\ (1 <= List.length ds <= 2)%nat
       | None => True
       end
    /\ w = (ip ++ match tail with
                  | Some ds => "."%char :: ds
                  | None => []
                  end)%list.

(** [v] is [float(w)] for a plain decimal [w]. *)
Definition plain_value (v : float) : Prop :=
  exists w, plain_decimal w /\ VanWestendorp.float_of_str w = Ok v.

(** A class that does not tell a character from its lowercase form. *)
Definition case_blind (p : cls) : Prop :=
  forall c, p (lower_char c) = p c.

(** Patterns all of whose classes are case-blind. *)
Fixpoint ignores_case (r : regex) : Prop :=
  match r with
  | Eps => True
  | Chr p => case_blind p
  | Seq r1 r2 => ignores_case r1 /\ ignores_case r2
  | Rep p _ _ => case_blind p
  | Opt r1 => ignores_case r1
  | Grp r1 => ignores_case r1
  | NotBehind ps => Forall case_blind ps
  | WordB => True
  end.

(** A match object with its texts lowercased. *)
Definition lower_match (mo : match_obj) : match_obj :=
  MkMatch (m_start mo) (lower (m_group0 mo))
          (option_map lower (m_group1 mo))
          (lower (m_end_bef mo)) (lower (m_end_aft mo)).

(** [s.lower()] on a string. *)
Definition lower_string (s : string) : string :=
  string_of_list_ascii (lower (list_ascii_of_string s)).

(** A character with the letters A-Z alone lowercased. *)
Definition ascii_lower_char (c : ascii) : ascii :=
  if in_range 65 90 c then ascii_of_N (code c + 32) else c.

(** Two texts that differ at most in the case of the letters A-Z, a-z. *)
Definition same_but_ascii_case (s1 s2 : string) : Prop :=
  map ascii_lower_char (list_ascii_of_string s1)
  = map ascii_lower_char (list_ascii_of_string s2).

(** Two floats that are not equal. *)
Definition differ (x y : float) : Prop := ~ (x == y)%Q.

(** [x] is a price some respondent quoted. *)
Definition quoted (price_data : list Prices.t) (x : float) : Prop :=
  exists p, In p price_data /\ In x (Prices.values p).

(** All the intersection points and both ends of the range of [d] lie
    between [lo] and [hi]. *)
Definition point_within (lo hi : float) (v : option float) : Prop :=
  match v with Some x => (lo <= x <= hi)%Q | None => True end.

Definition result_within (lo hi : float) (d : VanWestendorp.vw_dict) : Prop :=
  point_within lo hi (VanWestendorp.optimal_price_point d)
  /\ point_within lo hi (VanWestendorp.indifference_price_point d)
  /\ point_within lo hi (VanWestendorp.point_of_marginal_cheapness d)
  /\ point_within lo hi (VanWestendorp.point_of_marginal_expensiveness d)
  /\ point_within lo hi (VanWestendorp.low (VanWestendorp.acceptable_price_range d))
  /\ point_within lo hi (VanWestendorp.high (VanWestendorp.acceptable_price_range d)).

(** [d.get(k)] on a dict kept as a list of items. *)
Fixpoint find_key {V : Type} (d : list (string * V)) (k : string) : option V :=
  match d with
  | [] => None
  | (k', v) :: d' => if String.eqb k' k then Some v else find_key d' k
  end.

(** The quadruples gathered under a key, none when the key is absent. *)
Definition group_of (d : list (string * list Prices.t)) (k : string)
    : list Prices.t :=
  match find_key d k with Some l => l | None => [] end.

(** The valid quadruples of the results of archetype [a], in input order. *)
Definition quadruples_in (a : string) (results : list Result.t)
    : list Prices.t :=
  flat_map (fun r => match Vocabulary.quadruple_of r with
                     | Some p =>
                         if String.eqb (Vocabulary.archetype_of r) a
                         then [p] else []
                     | None => []
                     end)
           results.

(** The four points of a result, as the per-archetype entry holds them. *)
Definition points_of (d : VanWestendorp.vw_dict)
    : VanWestendorp.archetype_points :=
  VanWestendorp.MkPoints
    (VanWestendorp.optimal_price_point d)
    (VanWestendorp.indifference_price_point d)
    (VanWestendorp.point_of_marginal_cheapness d)
    (VanWestendorp.point_of_marginal_expensiveness d).

(** The sentiments of the successful results of archetype [a], in input
    order. *)
Definition sentiments_in (a : string) (results : list Result.t)
    : list float :=
  flat_map (fun r =>
              if App.error_is_none r
                 && String.eqb (Vocabulary.archetype_of r) a
              then match Result.sentiment r with
                   | Some s => [s]
                   | None => []
                   end
              else [])
           results.

(** The sentiments gathered under a key, none when the key is absent. *)
Definition scores_of (d : list (string * list float)) (k : string)
    : list float :=
  match find_key d k with Some l => l | None => [] end.

(** Sums of the token counts of a list of results. *)
Definition tokens_sum (key : Tokens.t -> option Z) (results : list Result.t)
    : Z :=
  fold_right Z.add 0%Z (map (fun r => App.tokens_get r key) results).

Definition in_unit_ball (x : float) : Prop := (-1 <= x <= 1)%Q.

End Notions.

(* ================================================================== *)
(** ** Markdown code fences in a reply

    [persona_generator.py] and [insight_extractor.py] take the JSON text
    out of a fenced reply with the same loop. *)

Module Fences.

(** The backtick and the line feed. *)
Definition tick : ascii := ascii_of_N 96.
Definition newline : ascii := ascii_of_N 10.

Definition is_tick (c : ascii) : bool := N.eqb (code c) 96.
Definition is_nl (c : ascii) : bool := N.eqb (code c) 10.

(** The three backticks that open and close a block. *)
Definition fence : list ascii := [tick; tick; tick].

(** [s.startswith("```")] *)
Definition starts_with_fence (s : list ascii) : bool :=
  match s with
  | c1 :: c2 :: c3 :: _ => is_tick c1 && is_tick c2 && is_tick c3
  | _ => false
  end.

(** [s.split("\n")]; [acc] is the line being read. *)
Fixpoint split_acc (acc s : list ascii) : list (list ascii) :=
  match s with
  | [] => [acc]
  | c :: s' =>
      if is_nl c then acc :: split_acc [] s'
      else split_acc (acc ++ [c]) s'
  end.

Definition split_lines (s : list ascii) : list (list ascii) :=
  split_acc [] s.

(** ["\n".join(lines)] *)
Fixpoint join_lines (lines : list (list ascii)) : list ascii :=
  match lines with
  | [] => []
  | [l] => l
  | l :: ls => l ++ newline :: join_lines ls
  end.

(** The loop over the lines: the first fence line opens the block, the
    next one ends the loop, the lines between them are kept. *)
Fixpoint fence_loop (in_block : bool) (json_lines lines : list (list ascii))
    : list (list ascii) :=
  match lines with
  | [] => json_lines
  | line :: rest =>
      if starts_with_fence line && negb in_block
      then fence_loop true json_lines rest
      else if starts_with_fence line && in_block
      then json_lines
      else if in_block
      then fence_loop in_block (json_lines ++ [line]) rest
      else fence_loop in_block json_lines rest
  end.

(** [if text.startswith("```"): ...] *)
Definition strip_fences (text : list ascii) : list ascii :=
  if starts_with_fence text
  then join_lines (fence_loop false [] (split_lines text))
  else text.

(** [response.content[0].text.strip()] and the fence stripping that
    follows it. *)
Definition reply_json (text : list ascii) : list ascii :=
  strip_fences (strip text).

End Fences.

Module FenceNotions.

Import Fences.

(** A line that does not open or close a block. *)
Definition plain (line : list ascii) : Prop := starts_with_fence line = false.

(** A text all of whose lines are plain. *)
Definition plain_text (s : list ascii) : Prop := Forall plain (split_lines s).

(** A text without a line feed. *)
Definition one_line (s : list ascii) : Prop :=
  forallb (fun c => negb (is_nl c)) s = true.

Definition blank (s : list ascii) : Prop := forallb is_space s = true.

End FenceNotions.

(* ================================================================== *)
(** ** insight_extractor.py *)

Module Json.

(** The values [json.loads] returns and the insights dicts are made of;
    a dict keeps its items in insertion order. *)
#[warnings="-register-all"]
Inductive value : Type :=
| JNull
| JBool (b : bool)
| JInt (z : Z)
| JFloat (x : float)
| JStr (s : string)
| JList (l : list value)
| JDict (items : list (string * value)).

(** [d.setdefault(k, v)] *)
Definition setdefault (items : list (string * value)) (k : string)
    (v : value) : list (string * value) :=
  match Notions.find_key items k with
  | Some _ => items
  | None => items ++ [(k, v)]
  end.

End Json.

Module Format.

Local Open Scope string_scope.

(** [str(n)] for a length, as an f-string prints it. *)
Definition str_of_nat (n : nat) : string :=
  NilEmpty.string_of_uint (Nat.to_uint n).

(** A word between double quotes. *)
Definition quote (s : string) : string :=
  String (ascii_of_nat 34) s ++ String (ascii_of_nat 34) EmptyString.

End Format.

Module Body.
(** The request body, with the keys [extract_insights] reads. *)
Record stimulus_t : Type := MkStimulus { template : option string }.
Record t : Type := Mk { stimulus : option stimulus_t }.
End Body.

Module Insights.

Import Json Format.
Local Open Scope string_scope.

(** The keyword arguments of [client.messages.create] here: no system
    prompt. *)
Record query : Type := MkQuery {
  q_model : string;
  q_max_tokens : Z;
  q_temperature : float;
  q_messages : list (string * string)
}.

Definition query_client : Type := query -> exc Runner.message.

(** What a call ends with: the dict it returns, the [TypeError] of
    [None[:1000]], or another exception. *)
Inductive outcome : Type :=
| Returned (insights : value)
| TypeError
| Raised (e : pyexn).

Definition empty_insights : value :=
  JDict [("themes", JList []);
         ("recommendations", JList []);
         ("concerns", JList []);
         ("archetype_patterns", JDict [])].

(** *** [_fallback_insights] *)

(** [{"sentiments": [...], "key_themes": [...]}] *)
Record gathered : Type := MkGathered {
  sentiments : list float;
  key_themes : list value
}.

(** [if arch not in archetype_patterns: archetype_patterns[arch] = {...}]
    followed by [archetype_patterns[arch]["sentiments"].append(s)] *)
Fixpoint gather (archetype_patterns : list (string * gathered))
    (arch : string) (s : float) : list (string * gathered) :=
  match archetype_patterns with
  | [] => [(arch, MkGathered ([] ++ [s]) [])]
  | (k, data) :: d' =>
      if String.eqb k arch
      then (k, MkGathered (sentiments data ++ [s]) (key_themes data)) :: d'
      else (k, data) :: gather d' arch s
  end.

(** [r.get("sentiment", 0.0)] *)
Definition sentiment_or_zero (r : Result.t) : float :=
  match Result.sentiment r with Some s => s | None => 0%Q end.

Definition gather_step (archetype_patterns : list (string * gathered))
    (r : Result.t) : list (string * gathered) :=
  let arch := Runner.get_or (Result.archetype_name r) "unknown" in
  gather archetype_patterns arch (sentiment_or_zero r).

(** The dict that replaces the gathered data of an archetype. *)
Definition pattern_of (data : gathered) : exc value :=
  let sentiments := sentiments data in
  avg <- match sentiments with
         | [] => Ok 0%Q
         | _ => App.mean3 sentiments
         end ;;
  Ok (JDict [("avg_sentiment", JFloat avg); ("key_themes", JList [])]).

Definition fallback_insights (results : list Result.t) : exc value :=
  let archetype_patterns := fold_left gather_step results [] in
  archetype_patterns <-
    mapM (fun item => p <- pattern_of (snd item) ;; Ok (fst item, p))
         archetype_patterns ;;
  Ok (JDict
        [("themes", JList []);
         ("recommendations",
          JList [JStr "Review individual persona responses for detailed insights."]);
         ("concerns", JList []);
         ("archetype_patterns", JDict archetype_patterns)]).

(** *** [extract_insights] *)

(** One entry of [responses_summary]; [None] stands for the [TypeError]
    of slicing a null response. *)
Definition summary_of (r : Result.t) : option value :=
  match Result.response r with
  | Some None => None
  | response =>
      let text := match response with Some (Some s) => s | _ => "" end in
      Some (JDict
              [("persona", JStr (Runner.get_or (Result.persona_name r) "Unknown"));
               ("archetype",
                JStr (Runner.get_or (Result.archetype_name r) "Unknown"));
               ("sentiment", JFloat (sentiment_or_zero r));
               ("response", JStr (substring 0 1000 text))])
  end.

Fixpoint summaries (successful : list Result.t) : option (list value) :=
  match successful with
  | [] => Some []
  | r :: rs =>
      match summary_of r with
      | None => None
      | Some s =>
          match summaries rs with
          | None => None
          | Some ss => Some (s :: ss)
          end
      end
  end.

(** The four [setdefault] calls; a value that is not a dict has no such
    method. *)
Definition ensure_keys (insights : value) : exc value :=
  match insights with
  | JDict items =>
      let items := setdefault items "themes" (JList []) in
      let items := setdefault items "recommendations" (JList []) in
      let items := setdefault items "concerns" (JList []) in
      let items := setdefault items "archetype_patterns" (JDict []) in
      Ok (JDict items)
  | _ => Raise AttributeError
  end.

Section Extract.

(** [json.dumps(x, indent=2, default=str)] and [json.loads], which
    raises on a text that is not JSON. *)
Variable json_dumps : value -> string.
Variable json_loads : string -> exc value.

Definition prompt_of (successful : list Result.t)
    (responses_summary : list value) (stimulus : string) : string :=
  Runner.join Runner.nl
    [ "Analyze the following experiment results. The experiment asked "
        ++ str_of_nat (List.length successful)
        ++ " synthetic personas to respond to this stimulus:";
      "";
      "---";
      substring 0 500 stimulus;
      "---";
      "";
      "Here are all persona responses:";
      "";
      json_dumps (JList responses_summary);
      "";
      "Extract the following structured insights as JSON:";
      "";
      "1. " ++ quote "themes" ++ ": An array of objects, each with:";
      "   - " ++ quote "theme" ++ ": A short label for the theme";
      "   - " ++ quote "count" ++ ": How many personas touched on this theme";
      "   - " ++ quote "examples"
        ++ ": 1-2 brief quotes from responses that illustrate this theme";
      "";
      "2. " ++ quote "recommendations"
        ++ ": An array of 3-5 actionable recommendation strings for the decision-maker";
      "";
      "3. " ++ quote "concerns" ++ ": An array of objects, each with:";
      "   - " ++ quote "concern" ++ ": A short description of the concern";
      "   - " ++ quote "frequency" ++ ": How many personas raised this concern";
      "";
      "4. " ++ quote "archetype_patterns"
        ++ ": An object keyed by archetype name, each with:";
      "   - " ++ quote "avg_sentiment"
        ++ ": Average sentiment score for that archetype";
      "   - " ++ quote "key_themes"
        ++ ": 2-3 themes most common in that archetype";
      "";
      "Return ONLY valid JSON with these four top-level keys. No markdown, no explanation." ].

(** The body of the [try]. *)
Definition ask (client : query_client) (prompt : string) : exc value :=
  response <- client (MkQuery "claude-haiku-4-5-20251001" 2048 (3 # 10)
                        [("user", prompt)]) ;;
  text <- Runner.first_text response ;;
  let text :=
    string_of_list_ascii (Fences.reply_json (list_ascii_of_string text)) in
  insights <- json_loads text ;;
  ensure_keys insights.

Definition extract_insights (client : query_client) (results : list Result.t)
    (body : Body.t) : outcome :=
  let successful := filter App.error_is_none results in
  match successful with
  | [] => Returned empty_insights
  | _ =>
      match summaries successful with
      | None => TypeError
      | Some responses_summary =>
          let stimulus :=
            match Body.stimulus body with
            | Some s => Runner.get_or (Body.template s) ""
            | None => ""
            end in
          let prompt := prompt_of successful responses_summary stimulus in
          match ask client prompt with
          | Ok insights => Returned insights
          | Raise _ =>
              match fallback_insights successful with
              | Ok insights => Returned insights
              | Raise e => Raised e
              end
          end
      end
  end.

End Extract.

End Insights.

Module InsightNotions.

Import Json Insights.
Local Open Scope string_scope.

(** The entry of one archetype in [archetype_patterns]. *)
Definition pattern (avg : float) : value :=
  JDict [("avg_sentiment", JFloat avg); ("key_themes", JList [])].

(** The locally computed insights for the given averages. *)
Definition fallback_dict (averages : list (string * float)) : value :=
  JDict
    [("themes", JList []);
     ("recommendations",
      JList [JStr "Review individual persona responses for detailed insights."]);
     ("concerns", JList []);
     ("archetype_patterns",
      JDict (map (fun kv => (fst kv, pattern (snd kv))) averages))].

(** The sentiments of the results of archetype [a], in input order, a
    missing one counted as 0.0. *)
Definition scores_in (a : string) (results : list Result.t) : list float :=
  flat_map (fun r => if String.eqb (Vocabulary.archetype_of r) a
                     then [sentiment_or_zero r] else [])
           results.

(** The sentiment lists of the gathered data. *)
Definition sentiment_lists (d : list (string * gathered))
    : list (string * list float) :=
  map (fun kv => (fst kv, sentiments (snd kv))) d.

(** One step of the grouping, on the sentiment lists alone. *)
Definition plain_step (d : list (string * list float)) (r : Result.t)
    : list (string * list float) :=
  App.group_append d (Vocabulary.archetype_of r) (sentiment_or_zero r).

(** The keys every insights dict is to have. *)
Definition insight_keys : list string :=
  ["themes"; "recommendations"; "concerns"; "archetype_patterns"].

Definition has_keys (items : list (string * value)) : Prop :=
  Forall (fun k => Notions.find_key items k <> None) insight_keys.

(** No successful result has a null response. *)
Definition responses_present (results : list Result.t) : Prop :=
  forall r, In r results -> App.error_is_none r = true ->
            Result.response r <> Some None.

End InsightNotions.

(* ================================================================== *)
(** ** app.py: the event stream of [stream_results]

    The events are the dicts handed to [_ndjson_line], in the order they
    are yielded.  [generate_personas] and [execute_single_persona.map]
    run remotely; the stream is given their outcomes. *)

Module Stream.

Import Format.
Local Open Scope string_scope.

Inductive event : Type :=
| Status (message experiment_id : string)
| PersonaGenerated
    (experiment_id persona_id name role archetype_id archetype_name : string)
| ResponseComplete
    (experiment_id persona_id persona_name archetype_id archetype_name : string)
    (response : option string) (sentiment : float) (tokens : Tokens.t)
    (error : option string)
| ExperimentComplete (experiment_id : string) (results : list Result.t)
    (metrics : App.metrics).

(** A run of a generator: the events it yields, then the value it
    returns or the exception that ends it. *)
Definition gen (A : Type) : Type := (list event * exc A)%type.

Definition ret {A} (a : A) : gen A := ([], Ok a).

Definition yield (e : event) : gen unit := ([e], Ok tt).

Definition lift {A} (c : exc A) : gen A := ([], c).

Definition gbind {A B} (g : gen A) (k : A -> gen B) : gen B :=
  match snd g with
  | Ok a => ((fst g ++ fst (k a))%list, snd (k a))
  | Raise e => (fst g, Raise e)
  end.

Notation "x <~ c ;; k" := (gbind c (fun x => k))
  (at level 61, c at next level, right associativity).

(** What an iterator over remote calls gives: the items it yields and
    the exception that ends it, if any. *)
Definition iterator (A : Type) : Type := (list A * option pyexn)%type.

(** The dict of a [persona_generated] line. *)
Definition persona_event (experiment_id : string) (persona : Persona.t)
    : exc event :=
  persona_id <- Runner.item "id" (Persona.id persona) ;;
  name <- Runner.item "name" (Persona.name persona) ;;
  role <- Runner.item "role" (Persona.role persona) ;;
  archetype_id <- Runner.item "archetype_id" (Persona.archetype_id persona) ;;
  archetype_name <-
    Runner.item "archetype_name" (Persona.archetype_name persona) ;;
  Ok (PersonaGenerated experiment_id persona_id name role archetype_id
        archetype_name).

(** [for persona in personas: yield ...] *)
Fixpoint persona_events (experiment_id : string) (personas : list Persona.t)
    : gen unit :=
  match personas with
  | [] => ret tt
  | persona :: rest =>
      e <~ lift (persona_event experiment_id persona) ;;
      _ <~ yield e ;;
      persona_events experiment_id rest
  end.

(** [result["response"]] *)
Definition response_of (result : Result.t) : exc (option string) :=
  match Result.response result with
  | Some v => Ok v
  | None => Raise (KeyError "response")
  end.

(** The dict of a [response_complete] line. *)
Definition response_event (experiment_id : string) (result : Result.t)
    : exc event :=
  persona_id <- Runner.item "persona_id" (Result.persona_id result) ;;
  persona_name <- Runner.item "persona_name" (Result.persona_name result) ;;
  let archetype_id := Runner.get_or (Result.archetype_id result) "" in
  let archetype_name := Runner.get_or (Result.archetype_name result) "" in
  response <- response_of result ;;
  sentiment <- App.sentiment_of result ;;
  let tokens :=
    match Result.tokens result with
    | Some t => t
    | None => Tokens.Mk None None
    end in
  let error :=
    match Result.error result with
    | Some e => e
    | None => None
    end in
  Ok (ResponseComplete experiment_id persona_id persona_name archetype_id
        archetype_name response sentiment tokens error).

(** The loop of phase 2 over the results the iterator yields. *)
Fixpoint responses (experiment_id : string) (outputs : list Result.t)
    (results : list Result.t) (total_tokens : Z * Z)
    : gen (list Result.t * (Z * Z)) :=
  match outputs with
  | [] => ret (results, total_tokens)
  | result :: rest =>
      let results := (results ++ [result])%list in
      let total_tokens := App.add_tokens total_tokens result in
      e <~ lift (response_event experiment_id result) ;;
      _ <~ yield e ;;
      responses experiment_id rest results total_tokens
  end.

(** [stream_results].  [start_time] and [now] are the two readings of
    [time.time()]; [generated] is the outcome of creating the client and
    calling [generate_personas]; [remote_map] is
    [execute_single_persona.map] with the keyword arguments of the
    request. *)
Definition stream_results (experiment_id : string) (start_time now : float)
    (generated : exc (list Persona.t))
    (remote_map : list Persona.t -> iterator Result.t) : gen unit :=
  _ <~ yield (Status "Generating personas..." experiment_id) ;;
  personas <~ lift generated ;;
  _ <~ persona_events experiment_id personas ;;
  _ <~ yield (Status ("Running " ++ str_of_nat (List.length personas)
                        ++ " persona responses in parallel...")
                     experiment_id) ;;
  let '(outputs, failure) := remote_map personas in
  state <~ responses experiment_id outputs [] (0, 0)%Z ;;
  let '(results, total_tokens) := state in
  _ <~ lift (match failure with Some e => Raise e | None => Ok tt end) ;;
  metrics <~
    lift (App.compute_metrics start_time now personas results total_tokens) ;;
  yield (ExperimentComplete experiment_id results metrics).

End Stream.

Module StreamNotions.

Import Stream Format.
Local Open Scope string_scope.

(** A persona with the five keys a [persona_generated] line reads. *)
Definition announced (p : Persona.t) : Prop :=
  Persona.id p <> None /\ Persona.name p <> None /\ Persona.role p <> None
  /\ Persona.archetype_id p <> None /\ Persona.archetype_name p <> None.

(** A result with the four keys a [response_complete] line reads. *)
Definition reported (r : Result.t) : Prop :=
  Result.persona_id r <> None /\ Result.persona_name r <> None
  /\ Result.response r <> None /\ Result.sentiment r <> None.

(** The [persona_generated] line of a persona, an absent key read as the
    empty string. *)
Definition persona_line (experiment_id : string) (p : Persona.t) : event :=
  PersonaGenerated experiment_id
    (Runner.get_or (Persona.id p) "") (Runner.get_or (Persona.name p) "")
    (Runner.get_or (Persona.role p) "")
    (Runner.get_or (Persona.archetype_id p) "")
    (Runner.get_or (Persona.archetype_name p) "").

(** The [response_complete] line of a result, absent keys read as
    their defaults. *)
Definition response_line (experiment_id : string) (r : Result.t) : event :=
  ResponseComplete experiment_id
    (Runner.get_or (Result.persona_id r) "")
    (Runner.get_or (Result.persona_name r) "")
    (Runner.get_or (Result.archetype_id r) "")
    (Runner.get_or (Result.archetype_name r) "")
    (match Result.response r with Some v => v | None => None end)
    (Insights.sentiment_or_zero r)
    (match Result.tokens r with Some t => t | None => Tokens.Mk None None end)
    (match Result.error r with Some e => e | None => None end).

(** The two status lines. *)
Definition generating (experiment_id : string) : event :=
  Status "Generating personas..." experiment_id.

Definition running (experiment_id : string) (n : nat) : event :=
  Status ("Running " ++ str_of_nat n ++ " persona responses in parallel...")
         experiment_id.

Definition is_complete (e : event) : bool :=
  match e with ExperimentComplete _ _ _ => true | _ => false end.

(** No [experiment_complete] line among the events. *)
Definition unfinished (events : list event) : Prop :=
  forallb (fun e => negb (is_complete e)) events = true.

(** The first of the five keys that a persona lacks, if any. *)
Definition missing_key (p : Persona.t) : option string :=
  match Persona.id p, Persona.name p, Persona.role p,
        Persona.archetype_id p, Persona.archetype_name p with
  | None, _, _, _, _ => Some "id"
  | _, None, _, _, _ => Some "name"
  | _, _, None, _, _ => Some "role"
  | _, _, _, None, _ => Some "archetype_id"
  | _, _, _, _, None => Some "archetype_name"
  | _, _, _, _, _ => None
  end.

End StreamNotions.

(* ================================================================== *)
(** ** app.py: the response model of [run_experiment] *)

Module Experiment.

Local Open Scope string_scope.

(** Config model names and the model ids they stand for. *)
Definition model_mapping : list (string * string) :=
  [("claude-sonnet-4-5-20250929", "claude-sonnet-4-5-20250929");
   ("claude-haiku-4-5-20251001", "claude-haiku-4-5-20251001");
   ("claude-sonnet", "claude-sonnet-4-5-20250929");
   ("claude-haiku", "claude-haiku-4-5-20251001")].

(** [execution_config.get("model", "claude-sonnet-4-5-20250929")]
    followed by [model_mapping.get(resp_model, resp_model)]; [configured]
    is the value of the key [model], if present. *)
Definition resp_model (configured : option string) : string :=
  let resp_model := Runner.get_or configured "claude-sonnet-4-5-20250929" in
  Runner.get_or (Notions.find_key model_mapping resp_model) resp_model.

End Experiment.

(* ================================================================== *)
(** * Properties *)

Unset Implicit Arguments.

(** ** Rounding *)

Module RoundFacts.

Local Open Scope Q_scope.

Lemma round_half_even_bounds (x : Q) :
  (Qfloor x <= round_half_even x <= Qfloor x + 1)%Z.
Proof.
  unfold round_half_even.
  destruct (Qcompare (x - inject_Z (Qfloor x)) (1 # 2));
    try destruct (Z.even (Qfloor x)); lia.
Qed.

Lemma round_half_even_Z (z : Z) : round_half_even (inject_Z z) = z.
Proof.
  unfold round_half_even. rewrite Qfloor_Z.
  destruct (Qcompare_spec (inject_Z z - inject_Z z) (1 # 2)) as [H|H|H];
    try reflexivity; lra.
Qed.

Lemma round_half_even_mono (x y : Q) :
  x <= y -> (round_half_even x <= round_half_even y)%Z.
Proof.
  intros Hxy.
  pose proof (Qfloor_resp_le _ _ Hxy) as Hf.
  destruct (Z.eq_dec (Qfloor x) (Qfloor y)) as [E | N].
  - unfold round_half_even. rewrite <- E.
    destruct (Qcompare_spec (y - inject_Z (Qfloor x)) (1 # 2)) as [Cy|Cy|Cy];
    destruct (Qcompare_spec (x - inject_Z (Qfloor x)) (1 # 2)) as [Cx|Cx|Cx];
      try destruct (Z.even (Qfloor x)); try lia; lra.
  - pose proof (round_half_even_bounds x).
    pose proof (round_half_even_bounds y). lia.
Qed.

Lemma round_half_even_comp (x y : Q) :
  x == y -> round_half_even x = round_half_even y.
Proof.
  intros E. apply Z.le_antisymm; apply round_half_even_mono; lra.
Qed.

Lemma pow10_pos (n : nat) : (0 < pow10 n)%Z.
Proof. unfold pow10. apply Z.pow_pos_nonneg; lia. Qed.

Lemma inject_pow10_pos (n : nat) : 0 < inject_Z (pow10 n).
Proof.
  pose proof (pow10_pos n) as H.
  change 0 with (inject_Z 0). now rewrite <- Zlt_Qlt.
Qed.

Lemma round_mono (x y : Q) (n : nat) : x <= y -> round x n <= round y n.
Proof.
  intros Hxy. unfold round.
  pose proof (inject_pow10_pos n) as Hp.
  apply Qmult_le_compat_r.
  - rewrite <- Zle_Qle. apply round_half_even_mono.
    apply Qmult_le_compat_r; lra.
  - apply Qlt_le_weak. now apply Qinv_lt_0_compat.
Qed.

(** An integer is its own rounding. *)
Lemma round_Z (z : Z) (n : nat) : round (inject_Z z) n == inject_Z z.
Proof.
  unfold round.
  pose proof (inject_pow10_pos n) as Hp.
  assert (E : inject_Z z * inject_Z (pow10 n) == inject_Z (z * pow10 n)).
  { now rewrite inject_Z_mult. }
  assert (R : round_half_even (inject_Z z * inject_Z (pow10 n))
              = (z * pow10 n)%Z).
  { rewrite <- (round_half_even_Z (z * pow10 n)).
    now apply round_half_even_comp. }
  rewrite R, inject_Z_mult. field. lra.
Qed.

Lemma round_between (lo hi : Z) (x : Q) (n : nat) :
  inject_Z lo <= x <= inject_Z hi ->
  inject_Z lo <= round x n <= inject_Z hi.
Proof.
  intros [H1 H2]. split.
  - rewrite <- (round_Z lo n). now apply round_mono.
  - rewrite <- (round_Z hi n). now apply round_mono.
Qed.

Lemma fle_true (x y : Q) : fle x y = true <-> x <= y.
Proof. unfold fle. apply Qle_bool_iff. Qed.

Lemma flt_true (x y : Q) : flt x y = true <-> x < y.
Proof.
  unfold flt. rewrite negb_true_iff. split; intros H.
  - apply Qnot_le_lt. intros C. apply Qle_bool_iff in C. congruence.
  - destruct (Qle_bool y x) eqn:E; auto.
    apply Qle_bool_iff in E. lra.
Qed.

Lemma flt_false (x y : Q) : flt x y = false <-> y <= x.
Proof.
  unfold flt. rewrite negb_false_iff. apply Qle_bool_iff.
Qed.

Lemma clamp_bounds (x : Q) : -1 <= fmax (-1) (fmin 1 x) <= 1.
Proof.
  unfold fmax, fmin.
  destruct (flt x 1) eqn:A.
  - apply flt_true in A.
    destruct (flt (-1) x) eqn:B.
    + apply flt_true in B. lra.
    + lra.
  - destruct (flt (-1) 1) eqn:B.
    + lra.
    + apply flt_false in B. lra.
Qed.

(** Inside the interval the clamp changes nothing. *)
Lemma clamp_id (x : Q) : -1 <= x <= 1 -> fmax (-1) (fmin 1 x) == x.
Proof.
  intros [H1 H2]. unfold fmax, fmin.
  destruct (flt x 1) eqn:A.
  - destruct (flt (-1) x) eqn:B; [reflexivity|].
    apply flt_false in B. lra.
  - apply flt_false in A.
    destruct (flt (-1) 1) eqn:B; [lra|].
    apply flt_false in B. lra.
Qed.

End RoundFacts.

(* ================================================================== *)
(** ** Characters *)

Module CharFacts.

Ltac by_cases c :=
  destruct c as [[|] [|] [|] [|] [|] [|] [|] [|]]; vm_compute; congruence.

Lemma az_word (c : ascii) : is_az c = true -> is_word c = true.
Proof. by_cases c. Qed.

Lemma space_not_az_lower (c : ascii) :
  is_space c = true -> is_az (lower_char c) = false.
Proof. by_cases c. Qed.

Lemma space_not_word (c : ascii) : is_space c = true -> is_word c = false.
Proof. by_cases c. Qed.

Lemma lower_char_idem (c : ascii) : lower_char (lower_char c) = lower_char c.
Proof. by_cases c. Qed.

Lemma lstrip_nil (s : list ascii) :
  lstrip s = [] -> forallb is_space s = true.
Proof.
  induction s as [|c s IH]; simpl; [reflexivity|].
  destruct (is_space c); [exact IH | discriminate].
Qed.

Lemma lstrip_all_space (s : list ascii) :
  forallb is_space s = true -> lstrip s = [].
Proof.
  induction s as [|c s IH]; simpl; [reflexivity|].
  destruct (is_space c); simpl; [exact IH | discriminate].
Qed.

Lemma lstrip_suffix (s : list ascii) : exists pre,
  s = pre ++ lstrip s /\ forallb is_space pre = true.
Proof.
  induction s as [|c s [pre [E F]]]; simpl.
  - exists []. split; reflexivity.
  - destruct (is_space c) eqn:Hc.
    + exists (c :: pre). simpl. rewrite Hc, F. split; [now f_equal | reflexivity].
    + exists []. split; reflexivity.
Qed.

(** A text that strips to nothing is made of whitespace only. *)
Lemma strip_nil (s : list ascii) :
  strip s = [] -> forallb is_space s = true.
Proof.
  unfold strip. intros H.
  assert (H1 : lstrip (rev (lstrip s)) = []).
  { rewrite <- (rev_involutive (lstrip (rev (lstrip s)))), H. reflexivity. }
  apply lstrip_nil in H1.
  destruct (lstrip_suffix s) as [pre [E F]].
  rewrite E, forallb_app, F. simpl.
  rewrite forallb_forall in *.
  intros x Hx. apply H1. now apply in_rev in Hx.
Qed.

End CharFacts.

(* ================================================================== *)
(** ** The matcher *)

Module ReFacts.

Import Re.

Lemma consumed_app (bef x : list ascii) : consumed bef (x ++ bef) = rev x.
Proof.
  unfold consumed. rewrite length_app.
  replace (List.length x + List.length bef - List.length bef)%nat
    with (List.length x) by lia.
  now rewrite firstn_app, Nat.sub_diag, firstn_all, firstn_O, app_nil_r.
Qed.

Lemma findall_skip (r : regex) (run bef rest : list ascii) :
  findall_go r (List.length run) bef (run ++ rest)
  = findall_go r 0 (rev run ++ bef) rest.
Proof.
  revert bef. induction run as [|c run IH]; intros bef; [reflexivity|].
  simpl. rewrite IH, <- app_assoc. reflexivity.
Qed.

(** Whatever a successful match returns was returned by its continuation,
    on a cursor of the same text. *)
Lemma rep_greedy_reaches R (p : cls) (lo : nat) (hi : option nat)
    (aft : list ascii) :
  forall (n : nat) (bef : list ascii)
         (k : list ascii -> list ascii -> option R) (x : R),
    rep_greedy p lo hi n bef aft k = Some x ->
    exists b a, k b a = Some x /\ rev b ++ a = rev bef ++ aft.
Proof.
  induction aft as [|c aft IH]; intros n bef k x H; simpl in H.
  - destruct (lo <=? n)%nat; [|discriminate]. eauto.
  - assert (Stop : (if (lo <=? n)%nat then k bef (c :: aft) else None) = Some x ->
                   exists b a, k b a = Some x
                               /\ rev b ++ a = rev bef ++ c :: aft).
    { destruct (lo <=? n)%nat; [|discriminate]. eauto. }
    destruct (p c && match hi with Some h => (n <? h)%nat | None => true end).
    + destruct (rep_greedy p lo hi (S n) (c :: bef) aft k) eqn:E.
      * inversion H; subst. apply IH in E. destruct E as [b [a [K T]]].
        exists b, a. split; [exact K|]. rewrite T. simpl.
        now rewrite <- app_assoc.
      * auto.
    + auto.
Qed.

Lemma m_reaches R (r : regex) :
  forall (bef aft : list ascii) (g : option (list ascii))
         (k : list ascii -> list ascii -> option (list ascii) -> option R)
         (x : R),
    m r bef aft g k = Some x ->
    exists b a g',
      k b a g' = Some x
      /\ rev b ++ a = rev bef ++ aft
      /\ (g <> None -> g' <> None)
      /\ (sets_group r = true -> g' <> None).
Proof.
  induction r as [|p|r1 IH1 r2 IH2|p lo hi|r1 IH1|r1 IH1|ps|];
    intros bef aft g k x H; simpl in H.
  - exists bef, aft, g. repeat split; auto. discriminate.
  - destruct aft as [|c aft]; [discriminate|].
    destruct (p c); [|discriminate].
    exists (c :: bef), aft, g. simpl. rewrite <- app_assoc.
    repeat split; auto. discriminate.
  - apply IH1 in H. destruct H as [b1 [a1 [g1 [H [T1 [N1 S1]]]]]].
    apply IH2 in H. destruct H as [b2 [a2 [g2 [H [T2 [N2 S2]]]]]].
    exists b2, a2, g2. repeat split; auto.
    + congruence.
    + simpl. intros Hs. apply orb_true_iff in Hs. destruct Hs; auto.
  - apply rep_greedy_reaches in H. destruct H as [b [a [H T]]].
    exists b, a, g. repeat split; auto. discriminate.
  - destruct (m r1 bef aft g k) eqn:E.
    + inversion H; subst. apply IH1 in E.
      destruct E as [b [a [g' [E [T [N _]]]]]].
      exists b, a, g'. repeat split; auto. discriminate.
    + exists bef, aft, g. repeat split; auto. discriminate.
  - apply IH1 in H. destruct H as [b [a [g' [H [T _]]]]].
    exists b, a, (Some (consumed bef b)). repeat split; auto; discriminate.
  - destruct (behind (rev ps) bef); [discriminate|].
    exists bef, aft, g. repeat split; auto. discriminate.
  - destruct (boundary bef aft); [|discriminate].
    exists bef, aft, g. repeat split; auto. discriminate.
Qed.

(** A match object of a pattern with a mandatory group has its group 1. *)
Lemma match_here_group1 (r : regex) (bef aft : list ascii) (mo : match_obj) :
  sets_group r = true ->
  match_here r bef aft = Some mo -> m_group1 mo <> None.
Proof.
  intros S H. unfold match_here in H. apply m_reaches in H.
  destruct H as [b [a [g' [H [_ [_ G]]]]]].
  inversion H; subst. simpl. auto.
Qed.

(** [search] returns a match of the pattern at some cursor of the text. *)
Lemma search_from_sound (r : regex) (aft : list ascii) :
  forall (bef : list ascii) (mo : match_obj),
    search_from r bef aft = Some mo ->
    exists bef' aft',
      match_here r bef' aft' = Some mo
      /\ rev bef' ++ aft' = rev bef ++ aft.
Proof.
  induction aft as [|c aft IH]; intros bef mo H; simpl in H.
  - destruct (match_here r bef []) eqn:E; [|discriminate].
    inversion H; subst. eauto.
  - destruct (match_here r bef (c :: aft)) eqn:E.
    + inversion H; subst. eauto.
    + apply IH in H. destruct H as [b [a [H T]]].
      exists b, a. split; [exact H|]. rewrite T. simpl.
      now rewrite <- app_assoc.
Qed.

Lemma match_here_start (r : regex) (bef aft : list ascii) (mo : match_obj) :
  match_here r bef aft = Some mo -> m_start mo = List.length bef.
Proof.
  unfold match_here. intros H. apply m_reaches in H.
  destruct H as [b [a [g' [H _]]]]. inversion H; subst. reflexivity.
Qed.

Lemma search_group1 (r : regex) (text : list ascii) (mo : match_obj) :
  sets_group r = true -> search r text = Some mo -> m_group1 mo <> None.
Proof.
  intros S H. apply search_from_sound in H. destruct H as [b [a [H _]]].
  eapply match_here_group1; eauto.
Qed.

End ReFacts.

(* ================================================================== *)
(** ** sentiment.py: tokens and score *)

Module SentimentFacts.

Import Re Sentiment Vocabulary CharFacts ReFacts.

Lemma span_az (s : list ascii) : exists run rest,
  s = run ++ rest /\ forallb is_az run = true /\ az_at rest = false.
Proof.
  induction s as [|c s [run [rest [E [F A]]]]].
  - exists [], []. auto.
  - destruct (is_az c) eqn:Hc.
    + exists (c :: run), rest. simpl. rewrite Hc, F, E. auto.
    + exists [], (c :: s). simpl. auto.
Qed.

Lemma drop_word_length (s : list ascii) :
  (List.length (drop_word s) <= List.length s)%nat.
Proof.
  induction s as [|c s IH]; simpl; [lia|].
  destruct (is_word c); simpl; lia.
Qed.

Lemma drop_word_app (w rest : list ascii) :
  forallb is_word w = true -> drop_word (w ++ rest) = drop_word rest.
Proof.
  induction w as [|c w IH]; simpl; [reflexivity|].
  intros H. apply andb_true_iff in H. destruct H as [Hc Hw].
  rewrite Hc. auto.
Qed.

Lemma drop_word_id (s : list ascii) : word_at s = false -> drop_word s = s.
Proof. destruct s as [|c s]; simpl; [reflexivity|]. now intros ->. Qed.

Lemma az_run_word (run : list ascii) :
  forallb is_az run = true -> forallb is_word run = true.
Proof.
  rewrite !forallb_forall. intros H x Hx. apply az_word. auto.
Qed.

Lemma runs_acc_app (p : ascii -> bool) (w : list ascii) :
  forall acc rest, forallb p w = true ->
    runs_acc p acc (w ++ rest) = runs_acc p (acc ++ w) rest.
Proof.
  induction w as [|c w IH]; intros acc rest H; simpl.
  - now rewrite app_nil_r.
  - simpl in H. apply andb_true_iff in H. destruct H as [Hc Hw].
    rewrite Hc, IH by assumption. now rewrite <- app_assoc.
Qed.

(** A run that already holds a character outside a-z yields no token. *)
Lemma tokens_spoiled (s : list ascii) : forall acc,
  forallb is_az acc = false ->
  filter (forallb is_az) (runs_acc is_word acc s) = tokens (drop_word s).
Proof.
  induction s as [|c s IH]; intros acc H; simpl.
  - destruct acc; simpl; [discriminate|]. simpl in H. now rewrite H.
  - destruct (is_word c) eqn:Hc.
    + apply IH. rewrite forallb_app, H. reflexivity.
    + unfold tokens, runs. simpl. rewrite Hc. simpl.
      rewrite filter_app.
      destruct acc; simpl; [discriminate|]. simpl in H. now rewrite H.
Qed.

Lemma tokens_nonword (c : ascii) (s : list ascii) :
  is_word c = false -> tokens (c :: s) = tokens s.
Proof. intros H. unfold tokens, runs. simpl. now rewrite H. Qed.

Lemma tokens_run (run rest : list ascii) :
  run <> [] -> forallb is_az run = true -> word_at rest = false ->
  tokens (run ++ rest) = run :: tokens rest.
Proof.
  intros N F W. unfold tokens, runs.
  rewrite runs_acc_app by now apply az_run_word. simpl.
  destruct rest as [|d rest]; simpl.
  - destruct run; [congruence|]. simpl in *. now rewrite F.
  - simpl in W. rewrite W. rewrite filter_app.
    destruct run; [congruence|]. simpl in *. now rewrite F.
Qed.

(** *** What [\b[a-z]+\b] matches at a cursor *)

Lemma rep_az_run (R : Type) (k : list ascii -> list ascii -> option R)
    (run rest : list ascii) :
  forallb is_az run = true -> az_at rest = false ->
  forall (n : nat) (c : ascii) (bef : list ascii),
    is_az c = true ->
    rep_greedy is_az 1 None (S n) (c :: bef) (run ++ rest)
      (fun b a => if boundary b a then k b a else None)
    = if word_at rest then None else k (rev run ++ c :: bef) rest.
Proof.
  intros F A. induction run as [|c' run IH]; intros n c bef Hc.
  - destruct rest as [|d rest]; simpl; unfold boundary; simpl;
      rewrite (az_word _ Hc).
    + reflexivity.
    + simpl in A. rewrite A. simpl. destruct (is_word d); reflexivity.
  - simpl in F. apply andb_true_iff in F. destruct F as [Hc' F].
    simpl. rewrite Hc'. simpl.
    rewrite (IH F (S n) c' (c :: bef) Hc').
    rewrite <- app_assoc. simpl.
    destruct (if word_at rest then None else k (rev run ++ c' :: c :: bef) rest);
      [reflexivity|].
    unfold boundary. simpl.
    now rewrite (az_word _ Hc), (az_word _ Hc').
Qed.

Lemma match_word_none (bef aft : list ascii) :
  az_at aft = false -> match_here word_re bef aft = None.
Proof.
  intros A. unfold match_here, word_re, plus. simpl.
  destruct (boundary bef aft); [|reflexivity].
  destruct aft as [|c aft]; simpl; [reflexivity|].
  simpl in A. now rewrite A.
Qed.

Lemma match_word_inside (bef : list ascii) (c : ascii) (aft : list ascii) :
  word_at bef = true -> is_word c = true ->
  match_here word_re bef (c :: aft) = None.
Proof.
  intros B W. unfold match_here, word_re, plus. simpl.
  unfold boundary. simpl. now rewrite B, W.
Qed.

Lemma match_word_run (bef : list ascii) (c : ascii) (run rest : list ascii) :
  word_at bef = false -> is_az c = true ->
  forallb is_az run = true -> az_at rest = false ->
  match_here word_re bef (c :: run ++ rest)
  = if word_at rest then None
    else Some (MkMatch (List.length bef) (c :: run) None
                       (rev run ++ c :: bef) rest).
Proof.
  intros B Hc F A. unfold match_here, word_re, plus. simpl.
  unfold boundary at 1. simpl. rewrite B, (az_word _ Hc), Hc. simpl.
  rewrite (rep_az_run _
             (fun b a => Some (MkMatch (List.length bef) (consumed bef b) None b a))
             run rest F A 0%nat c bef Hc).
  destruct (word_at rest); [reflexivity|].
  replace (rev run ++ c :: bef) with ((rev run ++ [c]) ++ bef)
    by now rewrite <- app_assoc.
  rewrite consumed_app, rev_app_distr, rev_involutive. reflexivity.
Qed.

(** *** [findall] returns the letter-only word runs *)

Lemma findall_tokens_aux (n : nat) : forall aft : list ascii,
  (List.length aft < n)%nat ->
  (forall bef, word_at bef = false ->
     findall_go word_re 0 bef aft = tokens aft)
  /\ (forall bef, word_at bef = true ->
        findall_go word_re 0 bef aft = tokens (drop_word aft)).
Proof.
  induction n as [|n IH]; intros aft L; [lia|].
  destruct aft as [|c aft].
  { split; intros bef B; simpl; now rewrite match_word_none. }
  simpl in L.
  assert (IHaft := IH aft ltac:(lia)). destruct IHaft as [IH1 IH2].
  split; intros bef B.
  - (* at the start of a word run *)
    destruct (is_az c) eqn:Hc.
    + destruct (span_az aft) as [run [rest [E [F A]]]]. subst aft.
      simpl. rewrite (match_word_run bef c run rest B Hc F A).
      destruct (word_at rest) eqn:W.
      * (* the run goes on with a character outside a-z *)
        rewrite (IH2 (c :: bef)) by (simpl; now apply az_word).
        destruct rest as [|d rest]; [discriminate|]. simpl in W, A.
        rewrite drop_word_app by now apply az_run_word.
        simpl. rewrite W.
        unfold tokens at 2, runs.
        change (c :: run ++ d :: rest) with ((c :: run) ++ d :: rest).
        replace ((c :: run) ++ d :: rest) with ((c :: run ++ [d]) ++ rest)
          by (simpl; now rewrite <- app_assoc).
        rewrite runs_acc_app.
        -- apply eq_sym, tokens_spoiled. simpl.
           rewrite Hc, forallb_app, F. simpl. now rewrite A.
        -- simpl. rewrite (az_word _ Hc), forallb_app, (az_run_word _ F).
           simpl. now rewrite W.
      * simpl. rewrite findall_skip.
        assert (L' : (List.length rest < n)%nat).
        { rewrite length_app in L. lia. }
        destruct (IH rest L') as [_ IHr].
        rewrite IHr.
        -- rewrite (drop_word_id _ W).
           change (c :: run ++ rest) with ((c :: run) ++ rest).
           rewrite tokens_run; auto; try discriminate.
           simpl. now rewrite Hc.
        -- destruct (rev run) as [|x xs] eqn:Er; simpl.
           ++ now apply az_word.
           ++ apply az_word.
              assert (Hin : In x (rev run)) by (rewrite Er; now left).
              apply in_rev in Hin.
              rewrite forallb_forall in F. auto.
    + simpl. rewrite match_word_none by (simpl; exact Hc).
      destruct (is_word c) eqn:W.
      * rewrite (IH2 (c :: bef)) by (simpl; exact W).
        unfold tokens at 2, runs. simpl. rewrite W.
        apply eq_sym, tokens_spoiled. simpl. now rewrite Hc.
      * rewrite (IH1 (c :: bef)) by (simpl; exact W).
        now rewrite tokens_nonword.
  - (* inside a word run *)
    simpl. destruct (is_word c) eqn:W.
    + rewrite match_word_inside by assumption.
      apply IH2. simpl. exact W.
    + rewrite match_word_none.
      * rewrite (IH1 (c :: bef)) by (simpl; exact W).
        now rewrite tokens_nonword.
      * simpl. destruct (is_az c) eqn:Hc; [|reflexivity].
        apply az_word in Hc. congruence.
Qed.

Lemma findall_tokens (s : list ascii) : findall word_re s = tokens s.
Proof.
  unfold findall.
  destruct (findall_tokens_aux (S (List.length s)) s ltac:(lia)) as [H _].
  now apply H.
Qed.

Lemma words_letter_words (text : string) : words text = letter_words text.
Proof.
  unfold words, letter_words. now rewrite findall_tokens.
Qed.

(** *** The score *)

Lemma runs_no_word (s : list ascii) :
  forallb (fun c => negb (is_word c)) s = true -> runs_acc is_word [] s = [].
Proof.
  induction s as [|c s IH]; simpl; [reflexivity|].
  intros H. apply andb_true_iff in H. destruct H as [Hc Hs].
  apply negb_true_iff in Hc. rewrite Hc. simpl. auto.
Qed.

Lemma space_not_word_lower (c : ascii) :
  is_space c = true -> is_word (lower_char c) = false.
Proof. by_cases c. Qed.

(** A text the guard of [analyze_sentiment] rejects has no words. *)
Lemma words_blank (text : string) :
  str_falsy (list_ascii_of_string text)
  || str_falsy (strip (list_ascii_of_string text)) = true ->
  words text = [].
Proof.
  intros H. rewrite words_letter_words. unfold letter_words, tokens, runs.
  assert (B : forallb is_space (list_ascii_of_string text) = true).
  { apply orb_true_iff in H. destruct H as [H | H].
    - destruct (list_ascii_of_string text); [reflexivity | discriminate].
    - apply strip_nil.
      destruct (strip (list_ascii_of_string text)); [reflexivity | discriminate]. }
  rewrite runs_no_word; [reflexivity|].
  unfold lower. rewrite forallb_forall in *.
  intros x Hx. apply in_map_iff in Hx. destruct Hx as [c [E Hc]]. subst x.
  apply negb_true_iff, space_not_word_lower. auto.
Qed.

(** The code computes the specified ratio of the two totals. *)
Lemma analyze_sentiment_eq (text : string) :
  analyze_sentiment text
  = clamped_ratio (positive_score text) (negative_score text).
Proof.
  unfold analyze_sentiment, positive_score, negative_score.
  destruct (str_falsy (list_ascii_of_string text)
            || str_falsy (strip (list_ascii_of_string text))) eqn:G.
  - rewrite (words_blank _ G). reflexivity.
  - destruct (scores (words text)) as [p n]. reflexivity.
Qed.

Lemma scores_totals (ws : list string) : forall p n : Z,
  fold_left score_step ws (p, n)
  = ((p + total_weight _POSITIVE_SIGNALS ws)%Z,
     (n + total_weight _NEGATIVE_SIGNALS ws)%Z).
Proof.
  induction ws as [|w ws IH]; intros p n.
  - unfold total_weight. simpl. f_equal; lia.
  - cbn [fold_left]. unfold score_step at 2.
    unfold total_weight in *. cbn [map fold_right]. unfold weight at 1 3.
    destruct (dict_get _POSITIVE_SIGNALS w);
      destruct (dict_get _NEGATIVE_SIGNALS w);
      rewrite IH; f_equal; lia.
Qed.

Lemma total_weight_perm (d : list (string * Z)) (ws1 ws2 : list string) :
  Permutation ws1 ws2 -> total_weight d ws1 = total_weight d ws2.
Proof.
  unfold total_weight.
  induction 1; simpl; try lia.
Qed.

Lemma dict_get_nonneg (d : list (string * Z)) (w : string) :
  Forall (fun kv => (0 <= snd kv)%Z) d -> (0 <= weight d w)%Z.
Proof.
  unfold weight. induction 1 as [|[k v] d Hv _ IH]; simpl; [lia|].
  destruct (String.eqb k w); [exact Hv | exact IH].
Qed.

Lemma total_weight_nonneg (d : list (string * Z)) (ws : list string) :
  Forall (fun kv => (0 <= snd kv)%Z) d -> (0 <= total_weight d ws)%Z.
Proof.
  intros H. unfold total_weight.
  induction ws as [|w ws IH]; simpl; [lia|].
  pose proof (dict_get_nonneg d w H). lia.
Qed.

Lemma positive_weights : Forall (fun kv => (0 <= snd kv)%Z) _POSITIVE_SIGNALS.
Proof. unfold _POSITIVE_SIGNALS. repeat constructor; simpl; lia. Qed.

Lemma negative_weights : Forall (fun kv => (0 <= snd kv)%Z) _NEGATIVE_SIGNALS.
Proof. unfold _NEGATIVE_SIGNALS. repeat constructor; simpl; lia. Qed.

Lemma scores_nonneg (text : string) :
  (0 <= positive_score text)%Z /\ (0 <= negative_score text)%Z.
Proof.
  unfold positive_score, negative_score, scores.
  rewrite scores_totals. simpl.
  pose proof (total_weight_nonneg _ (words text) positive_weights).
  pose proof (total_weight_nonneg _ (words text) negative_weights).
  lia.
Qed.

(** The ratio of the totals lies in [-1, 1] already. *)
Lemma ratio_bounded (p n : Z) :
  (0 <= p)%Z -> (0 <= n)%Z -> (p + n <> 0)%Z ->
  (-1 <= inject_Z (p - n) / inject_Z (p + n) <= 1)%Q.
Proof.
  intros Hp Hn Ht.
  assert (T : (0 < inject_Z (p + n))%Q).
  { change 0%Q with (inject_Z 0). rewrite <- Zlt_Qlt. lia. }
  split.
  - apply Qle_shift_div_l; [exact T|].
    setoid_replace (-1 * inject_Z (p + n))%Q with (inject_Z (- (p + n))).
    + rewrite <- Zle_Qle. lia.
    + rewrite inject_Z_opp. ring.
  - apply Qle_shift_div_r; [exact T|].
    rewrite Qmult_1_l, <- Zle_Qle. lia.
Qed.

End SentimentFacts.

(* ------------------------------------------------------------------ *)

Module SentimentClaims.

Import Re Sentiment Vocabulary SentimentFacts RoundFacts.
Local Open Scope string_scope.

(** C2.  For every text, [analyze_sentiment] returns exactly 0 when the
    matched positive and negative weights sum to zero, and otherwise
    [round((pos - neg) / (pos + neg), 2)] clamped to [-1, 1]; the result
    always lies in [-1, 1].  (The clamp is defensive: the rounded ratio is
    in [-1, 1] already, so the clamp returns it unchanged.) *)
Theorem analyze_sentiment_clamped_ratio : forall text : string,
  let pos := positive_score text in
  let neg := negative_score text in
  ((pos + neg = 0)%Z -> analyze_sentiment text = 0%Q)
  /\ ((pos + neg <> 0)%Z ->
      analyze_sentiment text
      = fmax (-1)%Q
          (fmin 1%Q (round (inject_Z (pos - neg) / inject_Z (pos + neg))%Q 2))
      /\ (analyze_sentiment text
          == round (inject_Z (pos - neg) / inject_Z (pos + neg)) 2)%Q)
  /\ (-1 <= analyze_sentiment text <= 1)%Q.
Proof.
  intros text pos neg. subst pos neg.
  rewrite analyze_sentiment_eq. unfold clamped_ratio.
  repeat split.
  - intros H. apply Z.eqb_eq in H. now rewrite H.
  - apply Z.eqb_neq in H. now rewrite H.
  - pose proof H as H'. apply Z.eqb_neq in H'. rewrite H'.
    apply clamp_id.
    destruct (scores_nonneg text) as [Hp Hn].
    apply (round_between (-1)%Z 1%Z). now apply ratio_bounded.
  - destruct (Z.eqb _ _); [lra | apply clamp_bounds].
  - destruct (Z.eqb _ _); [lra | apply clamp_bounds].
Qed.

(** C2 at two concrete texts: one without signal words, one with "love"
    (+2), "overpriced" (-2) and "risk" (-1). *)
Lemma analyze_sentiment_clamped_ratio_witness :
  analyze_sentiment "no signal here" = 0%Q
  /\ (analyze_sentiment "I love it, but it is overpriced and a risk."
      == - (1 # 5))%Q.
Proof.
  split.
  - apply (proj1 (analyze_sentiment_clamped_ratio "no signal here")).
    vm_compute. reflexivity.
  - destruct (analyze_sentiment_clamped_ratio
                "I love it, but it is overpriced and a risk.")
      as [_ [H _]].
    destruct H as [_ H]; [vm_compute; discriminate|].
    rewrite H. vm_compute. reflexivity.
Defined.

(** C3, as stated, fails: "great1" and "great" have the same maximal
    alphabetic runs, but the digit is a word character, so "great1" holds
    no word-bounded token and the scores differ; an underscore does the
    same. *)
Lemma alphabetic_runs_counterexample :
  alpha_runs "great1" = alpha_runs "great"
  /\ alpha_runs "great1" = ["great"]
  /\ words "great1" = []
  /\ analyze_sentiment "great" = 1%Q
  /\ analyze_sentiment "great1" = 0%Q
  /\ analyze_sentiment "great_" = 0%Q.
Proof. vm_compute. repeat split; reflexivity. Qed.

(** C3, amended.  [analyze_sentiment] lowercases the text and takes as
    tokens the maximal runs of word characters (letters, digits,
    underscore) that consist of the letters a-z only: every non-word
    character is a separator, while a digit or underscore next to a letter
    run makes the run no token.  The score depends only on the multiset of
    these tokens, so it is insensitive to case and to punctuation:
    analyze_sentiment("GREAT!") == analyze_sentiment("great"). *)
Theorem analyze_sentiment_letter_words :
  (forall text : string, words text = letter_words text)
  /\ (forall t1 t2 : string,
        Permutation (letter_words t1) (letter_words t2) ->
        analyze_sentiment t1 = analyze_sentiment t2)
  /\ analyze_sentiment "GREAT!" = analyze_sentiment "great".
Proof.
  split; [exact words_letter_words|]. split.
  - intros t1 t2 P. rewrite !analyze_sentiment_eq.
    unfold positive_score, negative_score, scores.
    rewrite !scores_totals, !words_letter_words. simpl.
    now rewrite (total_weight_perm _ _ _ P), (total_weight_perm _ _ _ P).
  - vm_compute. reflexivity.
Qed.

Lemma analyze_sentiment_letter_words_witness :
  analyze_sentiment "Good... AWFUL" = analyze_sentiment "awful/good".
Proof.
  apply (proj1 (proj2 analyze_sentiment_letter_words)).
  vm_compute. apply perm_swap.
Defined.

End SentimentClaims.

(* ================================================================== *)
(** ** van_westendorp.py: the parser *)

Module ParserFacts.

Import Re VanWestendorp Vocabulary ReFacts.

Lemma code_inj (x y : ascii) : code x = code y -> x = y.
Proof.
  unfold code. intros H.
  rewrite <- (ascii_N_embedding x), <- (ascii_N_embedding y). now f_equal.
Qed.

Lemma ci_lower (c x : ascii) : ci c x = true -> lower_char x = lower_char c.
Proof. unfold ci. intros H. apply N.eqb_eq in H. now apply code_inj. Qed.

(** A case-insensitive literal consumes a prefix equal to it up to case. *)
Lemma str_ci_prefix R (w : string) :
  forall (bef aft : list ascii) (g : option (list ascii))
         (k : list ascii -> list ascii -> option (list ascii) -> option R)
         (x : R),
    m (str_ci w) bef aft g k = Some x ->
    exists pre rest,
      aft = pre ++ rest
      /\ lower pre = lower (list_ascii_of_string w)
      /\ k (rev pre ++ bef) rest g = Some x.
Proof.
  induction w as [|c w IH]; intros bef aft g k x H; simpl in H.
  - exists [], aft. auto.
  - destruct aft as [|a aft]; [discriminate|].
    destruct (ci c a) eqn:C; [|discriminate].
    apply IH in H. destruct H as [pre [rest [E [L K]]]].
    exists (a :: pre), rest. simpl. rewrite <- app_assoc. simpl.
    rewrite E, L, (ci_lower _ _ C). auto.
Qed.

Lemma float_of_str_exn (s : list ascii) (e : pyexn) :
  float_of_str s = Raise e -> e = ValueError.
Proof.
  unfold float_of_str. destruct (split_point s) as [ip fp].
  destruct ip; destruct fp as [[|]|];
    repeat match goal with
           | |- context [match ?d with Some _ => _ | None => _ end] => destruct d
           end; congruence.
Qed.

Lemma sets_group_patterns :
  sets_group re_too_expensive = true /\ sets_group re_expensive = true
  /\ sets_group re_bargain = true /\ sets_group re_too_cheap = true.
Proof. repeat split; reflexivity. Qed.

(** One step of the pattern loop never raises. *)
Lemma price_for_total (pattern : regex) (text : list ascii) :
  sets_group pattern = true -> exists v, price_for pattern text = Ok v.
Proof.
  intros S. unfold price_for.
  destruct (search pattern text) as [mo|] eqn:E; [|eauto].
  pose proof (search_group1 _ _ _ S E) as G.
  destruct (m_group1 mo) as [g|]; [|congruence].
  destruct (float_of_str (remove_commas g)) as [v|e] eqn:F; [eauto|].
  apply float_of_str_exn in F. subst e. eauto.
Qed.

Ltac total_step pat t :=
  let v := fresh "v" in
  let E := fresh "E" in
  destruct (price_for_total pat t eq_refl) as [v E]; rewrite E; simpl;
  destruct v; [|eauto].

(** [_parse_price_points] never raises. *)
Lemma parse_total (text : option string) :
  exists v, _parse_price_points text = Ok v.
Proof.
  unfold _parse_price_points. destruct text as [s|]; [|eauto].
  destruct (str_falsy (list_ascii_of_string s)); [eauto|].
  total_step re_too_expensive (list_ascii_of_string s).
  total_step re_expensive (list_ascii_of_string s).
  total_step re_bargain (list_ascii_of_string s).
  total_step re_too_cheap (list_ascii_of_string s).
  eauto.
Qed.

(** The parser returns a quadruple exactly when each of the four patterns
    yields a value. *)
Lemma parse_some_iff (text : option string) (q : Prices.t) :
  _parse_price_points text = Ok (Some q) <->
  exists s, text = Some s
    /\ price_for re_too_expensive (list_ascii_of_string s)
       = Ok (Some (Prices.too_expensive q))
    /\ price_for re_expensive (list_ascii_of_string s)
       = Ok (Some (Prices.expensive q))
    /\ price_for re_bargain (list_ascii_of_string s)
       = Ok (Some (Prices.bargain q))
    /\ price_for re_too_cheap (list_ascii_of_string s)
       = Ok (Some (Prices.too_cheap q)).
Proof.
  split.
  - unfold _parse_price_points. destruct text as [s|]; [|discriminate].
    destruct (str_falsy (list_ascii_of_string s)); [discriminate|].
    destruct (price_for re_too_expensive _) as [[a|]|] eqn:A; simpl;
      try discriminate.
    destruct (price_for re_expensive _) as [[b|]|] eqn:B; simpl;
      try discriminate.
    destruct (price_for re_bargain _) as [[c|]|] eqn:C; simpl;
      try discriminate.
    destruct (price_for re_too_cheap _) as [[d|]|] eqn:D; simpl;
      try discriminate.
    intros H. inversion H; subst. simpl. exists s. auto.
  - intros [s [E [A [B [C D]]]]]. subst text. unfold _parse_price_points.
    destruct (list_ascii_of_string s) as [|c0 t] eqn:T.
    + vm_compute in A. discriminate.
    + simpl. rewrite A. simpl. rewrite B. simpl. rewrite C. simpl.
      rewrite D. simpl. destruct q. reflexivity.
Qed.

(** A pattern without a value leaves the parser without data. *)
Lemma parse_none_of (s : string) :
  price_for re_too_expensive (list_ascii_of_string s) = Ok None
  \/ price_for re_expensive (list_ascii_of_string s) = Ok None
  \/ price_for re_bargain (list_ascii_of_string s) = Ok None
  \/ price_for re_too_cheap (list_ascii_of_string s) = Ok None ->
  _parse_price_points (Some s) = Ok None.
Proof.
  intros H.
  destruct (parse_total (Some s)) as [[q|] E]; [|exact E].
  apply parse_some_iff in E. destruct E as [s' [Es [A [B [C D]]]]].
  inversion Es; subst s'.
  destruct H as [H|[H|[H|H]]]; congruence.
Qed.

(** A value comes from a match whose group 1, commas removed, is a float
    literal. *)
Lemma price_for_some (pattern : regex) (text : list ascii) (v : float) :
  price_for pattern text = Ok (Some v) ->
  exists mo g,
    search pattern text = Some mo /\ m_group1 mo = Some g
    /\ float_of_str (remove_commas g) = Ok v.
Proof.
  unfold price_for. destruct (search pattern text) as [mo|]; [|discriminate].
  destruct (m_group1 mo) as [g|] eqn:G; [|discriminate].
  destruct (float_of_str (remove_commas g)) as [x|[]] eqn:F;
    try discriminate.
  intros H. inversion H; subst. eauto.
Qed.

Lemma search_cursor (r : regex) (text : list ascii) (mo : match_obj) :
  search r text = Some mo ->
  exists bef aft,
    match_here r bef aft = Some mo /\ text = rev bef ++ aft
    /\ m_start mo = List.length bef.
Proof.
  intros H. apply search_from_sound in H. destruct H as [b [a [H T]]].
  exists b, a. repeat split; auto. eapply match_here_start; eauto.
Qed.

Lemma search_word (w : string) (r : regex) (text : list ascii)
    (mo : match_obj) :
  search (Seq (str_ci w) r) text = Some mo -> holds_word w text.
Proof.
  intros H. apply search_cursor in H. destruct H as [b [a [H [T _]]]].
  unfold match_here in H. simpl in H.
  apply str_ci_prefix in H. destruct H as [pre [rest [E [L _]]]].
  exists (rev b), pre, rest. subst. auto.
Qed.

Lemma search_too (w : string) (r : regex) (text : list ascii)
    (mo : match_obj) :
  search (Seq (str_ci "TOO") (Seq (Chr sep) (Seq (str_ci w) r))) text = Some mo ->
  holds_too w text.
Proof.
  intros H. apply search_cursor in H. destruct H as [b [a [H [T _]]]].
  unfold match_here in H. cbn [m] in H.
  apply str_ci_prefix in H. destruct H as [x [rest [E [L H]]]].
  cbn [m] in H. destruct rest as [|c rest]; [discriminate|].
  destruct (sep c) eqn:Sc; [|discriminate].
  apply str_ci_prefix in H. destruct H as [y [post [E' [L' _]]]].
  exists (rev b), x, c, y, post. subst. auto.
Qed.

Lemma search_expensive_word (text : list ascii) (mo : match_obj) :
  search re_expensive text = Some mo -> holds_word "EXPENSIVE" text.
Proof.
  intros H. apply search_cursor in H. destruct H as [b [a [H [T _]]]].
  unfold match_here, re_expensive in H. cbn [m] in H.
  destruct (behind _ b); [discriminate|].
  apply str_ci_prefix in H. destruct H as [pre [rest [E [L _]]]].
  exists (rev b), pre, rest. subst. auto.
Qed.

(** *** The lookbehind *)

Lemma match_expensive_behind (bef aft : list ascii) (mo : match_obj) :
  match_here re_expensive bef aft = Some mo ->
  behind [sep; ci "O"; ci "O"; ci "T"] bef = false.
Proof.
  unfold match_here, re_expensive. cbn [m]. 
  change (rev (cls_ci "TOO" ++ [sep])) with [sep; ci "O"; ci "O"; ci "T"].
  destruct (behind _ bef); [discriminate | reflexivity].
Qed.

Lemma match_too_expensive_ahead (bef aft : list ascii) (mo : match_obj) :
  match_here re_too_expensive bef aft = Some mo ->
  exists a b c d rest,
    aft = a :: b :: c :: d :: rest
    /\ behind [sep; ci "O"; ci "O"; ci "T"] (d :: c :: b :: a :: bef) = true.
Proof.
  unfold match_here, re_too_expensive. simpl.
  destruct aft as [|a [|b [|c [|d rest]]]]; try discriminate;
    try (destruct (ci "T" a); [|discriminate];
         try (destruct (ci "O" b); [|discriminate];
              try (destruct (ci "O" c); discriminate));
         discriminate).
  destruct (ci "T" a) eqn:A; [|discriminate].
  destruct (ci "O" b) eqn:B; [|discriminate].
  destruct (ci "O" c) eqn:C; [|discriminate].
  destruct (sep d) eqn:D; [|discriminate].
  intros _. exists a, b, c, d, rest. split; [reflexivity|].
  simpl. now rewrite A, B, C, D.
Qed.

End ParserFacts.

(* ================================================================== *)
(** ** van_westendorp.py: the intersection engine *)

Module IntersectionFacts.

Import VanWestendorp Vocabulary RoundFacts.
Local Open Scope Q_scope.

Lemma mapM_ok {A B} (f : A -> exc B) (g : A -> B) (l : list A) :
  (forall x, In x l -> f x = Ok (g x)) -> mapM f l = Ok (map g l).
Proof.
  induction l as [|x l IH]; intros H; simpl; [reflexivity|].
  rewrite (H x (or_introl eq_refl)). simpl.
  rewrite IH by (intros y Hy; apply H; now right). reflexivity.
Qed.

Lemma foldM_app {A S} (f : S -> A -> exc S) (l1 l2 : list A) (s : S) :
  foldM f (l1 ++ l2) s = bind (foldM f l1 s) (foldM f l2).
Proof.
  revert s. induction l1 as [|x l1 IH]; intros s; simpl; [reflexivity|].
  destruct (f s x); simpl; auto.
Qed.

(** *** The price axis *)

Lemma insert_sorted_length (x : float) (l : list float) :
  List.length (insert_sorted x l) = S (List.length l).
Proof.
  induction l as [|y l IH]; simpl; [reflexivity|].
  destruct (fle x y); simpl; lia.
Qed.

Lemma sorted_length (l : list float) :
  List.length (sorted l) = List.length l.
Proof.
  induction l as [|x l IH]; simpl; [reflexivity|].
  now rewrite insert_sorted_length, IH.
Qed.

Lemma insert_sorted_hd (x a : float) (l : list float) :
  a <= x -> HdRel Qle a l -> HdRel Qle a (insert_sorted x l).
Proof.
  intros Hax H. destruct l as [|y l]; simpl.
  - now constructor.
  - destruct (fle x y); constructor; auto. now inversion H.
Qed.

Lemma insert_sorted_sorted (x : float) (l : list float) :
  Sorted Qle l -> Sorted Qle (insert_sorted x l).
Proof.
  induction 1 as [|y l S IH H]; simpl.
  - repeat constructor.
  - destruct (fle x y) eqn:E.
    + apply fle_true in E. repeat constructor; auto.
    + assert (Hyx : y <= x).
      { destruct (Qlt_le_dec y x) as [L|L]; [lra|].
        apply fle_true in L. congruence. }
      constructor; [exact IH|]. now apply insert_sorted_hd.
Qed.

Lemma sorted_sorted (l : list float) : StronglySorted Qle (sorted l).
Proof.
  apply Sorted_StronglySorted.
  - intros a b c. apply Qle_trans.
  - induction l as [|x l IH]; simpl; [constructor|].
    now apply insert_sorted_sorted.
Qed.

Lemma set_add_nonempty (s : list float) (x : float) : set_add s x <> [].
Proof.
  unfold set_add. destruct s as [|y s]; simpl; [discriminate|].
  destruct (feq x y || existsb (feq x) s); discriminate.
Qed.

Lemma fold_set_add_nonempty (l s : list float) :
  s <> [] -> fold_left set_add l s <> [].
Proof.
  revert s. induction l as [|x l IH]; intros s H; simpl; [exact H|].
  apply IH, set_add_nonempty.
Qed.

Lemma all_values_nonempty (price_data : list Prices.t) :
  price_data <> [] -> all_values price_data <> [].
Proof.
  unfold all_values.
  assert (G : forall l s, s <> [] ->
    fold_left (fun s p => fold_left set_add (Prices.values p) s) l s <> []).
  { induction l as [|p l IH]; intros s H; cbn [fold_left]; [exact H|].
    now apply IH, fold_set_add_nonempty. }
  destruct price_data as [|p pd]; [congruence|]. intros _.
  cbn [fold_left]. apply G. unfold Prices.values. cbn [fold_left].
  apply set_add_nonempty.
Qed.

Lemma price_points_nonempty (price_data : list Prices.t) :
  price_data <> [] -> price_points price_data <> [].
Proof.
  intros H E. apply all_values_nonempty in H.
  apply (f_equal (@List.length float)) in E.
  unfold price_points in E. rewrite sorted_length in E.
  destruct (all_values price_data); [congruence | discriminate].
Qed.

(** *** The cumulative table *)

Lemma idiv_ok (a n : Z) : n <> 0%Z -> idiv a n = Ok (inject_Z a / inject_Z n).
Proof.
  intros H. unfold idiv. apply Z.eqb_neq in H. now rewrite H.
Qed.

Lemma fractions_ok (price_data : list Prices.t) (n : Z) (price : float) :
  n <> 0%Z -> fractions price_data n price = Ok (raw_row price_data n price).
Proof.
  intros H. unfold fractions. rewrite !idiv_ok by exact H. reflexivity.
Qed.

Lemma cumulative_row_ok (price_data : list Prices.t) (n : Z) (price : float) :
  n <> 0%Z -> cumulative_row price_data n price = Ok (row_of price_data n price).
Proof.
  intros H. unfold cumulative_row. rewrite fractions_ok by exact H.
  reflexivity.
Qed.

Lemma cumulative_ok (price_data : list Prices.t) :
  price_data <> [] ->
  cumulative price_data
  = Ok (map (row_of price_data (Z.of_nat (List.length price_data)))
            (price_points price_data)).
Proof.
  intros H. unfold cumulative. apply mapM_ok. intros x _.
  apply cumulative_row_ok. destruct price_data; [congruence | simpl; lia].
Qed.

Lemma count_bounds (test : Prices.t -> bool) (price_data : list Prices.t) :
  (0 <= count test price_data <= Z.of_nat (List.length price_data))%Z.
Proof.
  unfold count. pose proof (filter_length_le test price_data). lia.
Qed.

Lemma count_mono (f g : Prices.t -> bool) (price_data : list Prices.t) :
  (forall p, f p = true -> g p = true) ->
  (count f price_data <= count g price_data)%Z.
Proof.
  intros H. unfold count. apply inj_le.
  induction price_data as [|p pd IH]; simpl; [lia|].
  destruct (f p) eqn:F.
  - rewrite (H p F). simpl. lia.
  - destruct (g p); simpl; lia.
Qed.

Lemma fraction_unit (test : Prices.t -> bool) (price_data : list Prices.t) :
  price_data <> [] ->
  unit (fraction test price_data (Z.of_nat (List.length price_data))).
Proof.
  intros H. unfold unit, fraction.
  pose proof (count_bounds test price_data) as [L U].
  assert (N : (0 < Z.of_nat (List.length price_data))%Z).
  { destruct price_data; [congruence | simpl; lia]. }
  assert (Nq : 0 < inject_Z (Z.of_nat (List.length price_data))).
  { change 0 with (inject_Z 0). now rewrite <- Zlt_Qlt. }
  split.
  - apply Qle_shift_div_l; [exact Nq|]. rewrite Qmult_0_l.
    change 0 with (inject_Z 0). now rewrite <- Zle_Qle.
  - apply Qle_shift_div_r; [exact Nq|]. rewrite Qmult_1_l.
    now rewrite <- Zle_Qle.
Qed.

Lemma fraction_mono (f g : Prices.t -> bool) (price_data : list Prices.t)
    (n : Z) :
  (0 < n)%Z -> (forall p, f p = true -> g p = true) ->
  fraction f price_data n <= fraction g price_data n.
Proof.
  intros N H. unfold fraction.
  assert (Nq : 0 < inject_Z n).
  { change 0 with (inject_Z 0). now rewrite <- Zlt_Qlt. }
  apply Qmult_le_compat_r.
  - rewrite <- Zle_Qle. now apply count_mono.
  - apply Qlt_le_weak. now apply Qinv_lt_0_compat.
Qed.

Lemma fle_trans_l (x y z : float) : x <= y -> fle y z = true -> fle x z = true.
Proof. rewrite !fle_true. intros. lra. Qed.

Lemma fle_trans_r (x y z : float) : y <= z -> fle x y = true -> fle x z = true.
Proof. rewrite !fle_true. intros. lra. Qed.

(** Before rounding: along the price axis the too_cheap and bargain
    fractions fall and the expensive and too_expensive fractions rise. *)
Lemma raw_row_mono (price_data : list Prices.t) (n : Z) (p1 p2 : float) :
  (0 < n)%Z -> p1 <= p2 ->
  raw_le (raw_row price_data n p1) (raw_row price_data n p2).
Proof.
  intros N H. unfold raw_le, raw_row.
  repeat split; apply fraction_mono; auto; intros p;
    first [apply fle_trans_l | apply fle_trans_r]; exact H.
Qed.

Lemma raw_row_unit (price_data : list Prices.t) (price : float) :
  price_data <> [] ->
  raw_unit (raw_row price_data (Z.of_nat (List.length price_data)) price).
Proof.
  intros H. unfold raw_unit, raw_row.
  repeat split; apply fraction_unit; exact H.
Qed.

Lemma round_unit (x : float) (n : nat) : unit x -> unit (round x n).
Proof. unfold unit. intros H. apply (round_between 0 1). exact H. Qed.

Lemma row_of_mono (price_data : list Prices.t) (n : Z) (p1 p2 : float) :
  (0 < n)%Z -> p1 <= p2 ->
  row_le (row_of price_data n p1) (row_of price_data n p2).
Proof.
  intros N H. pose proof (raw_row_mono price_data n p1 p2 N H) as M.
  unfold row_of, row_le. unfold raw_le in M.
  destruct (raw_row price_data n p1) as [[[a1 b1] c1] d1].
  destruct (raw_row price_data n p2) as [[[a2 b2] c2] d2].
  destruct M as [Ma [Mb [Mc Md]]]. simpl.
  repeat split; try apply round_mono; assumption.
Qed.

Lemma row_of_unit (price_data : list Prices.t) (price : float) :
  price_data <> [] ->
  row_unit (row_of price_data (Z.of_nat (List.length price_data)) price).
Proof.
  intros H. pose proof (raw_row_unit price_data price H) as U.
  unfold row_of, row_unit. unfold raw_unit in U.
  destruct (raw_row price_data _ price) as [[[a b] c] d].
  destruct U as [Ua [Ub [Uc Ud]]]. simpl.
  repeat split; apply round_unit; assumption.
Qed.

Lemma map_strongly_sorted {A B} (R : A -> A -> Prop) (S : B -> B -> Prop)
    (f : A -> B) (l : list A) :
  (forall x y, R x y -> S (f x) (f y)) ->
  StronglySorted R l -> StronglySorted S (map f l).
Proof.
  intros H. induction 1 as [|x l Hs IH Hx]; simpl; constructor; auto.
  rewrite Forall_forall in *. intros y Hy.
  apply in_map_iff in Hy. destruct Hy as [z [E Hz]]. subst y. auto.
Qed.

(** *** No step of the engine raises *)

Lemma small_of_zero (d : float) : feq d 0 = true -> flt (fabs d) eps10 = true.
Proof.
  unfold feq, fabs. intros H. apply Qeq_bool_iff in H.
  apply flt_true. rewrite H. reflexivity.
Qed.

Lemma find_intersection_total (cumulative : list Row.t) (a b : curve) :
  exists v, _find_intersection cumulative a b = Ok v.
Proof.
  induction cumulative as [|r1 rest IH]; [simpl; eauto|].
  destruct rest as [|r2 rest].
  - simpl. destruct (flt _ eps10); eauto.
  - cbn [_find_intersection].
    destruct (flt ((get r1 a - get r1 b) * (get r2 a - get r2 b)) 0).
    + destruct (flt (fabs (get r2 a - get r1 a - (get r2 b - get r1 b))) eps10)
        eqn:D; [eauto|].
      unfold fdiv.
      destruct (feq (get r2 a - get r1 a - (get r2 b - get r1 b)) 0) eqn:Z.
      * apply small_of_zero in Z. congruence.
      * simpl. eauto.
    + destruct (flt (fabs (get r1 a - get r1 b)) eps10); eauto.
Qed.

Lemma first_item_ok (l : list float) : l <> [] -> exists x, first_item l = Ok x.
Proof. destruct l; [congruence|]. simpl. eauto. Qed.

Lemma last_item_ok (l : list float) : l <> [] -> exists x, last_item l = Ok x.
Proof.
  intros H. unfold last_item. destruct (rev l) eqn:E; [|eauto].
  apply (f_equal (@rev float)) in E. rewrite rev_involutive in E.
  simpl in E. congruence.
Qed.

(** [_calculate_intersections] returns on every non-empty input; its
    cumulative table is the rounded fractions along the price axis. *)
Lemma calculate_intersections_ok (price_data : list Prices.t) :
  price_data <> [] ->
  exists d,
    _calculate_intersections price_data = Ok d
    /\ cumulative_data d
       = map (row_of price_data (Z.of_nat (List.length price_data)))
             (price_points price_data)
    /\ (exists lo hi, acceptable_price_range d = MkRange (Some lo) (Some hi)).
Proof.
  intros H. unfold _calculate_intersections.
  rewrite (cumulative_ok _ H). cbn [bind].
  set (table := map _ _).
  destruct (find_intersection_total table too_expensive too_cheap) as [v1 E1].
  destruct (find_intersection_total table expensive bargain) as [v2 E2].
  destruct (find_intersection_total table too_cheap expensive) as [v3 E3].
  destruct (find_intersection_total table too_expensive bargain) as [v4 E4].
  rewrite E1, E2, E3, E4. cbn [bind].
  pose proof (price_points_nonempty _ H) as Hp.
  destruct (first_item_ok _ Hp) as [x0 F].
  destruct (last_item_ok _ Hp) as [x1 L].
  assert (Lo : exists lo, match v3 with Some v => Ok v
                          | None => first_item (price_points price_data) end
                          = Ok lo).
  { destruct v3; eauto. }
  assert (Hi : exists hi, match v4 with Some v => Ok v
                          | None => last_item (price_points price_data) end
                          = Ok hi).
  { destruct v4; eauto. }
  destruct Lo as [lo Lo]. destruct Hi as [hi Hi].
  rewrite Lo, Hi. cbn [bind].
  eexists. split; [reflexivity|]. simpl. split; [reflexivity | eauto].
Qed.

End IntersectionFacts.

(* ================================================================== *)
(** ** van_westendorp.py: [calculate_van_westendorp] *)

Module CalculateFacts.

Import Re VanWestendorp Vocabulary ReFacts ParserFacts IntersectionFacts.

Lemma collect_step_eq (acc : list Prices.t * list (string * list Prices.t))
    (r : Result.t) :
  collect_step acc r
  = Ok match quadruple_of r with
       | Some p => (fst acc ++ [p], dict_append (snd acc) (archetype_of r) p)
       | None => acc
       end.
Proof.
  destruct acc as [ap ba].
  unfold collect_step, quadruple_of, response_text, archetype_of.
  destruct (is_not_none (Result.error r)); [reflexivity|].
  destruct (parse_total match Result.response r with
                        | Some v => v
                        | None => Some ""%string
                        end) as [v E].
  rewrite E. simpl. destruct v; reflexivity.
Qed.

(** The loop over [results] collects exactly the valid quadruples. *)
Lemma collect_all (results : list Result.t) :
  forall ap ba, exists ba',
    foldM collect_step results (ap, ba)
    = Ok (ap ++ valid_quadruples results, ba').
Proof.
  induction results as [|r rs IH]; intros ap ba; cbn [foldM].
  - exists ba. simpl. now rewrite app_nil_r.
  - rewrite collect_step_eq. simpl.
    destruct (quadruple_of r) as [p|].
    + destruct (IH (ap ++ [p]) (dict_append ba (archetype_of r) p)) as [ba' E].
      exists ba'. rewrite E, <- app_assoc. reflexivity.
    + apply IH.
Qed.

(** A result without a quadruple leaves the state of the loop alone. *)
Lemma collect_skip (before after : list Result.t) (r : Result.t)
    (acc : list Prices.t * list (string * list Prices.t)) :
  quadruple_of r = None ->
  foldM collect_step (before ++ r :: after) acc
  = foldM collect_step (before ++ after) acc.
Proof.
  intros H. rewrite !foldM_app.
  destruct (foldM collect_step before acc) as [acc'|e]; [|reflexivity].
  cbn [bind foldM]. rewrite collect_step_eq, H. reflexivity.
Qed.

Lemma archetypes_total (by_archetype : list (string * list Prices.t)) :
  forall acc, exists ar, foldM archetype_step by_archetype acc = Ok ar.
Proof.
  induction by_archetype as [|[arch prices] ba IH]; intros acc;
    cbn [foldM]; unfold archetype_step.
  - eauto.
  - destruct (2 <=? List.length prices)%nat eqn:L.
    + apply Nat.leb_le in L.
      destruct (calculate_intersections_ok prices) as [d [E _]].
      { destruct prices; [simpl in L; lia | discriminate]. }
      rewrite E. simpl. apply IH.
    + simpl. apply IH.
Qed.

(** The two ways [calculate_van_westendorp] returns. *)
Lemma calculate_shape (results : list Result.t) :
  ((List.length (valid_quadruples results) < 2)%nat ->
     calculate_van_westendorp results = Ok _empty_result)
  /\ ((2 <= List.length (valid_quadruples results))%nat ->
      exists overall ar,
        _calculate_intersections (valid_quadruples results) = Ok overall
        /\ calculate_van_westendorp results
           = Ok (set_by_archetype overall ar)).
Proof.
  unfold calculate_van_westendorp.
  destruct (collect_all results [] []) as [ba E]. rewrite E. simpl.
  split; intros H.
  - apply Nat.ltb_lt in H. now rewrite H.
  - assert (H' : (List.length (valid_quadruples results) <? 2)%nat = false)
      by (apply Nat.ltb_ge; exact H).
    rewrite H'.
    destruct (calculate_intersections_ok (valid_quadruples results))
      as [d [D _]].
    { destruct (valid_quadruples results); [simpl in H; lia | discriminate]. }
    rewrite D. simpl.
    destruct (archetypes_total ba []) as [ar A]. rewrite A. simpl.
    eauto.
Qed.

(** [calculate_van_westendorp] returns on every input, and what it
    returns has the [by_archetype] key. *)
Lemma calculate_total (results : list Result.t) :
  exists d, calculate_van_westendorp results = Ok d /\ by_archetype d <> None.
Proof.
  destruct (calculate_shape results) as [A B].
  destruct (Nat.lt_ge_cases (List.length (valid_quadruples results)) 2)
    as [L|L].
  - exists _empty_result. split; [auto | discriminate].
  - destruct (B L) as [overall [ar [_ E]]].
    eexists. split; [exact E | discriminate].
Qed.

Lemma firstn_prefix {A} (l1 l2 : list A) (n : nat) :
  List.length l1 = n -> firstn n (l1 ++ l2) = l1.
Proof.
  intros H. subst n.
  now rewrite firstn_app, Nat.sub_diag, firstn_all, firstn_O, app_nil_r.
Qed.

End CalculateFacts.

(* ------------------------------------------------------------------ *)

Module VanWestendorpClaims.

Import Re VanWestendorp Vocabulary.
Import ReFacts ParserFacts IntersectionFacts CalculateFacts RoundFacts.
Import Samples.
Local Open Scope string_scope.

(** C1.  When the valid quadruples of the input are exactly
    (too_cheap, bargain, expensive, too_expensive) = (40, 60, 90, 120) and
    (50, 70, 100, 130), [calculate_van_westendorp] returns non-null
    optimal_price_point, indifference_price_point,
    point_of_marginal_cheapness and point_of_marginal_expensiveness, with
    point_of_marginal_cheapness <= point_of_marginal_expensiveness and
    acceptable_price_range.low <= acceptable_price_range.high.  (The four
    points are 60, 80, 60 and 90; the range is [60, 90].) *)
Theorem two_respondents_intersections : forall results : list Result.t,
  valid_quadruples results
  = [Prices.Mk 120 90 60 40; Prices.Mk 130 100 70 50] ->
  exists d opp ipp pmc pme lo hi,
    calculate_van_westendorp results = Ok d
    /\ optimal_price_point d = Some opp
    /\ indifference_price_point d = Some ipp
    /\ point_of_marginal_cheapness d = Some pmc
    /\ point_of_marginal_expensiveness d = Some pme
    /\ (pmc <= pme)%Q
    /\ acceptable_price_range d = MkRange (Some lo) (Some hi)
    /\ (lo <= hi)%Q
    /\ (opp == 60 /\ ipp == 80 /\ pmc == 60 /\ pme == 90
        /\ lo == 60 /\ hi == 90)%Q.
Proof.
  intros results H.
  destruct (calculate_shape results) as [_ B].
  destruct B as [overall [ar [E C]]]; [rewrite H; simpl; lia|].
  rewrite H in E. vm_compute in E. inversion E; subst overall. clear E.
  rewrite C. unfold set_by_archetype. cbn.
  do 7 eexists.
  repeat split; try reflexivity; vm_compute; discriminate.
Qed.

Lemma two_respondents_intersections_witness :
  exists d pmc pme,
    calculate_van_westendorp
      [ answered "TOO_EXPENSIVE: $120, EXPENSIVE: $90, BARGAIN: $60, TOO_CHEAP: $40" "A";
        answered "Too Expensive: 130 / Expensive: 100 / Bargain: 70 / Too cheap: 50" "B" ]
    = Ok d
    /\ point_of_marginal_cheapness d = Some pmc
    /\ point_of_marginal_expensiveness d = Some pme
    /\ (pmc <= pme)%Q.
Proof.
  destruct (two_respondents_intersections
    [ answered "TOO_EXPENSIVE: $120, EXPENSIVE: $90, BARGAIN: $60, TOO_CHEAP: $40" "A";
      answered "Too Expensive: 130 / Expensive: 100 / Bargain: 70 / Too cheap: 50" "B" ])
    as [d [opp [ipp [pmc [pme [lo [hi [E [_ [_ [P1 [P2 [L _]]]]]]]]]]]]].
  - vm_compute. reflexivity.
  - exists d, pmc, pme. auto.
Defined.

(** C6.  With fewer than two valid parsed quadruples (an empty list,
    failed results or unparseable responses included)
    [calculate_van_westendorp] raises nothing and returns the empty shape:
    the four intersection points null, acceptable_price_range
    {low: null, high: null}, empty cumulative_data, empty by_archetype. *)
Theorem fewer_than_two_quadruples : forall results : list Result.t,
  (List.length (valid_quadruples results) < 2)%nat ->
  exists d,
    calculate_van_westendorp results = Ok d
    /\ optimal_price_point d = None
    /\ indifference_price_point d = None
    /\ point_of_marginal_cheapness d = None
    /\ point_of_marginal_expensiveness d = None
    /\ acceptable_price_range d = MkRange None None
    /\ cumulative_data d = []
    /\ by_archetype d = Some [].
Proof.
  intros results H.
  exists _empty_result. split.
  - now apply (proj1 (calculate_shape results)).
  - repeat split; reflexivity.
Qed.

Lemma fewer_than_two_quadruples_witness :
  (exists d, calculate_van_westendorp [] = Ok d /\ cumulative_data d = [])
  /\ (exists d,
        calculate_van_westendorp
          [ failed "TimeoutError: timed out";
            answered "BARGAIN: $80" "A";
            answered "TOO_EXPENSIVE: $120, EXPENSIVE: $90, BARGAIN: $60, TOO_CHEAP: $40" "A" ]
        = Ok d
        /\ optimal_price_point d = None /\ by_archetype d = Some []).
Proof.
  split.
  - destruct (fewer_than_two_quadruples []) as [d [E [_ [_ [_ [_ [_ [C _]]]]]]]].
    + simpl. lia.
    + exists d. auto.
  - destruct (fewer_than_two_quadruples
      [ failed "TimeoutError: timed out";
        answered "BARGAIN: $80" "A";
        answered "TOO_EXPENSIVE: $120, EXPENSIVE: $90, BARGAIN: $60, TOO_CHEAP: $40" "A" ])
      as [d [E [O [_ [_ [_ [_ [_ B]]]]]]]].
    + vm_compute. lia.
    + exists d. auto.
Defined.

(** C4.  [_parse_price_points] returns a quadruple only if each of the
    four labels (TOO_EXPENSIVE, EXPENSIVE, BARGAIN, TOO_CHEAP) is present
    with a value that parses as a number; a missing label or an
    unparseable value gives the no-data result [None], as does a null
    text; a text with only [BARGAIN: $80] yields no data; and
    [calculate_van_westendorp] leaves such a response out of the price
    analysis without raising. *)
Theorem parse_price_points_all_four :
  (forall (text : option string) (q : Prices.t),
     _parse_price_points text = Ok (Some q) ->
     exists s, text = Some s
       /\ price_for re_too_expensive (list_ascii_of_string s)
          = Ok (Some (Prices.too_expensive q))
       /\ price_for re_expensive (list_ascii_of_string s)
          = Ok (Some (Prices.expensive q))
       /\ price_for re_bargain (list_ascii_of_string s)
          = Ok (Some (Prices.bargain q))
       /\ price_for re_too_cheap (list_ascii_of_string s)
          = Ok (Some (Prices.too_cheap q))
       /\ holds_too "EXPENSIVE" (list_ascii_of_string s)
       /\ holds_word "EXPENSIVE" (list_ascii_of_string s)
       /\ holds_word "BARGAIN" (list_ascii_of_string s)
       /\ holds_too "CHEAP" (list_ascii_of_string s))
  /\ (forall s : string,
        price_for re_too_expensive (list_ascii_of_string s) = Ok None
        \/ price_for re_expensive (list_ascii_of_string s) = Ok None
        \/ price_for re_bargain (list_ascii_of_string s) = Ok None
        \/ price_for re_too_cheap (list_ascii_of_string s) = Ok None ->
        _parse_price_points (Some s) = Ok None)
  /\ (forall (pattern : regex) (text : list ascii) (v : float),
        price_for pattern text = Ok (Some v) ->
        exists mo g,
          search pattern text = Some mo /\ m_group1 mo = Some g
          /\ float_of_str (remove_commas g) = Ok v)
  /\ _parse_price_points None = Ok None
  /\ _parse_price_points (Some "BARGAIN: $80") = Ok None
  /\ (forall (before after : list Result.t) (r : Result.t),
        _parse_price_points (response_text r) = Ok None ->
        calculate_van_westendorp (before ++ r :: after)
        = calculate_van_westendorp (before ++ after)
        /\ exists d, calculate_van_westendorp (before ++ r :: after) = Ok d).
Proof.
  split; [|split; [|split; [|split; [|split]]]].
  - intros text q H. apply parse_some_iff in H.
    destruct H as [s [E [A [B [C D]]]]].
    exists s. repeat split; auto.
    + apply price_for_some in A. destruct A as [mo [g [A _]]].
      eapply search_too; exact A.
    + apply price_for_some in B. destruct B as [mo [g [B _]]].
      eapply search_expensive_word; exact B.
    + apply price_for_some in C. destruct C as [mo [g [C _]]].
      eapply search_word; exact C.
    + apply price_for_some in D. destruct D as [mo [g [D _]]].
      eapply search_too; exact D.
  - exact parse_none_of.
  - exact price_for_some.
  - reflexivity.
  - vm_compute. reflexivity.
  - intros before after r H. split.
    + unfold calculate_van_westendorp. rewrite collect_skip; [reflexivity|].
      unfold quadruple_of. rewrite H.
      destruct (is_not_none (Result.error r)); reflexivity.
    + destruct (calculate_total (before ++ r :: after)) as [d [E _]]. eauto.
Qed.

Lemma parse_price_points_all_four_witness :
  holds_word "BARGAIN"
    (list_ascii_of_string "too_expensive: 9 expensive: 7 bargain: 5 too_cheap: 2")
  /\ _parse_price_points (Some "TOO_EXPENSIVE: $150, BARGAIN: $80, TOO_CHEAP: $50")
     = Ok None
  /\ _parse_price_points (Some "TOO_EXPENSIVE: 9 EXPENSIVE: 7 BARGAIN: , TOO_CHEAP: 2")
     = Ok None
  /\ calculate_van_westendorp
       [answered "TOO_EXPENSIVE: 9 EXPENSIVE: 7 BARGAIN: 5 TOO_CHEAP: 2" "A";
        answered "BARGAIN: $80" "A"]
     = calculate_van_westendorp
         [answered "TOO_EXPENSIVE: 9 EXPENSIVE: 7 BARGAIN: 5 TOO_CHEAP: 2" "A"].
Proof.
  destruct parse_price_points_all_four as [A [B [_ [_ [_ C]]]]].
  split; [|split; [|split]].
  - destruct (A (Some "too_expensive: 9 expensive: 7 bargain: 5 too_cheap: 2")
                (Prices.Mk 9 7 5 2))
      as [s [E [_ [_ [_ [_ [_ [_ [W _]]]]]]]]].
    + vm_compute. reflexivity.
    + inversion E; subst s. exact W.
  - apply B. right. left. vm_compute. reflexivity.
  - apply B. right. right. left. vm_compute. reflexivity.
  - apply (C [answered "TOO_EXPENSIVE: 9 EXPENSIVE: 7 BARGAIN: 5 TOO_CHEAP: 2" "A"]
             [] (answered "BARGAIN: $80" "A")).
    vm_compute. reflexivity.
Defined.

(** C5, as stated, fails: with two spaces between TOO and EXPENSIVE the
    lookbehind (one separator wide) does not see the TOO, the EXPENSIVE
    pattern matches there, and the parser binds [expensive] to the number
    that follows the "too expensive" label. *)
Lemma expensive_after_too_two_spaces :
  let s := "TOO  EXPENSIVE: $150; TOO_EXPENSIVE: $140; BARGAIN: $80; TOO_CHEAP: $50" in
  let text := list_ascii_of_string s in
  (exists mo,
     search re_expensive text = Some mo
     /\ m_start mo = 5%nat
     /\ after_too (rev (firstn (m_start mo) text)) = true
     /\ m_group1 mo = Some (list_ascii_of_string "150"))
  /\ _parse_price_points (Some s) = Ok (Some (Prices.Mk 140 150 80 50)).
Proof.
  split.
  - eexists. split; [vm_compute; reflexivity|]. repeat split.
  - vm_compute. reflexivity.
Qed.

(** C5, amended.  The EXPENSIVE match is never the tail of a match of the
    "too expensive" pattern, that is of TOO, exactly one underscore or
    whitespace character (of any kind) and EXPENSIVE, in any case: the
    four characters before the matched EXPENSIVE are not such a TOO and
    separator, and no match of the "too expensive" pattern starts four
    characters before it.  (With no separator, or with more than one, the
    text before EXPENSIVE is not a "too expensive" label for either
    pattern.) *)
Theorem expensive_not_tail_of_too_expensive :
  forall (text : list ascii) (mo : match_obj),
    search re_expensive text = Some mo ->
    behind [sep; ci "O"; ci "O"; ci "T"] (rev (firstn (m_start mo) text))
    = false
    /\ forall k : nat,
         (k + 4 = m_start mo)%nat ->
         match_here re_too_expensive (rev (firstn k text)) (skipn k text)
         = None.
Proof.
  intros text mo H.
  apply search_cursor in H. destruct H as [bef [aft [M [T St]]]].
  assert (B : rev (firstn (m_start mo) text) = bef).
  { rewrite St, T, firstn_prefix by apply length_rev.
    apply rev_involutive. }
  pose proof (match_expensive_behind _ _ _ M) as NB.
  split; [now rewrite B|].
  intros k Hk.
  destruct (match_here re_too_expensive (rev (firstn k text)) (skipn k text))
    as [mo'|] eqn:M'; [exfalso | reflexivity].
  apply match_too_expensive_ahead in M'.
  destruct M' as [a [b [c [d [rest [Sk Bh]]]]]].
  assert (Lk : List.length (firstn k text) = k).
  { apply firstn_length_le. rewrite T, length_app, length_rev. lia. }
  assert (P : rev bef = (firstn k text ++ [a; b; c; d])%list).
  { rewrite <- (firstn_prefix (rev bef) aft (k + 4)) by (rewrite length_rev; lia).
    rewrite <- T.
    rewrite <- (firstn_skipn k text) at 1. rewrite Sk.
    change (a :: b :: c :: d :: rest) with ([a; b; c; d] ++ rest)%list.
    rewrite app_assoc. apply firstn_prefix.
    rewrite length_app, Lk. reflexivity. }
  apply (f_equal (@rev ascii)) in P.
  rewrite rev_involutive, rev_app_distr in P. simpl in P.
  rewrite <- P in Bh. congruence.
Qed.

Lemma expensive_not_tail_of_too_expensive_witness :
  let text :=
    list_ascii_of_string "Too Expensive: $150; Expensive: $120" in
  exists mo,
    search re_expensive text = Some mo
    /\ m_start mo = 21%nat
    /\ match_here re_too_expensive (rev (firstn 17 text)) (skipn 17 text)
       = None.
Proof.
  intros text.
  destruct (search re_expensive text) as [mo|] eqn:E;
    [|vm_compute in E; discriminate].
  assert (St : m_start mo = 21%nat).
  { vm_compute in E. inversion E. reflexivity. }
  exists mo. split; [reflexivity|]. split; [exact St|].
  apply (proj2 (expensive_not_tail_of_too_expensive text mo E) 17%nat).
  rewrite St. reflexivity.
Defined.

(** C9.  For at least two quadruples the cumulative table built by
    [_calculate_intersections] follows the ascending price axis, and along
    it the too_cheap and bargain fractions never rise and the expensive
    and too_expensive fractions never fall, every fraction lying in
    [0, 1]; the same holds for the fractions before the 4-decimal
    rounding. *)
Theorem cumulative_table_monotone : forall price_data : list Prices.t,
  (2 <= List.length price_data)%nat ->
  let n := Z.of_nat (List.length price_data) in
  exists d table,
    _calculate_intersections price_data = Ok d
    /\ cumulative_data d = table
    /\ cumulative price_data = Ok table
    /\ map Row.price table = price_points price_data
    /\ StronglySorted Qle (price_points price_data)
    /\ StronglySorted row_le table
    /\ Forall row_unit table
    /\ (forall price, exists f,
          fractions price_data n price = Ok f /\ raw_unit f)
    /\ (forall p1 p2 f1 f2,
          (p1 <= p2)%Q ->
          fractions price_data n p1 = Ok f1 ->
          fractions price_data n p2 = Ok f2 ->
          raw_le f1 f2).
Proof.
  intros price_data H n.
  assert (Ne : price_data <> []).
  { destruct price_data; [simpl in H; lia | discriminate]. }
  assert (Np : (0 < n)%Z).
  { subst n. destruct price_data; [congruence | simpl; lia]. }
  assert (Nz : n <> 0%Z) by lia.
  destruct (calculate_intersections_ok price_data Ne) as [d [E [C _]]].
  exists d, (map (row_of price_data n) (price_points price_data)).
  split; [exact E|]. split; [exact C|]. split; [now apply cumulative_ok|].
  split.
  { rewrite map_map. rewrite <- (map_id (price_points price_data)) at 2.
    apply map_ext. intros p. unfold row_of.
    destruct (raw_row price_data n p) as [[[a b] c] e]. reflexivity. }
  split; [apply sorted_sorted|].
  split.
  { apply (map_strongly_sorted Qle); [|apply sorted_sorted].
    intros x y. now apply row_of_mono. }
  split.
  { apply Forall_forall. intros r Hr. apply in_map_iff in Hr.
    destruct Hr as [p [Er _]]. subst r. now apply row_of_unit. }
  split.
  { intros price. exists (raw_row price_data n price). split.
    - now apply fractions_ok.
    - now apply raw_row_unit. }
  intros p1 p2 f1 f2 L F1 F2.
  rewrite fractions_ok in F1, F2 by exact Nz.
  inversion F1; inversion F2; subst. now apply raw_row_mono.
Qed.

Lemma cumulative_table_monotone_witness :
  exists table,
    cumulative [Prices.Mk 120 90 60 40; Prices.Mk 130 100 70 50] = Ok table
    /\ StronglySorted row_le table /\ Forall row_unit table.
Proof.
  destruct (cumulative_table_monotone
              [Prices.Mk 120 90 60 40; Prices.Mk 130 100 70 50])
    as [d [table [_ [_ [C [_ [_ [S [U _]]]]]]]]].
  - simpl. lia.
  - exists table. auto.
Defined.

(** C10.  [calculate_van_westendorp] is total: for every list of result
    dicts, whether or not an entry has the response, error or
    archetype_name key and also when its response is null, it raises
    nothing and returns a dict with the keys optimal_price_point,
    indifference_price_point, point_of_marginal_cheapness,
    point_of_marginal_expensiveness, acceptable_price_range,
    cumulative_data (fields of the record) and by_archetype.  The parser
    returns [None] on a null or empty text, and the engine, which divides
    by the number of respondents, returns on every non-empty list of
    quadruples; the guard calls it with two or more. *)
Theorem calculate_van_westendorp_total :
  (forall results : list Result.t,
     exists d,
       calculate_van_westendorp results = Ok d /\ by_archetype d <> None)
  /\ (forall text : option string, exists v, _parse_price_points text = Ok v)
  /\ _parse_price_points None = Ok None
  /\ _parse_price_points (Some "") = Ok None
  /\ (forall price_data : list Prices.t,
        price_data <> [] ->
        exists d, _calculate_intersections price_data = Ok d).
Proof.
  split; [exact calculate_total|].
  split; [exact parse_total|].
  split; [reflexivity|]. split; [reflexivity|].
  intros price_data H.
  destruct (calculate_intersections_ok price_data H) as [d [E _]]. eauto.
Qed.

Lemma calculate_van_westendorp_total_witness :
  exists d,
    _calculate_intersections [Prices.Mk 10 10 10 10] = Ok d.
Proof.
  apply (proj2 (proj2 (proj2 (proj2 calculate_van_westendorp_total)))).
  discriminate.
Defined.

End VanWestendorpClaims.

(* ================================================================== *)
(** ** experiment_runner.py *)

Module RunnerClaims.

Import Runner Samples.
Local Open Scope string_scope.

(** [execute_persona] returns whenever the persona has its id, name and
    role, whatever the client does. *)
Lemma execute_persona_returns (start_time end_time : float)
    (client : client_t) (persona : Persona.t) (stimulus model : string)
    (temperature : float) (max_tokens : Z) :
  Persona.id persona <> None -> Persona.name persona <> None ->
  Persona.role persona <> None ->
  exists r,
    execute_persona start_time end_time client persona stimulus model
                    temperature max_tokens = Ok r.
Proof.
  intros Hi Hn Hr. unfold execute_persona, build_persona_system_prompt.
  destruct (Persona.id persona) as [i|]; [|congruence].
  destruct (Persona.name persona) as [n|]; [|congruence].
  destruct (Persona.role persona) as [ro|]; [|congruence].
  cbn [item bind].
  match goal with |- context [client ?q] => destruct (client q) as [resp|e] end;
    cbn [bind]; [|eauto].
  destruct (first_text resp); cbn [bind]; eauto.
Qed.

(** C7.  Every result [execute_persona] produces has exactly one of
    [response] and [error] non-null, and which one is decided by what the
    client did.  When the client returns a reply whose first content
    block is a text block, the result is a success: [response] is that
    text, [error] is null and [sentiment] is the score of the text.  On
    any failure the result has a null [response], [sentiment] 0.0 and the
    [error] string "kind: message": the kind and message of the exception
    when the client raises, "IndexError: list index out of range" when
    the reply has no content block, an AttributeError when its first
    block has no text.  So [sentiment] is always defined, and 0.0 when
    the response is null.  (A result is produced whenever the persona has
    its id, name and role.) *)
Theorem execute_persona_result_shape :
  forall (start_time end_time : float) (client : client_t)
         (persona : Persona.t) (stimulus model : string)
         (temperature : float) (max_tokens : Z),
    (forall r : Result.t,
       execute_persona start_time end_time client persona stimulus model
                       temperature max_tokens = Ok r ->
       ((exists text,
           Result.response r = Some (Some text)
           /\ Result.error r = Some None
           /\ Result.sentiment r = Some (Sentiment.analyze_sentiment text))
        \/ (exists e,
              Result.response r = Some None
              /\ Result.error r = Some (Some (exn_name e ++ ": " ++ exn_str e))
              /\ Result.sentiment r = Some 0%Q))
       /\ (exists s, Result.sentiment r = Some s
                     /\ (Result.response r = Some None -> s = 0%Q))
       /\ exists system_prompt,
            build_persona_system_prompt persona = Ok system_prompt
            /\ match client (MkRequest model max_tokens temperature
                               system_prompt [("user", stimulus)]) with
               | Ok reply =>
                   match content reply with
                   | TextBlock text :: _ =>
                       Result.response r = Some (Some text)
                       /\ Result.error r = Some None
                       /\ Result.sentiment r
                          = Some (Sentiment.analyze_sentiment text)
                   | [] =>
                       Result.response r = Some None
                       /\ Result.error r
                          = Some (Some "IndexError: list index out of range")
                       /\ Result.sentiment r = Some 0%Q
                   | OtherBlock :: _ =>
                       Result.response r = Some None
                       /\ (exists msg,
                             Result.error r
                             = Some (Some ("AttributeError: " ++ msg)))
                       /\ Result.sentiment r = Some 0%Q
                   end
               | Raise e =>
                   Result.response r = Some None
                   /\ Result.error r
                      = Some (Some (exn_name e ++ ": " ++ exn_str e))
                   /\ Result.sentiment r = Some 0%Q
               end)
    /\ (Persona.id persona <> None -> Persona.name persona <> None ->
        Persona.role persona <> None ->
        exists r,
          execute_persona start_time end_time client persona stimulus model
                          temperature max_tokens = Ok r).
Proof.
  intros start_time end_time client persona stimulus model temperature
         max_tokens.
  split; [|apply execute_persona_returns].
  intros r. unfold execute_persona.
  destruct (build_persona_system_prompt persona) as [prompt|]; cbn [bind];
    [|discriminate].
  destruct (client _) as [resp|e] eqn:Ec; cbn [bind].
  - unfold first_text.
    destruct (content resp) as [|[text|] rest] eqn:Eb; cbn [bind].
    + destruct (item "id" (Persona.id persona)) as [i|e']; cbn [bind];
        [|discriminate].
      destruct (item "name" (Persona.name persona)) as [n|e']; cbn [bind];
        [|discriminate].
      intros H. inversion H; subst r. cbn -[Sentiment.analyze_sentiment].
      split; [right; exists IndexError; auto|].
      split; [eexists; split; reflexivity|].
      exists prompt. split; [reflexivity|]. rewrite Ec, Eb. auto.
    + destruct (item "id" (Persona.id persona)) as [i|e']; cbn [bind];
        [|discriminate].
      destruct (item "name" (Persona.name persona)) as [n|e']; cbn [bind];
        [|discriminate].
      intros H. inversion H; subst r. cbn -[Sentiment.analyze_sentiment].
      split; [left; exists text; auto|].
      split; [eexists; split; [reflexivity | discriminate]|].
      exists prompt. split; [reflexivity|]. rewrite Ec, Eb. auto.
    + destruct (item "id" (Persona.id persona)) as [i|e']; cbn [bind];
        [|discriminate].
      destruct (item "name" (Persona.name persona)) as [n|e']; cbn [bind];
        [|discriminate].
      intros H. inversion H; subst r. cbn -[Sentiment.analyze_sentiment].
      split; [right; exists AttributeError; auto|].
      split; [eexists; split; reflexivity|].
      exists prompt. split; [reflexivity|]. rewrite Ec, Eb.
      split; [reflexivity|]. split; [|reflexivity].
      eexists. reflexivity.
  - destruct (item "id" (Persona.id persona)) as [i|e']; cbn [bind];
      [|discriminate].
    destruct (item "name" (Persona.name persona)) as [n|e']; cbn [bind];
      [|discriminate].
    intros H. inversion H; subst r. cbn -[Sentiment.analyze_sentiment].
    split; [right; exists e; auto|].
    split; [eexists; split; reflexivity|].
    exists prompt. split; [reflexivity|]. rewrite Ec. auto.
Qed.

Lemma execute_persona_result_shape_witness :
  (exists r,
     execute_persona 10 12 timing_out ada "Would you buy it?" "claude-haiku"
                     (7 # 10) 500 = Ok r
     /\ Result.response r = Some None
     /\ Result.error r = Some (Some "APITimeoutError: Request timed out.")
     /\ Result.sentiment r = Some 0%Q)
  /\ (exists r,
        execute_persona 10 12 silent ada "Would you buy it?" "claude-haiku"
                        (7 # 10) 500 = Ok r
        /\ Result.response r = Some None
        /\ Result.error r = Some (Some "IndexError: list index out of range")
        /\ Result.sentiment r = Some 0%Q)
  /\ (exists r,
        execute_persona 10 12 (answering "I love it.") ada "Would you buy it?"
                        "claude-haiku" (7 # 10) 500 = Ok r
        /\ Result.response r = Some (Some "I love it.")
        /\ Result.error r = Some None).
Proof.
  split; [|split].
  - destruct (proj2 (execute_persona_result_shape 10 12 timing_out ada
                       "Would you buy it?" "claude-haiku" (7 # 10) 500))
      as [r E]; try discriminate.
    exists r. split; [exact E|].
    destruct (proj1 (execute_persona_result_shape 10 12 timing_out ada
                       "Would you buy it?" "claude-haiku" (7 # 10) 500) r E)
      as [_ [_ [prompt [_ T]]]].
    exact T.
  - destruct (proj2 (execute_persona_result_shape 10 12 silent ada
                       "Would you buy it?" "claude-haiku" (7 # 10) 500))
      as [r E]; try discriminate.
    exists r. split; [exact E|].
    destruct (proj1 (execute_persona_result_shape 10 12 silent ada
                       "Would you buy it?" "claude-haiku" (7 # 10) 500) r E)
      as [_ [_ [prompt [_ T]]]].
    exact T.
  - destruct (proj2 (execute_persona_result_shape 10 12 (answering "I love it.")
                       ada "Would you buy it?" "claude-haiku" (7 # 10) 500))
      as [r E]; try discriminate.
    exists r. split; [exact E|].
    destruct (proj1 (execute_persona_result_shape 10 12 (answering "I love it.")
                       ada "Would you buy it?" "claude-haiku" (7 # 10) 500) r E)
      as [_ [_ [prompt [_ [T1 [T2 _]]]]]].
    split; [exact T1 | exact T2].
Defined.

End RunnerClaims.

(* ================================================================== *)
(** ** app.py: the aggregator *)

Module AppFacts.

Import App Vocabulary RoundFacts.

Lemma mean3_ok (l : list float) : l <> [] -> exists v, mean3 l = Ok v.
Proof.
  intros H. unfold mean3, fdiv.
  destruct (feq (inject_Z (Z.of_nat (List.length l))) 0) eqn:E.
  - unfold feq in E. apply Qeq_bool_iff in E.
    unfold Qeq in E. cbn [Qnum Qden inject_Z] in E.
    destruct l; [congruence | simpl List.length in E; lia].
  - simpl. eauto.
Qed.

Lemma group_append_nonempty (d : list (string * list float)) (k : string)
    (v : float) :
  Forall (fun kv => snd kv <> []) d ->
  Forall (fun kv => snd kv <> []) (group_append d k v).
Proof.
  induction 1 as [|[k' l] d Hl Hd IH]; simpl.
  - repeat constructor. simpl. discriminate.
  - destruct (String.eqb k' k); constructor; auto.
    simpl. destruct l; discriminate.
Qed.

Lemma groups_ok (rs : list Result.t) :
  Forall (fun r => Result.sentiment r <> None) rs ->
  forall d, Forall (fun kv => snd kv <> []) d ->
  exists d', foldM group_step rs d = Ok d'
             /\ Forall (fun kv => snd kv <> []) d'.
Proof.
  induction 1 as [|r rs Hr Hrs IH]; intros d Hd; cbn [foldM].
  - eauto.
  - unfold group_step at 1, sentiment_of.
    destruct (Result.sentiment r) as [s|]; [|congruence].
    cbn [bind]. apply IH. now apply group_append_nonempty.
Qed.

Lemma sentiments_ok (rs : list Result.t) :
  Forall (fun r => Result.sentiment r <> None) rs ->
  exists l, mapM sentiment_of rs = Ok l.
Proof.
  induction 1 as [|r rs Hr Hrs [l IH]]; simpl; [eauto|].
  unfold sentiment_of at 1.
  destruct (Result.sentiment r) as [s|]; [|congruence].
  simpl. rewrite IH. simpl. eauto.
Qed.

Lemma means_ok (d : list (string * list float)) :
  Forall (fun kv => snd kv <> []) d ->
  exists l,
    mapM (fun item => m <- mean3 (snd item) ;; Ok (fst item, m)) d = Ok l.
Proof.
  induction 1 as [|[k l] d Hl Hd [ms IH]]; simpl; [eauto|].
  destruct (mean3_ok l Hl) as [v E]. rewrite E. simpl.
  rewrite IH. simpl. eauto.
Qed.

(** The aggregator returns when every result has its sentiment. *)
Lemma aggregate_ok (start_time now : float) (personas : list Persona.t)
    (results : list Result.t) :
  Forall (fun r => Result.sentiment r <> None) results ->
  exists m, aggregate start_time now personas results = Ok m.
Proof.
  intros H. unfold aggregate, compute_metrics.
  assert (Hs : Forall (fun r => Result.sentiment r <> None)
                      (filter error_is_none results)).
  { rewrite Forall_forall in *. intros r Hr.
    apply filter_In in Hr. apply H, Hr. }
  destruct (sentiments_ok _ Hs) as [l El]. rewrite El. cbn [bind].
  assert (Ha : exists a, match l with [] => Ok 0%Q | _ => mean3 l end = Ok a).
  { destruct l as [|x l]; [eauto|]. apply mean3_ok. discriminate. }
  destruct Ha as [a Ea]. rewrite Ea. cbn [bind].
  destruct (groups_ok _ Hs [] (Forall_nil _)) as [d [Ed Hd]].
  rewrite Ed. cbn [bind].
  destruct (means_ok d Hd) as [ms Em]. rewrite Em. cbn [bind].
  eauto.
Qed.

(** Everything in the metrics but [elapsed_seconds] comes from the results
    (and the number of personas); [elapsed_seconds] comes from the clock. *)
Lemma aggregate_inv (start_time now : float) (personas : list Persona.t)
    (results : list Result.t) (m : metrics) :
  aggregate start_time now personas results = Ok m ->
  exists avg arch,
    m = MkMetrics (List.length personas)
          (List.length (filter error_is_none results))
          (List.length (filter (fun r => negb (error_is_none r)) results))
          avg arch (fold_left add_tokens results (0, 0)%Z)
          (round (now - start_time) 2)
    /\ forall s n ps,
         aggregate s n ps results
         = Ok (MkMetrics (List.length ps)
                 (List.length (filter error_is_none results))
                 (List.length (filter (fun r => negb (error_is_none r)) results))
                 avg arch (fold_left add_tokens results (0, 0)%Z)
                 (round (n - s) 2)).
Proof.
  unfold aggregate, compute_metrics.
  destruct (mapM sentiment_of (filter error_is_none results)) as [l|];
    cbn [bind]; [|discriminate].
  destruct (match l with [] => Ok 0%Q | _ => mean3 l end) as [a|];
    cbn [bind]; [|discriminate].
  destruct (foldM group_step (filter error_is_none results) []) as [d|];
    cbn [bind]; [|discriminate].
  destruct (mapM _ d) as [ms|]; cbn [bind]; [|discriminate].
  intros H. inversion H. exists a, ms. split; [reflexivity|].
  intros s n ps. reflexivity.
Qed.

End AppFacts.

(* ------------------------------------------------------------------ *)

Module AppClaims.

Import App Vocabulary Samples AppFacts.
Local Open Scope string_scope.

(** C8, as stated, fails: two runs over the same list of completed results
    (and the same personas) that read different clocks produce metrics
    with different [elapsed_seconds]. *)
Lemma metrics_depend_on_clock :
  let results := [answered "I love it." "Buyer"; failed "APITimeoutError: Request timed out."] in
  exists m1 m2,
    aggregate 100 103 [ada; ada] results = Ok m1
    /\ aggregate 100 104 [ada; ada] results = Ok m2
    /\ (elapsed_seconds m1 == 3)%Q
    /\ (elapsed_seconds m2 == 4)%Q
    /\ ~ (elapsed_seconds m1 == elapsed_seconds m2)%Q
    /\ m1 <> m2.
Proof.
  do 2 eexists. split; [vm_compute; reflexivity|].
  split; [vm_compute; reflexivity|].
  repeat split; try discriminate; vm_compute; discriminate.
Qed.

(** C8, amended.  The metrics other than [elapsed_seconds] are a function
    of the list of completed results (total_personas being the number of
    personas of the run, which is the number of results): two runs over
    identical lists produce identical total_personas,
    successful_responses, failed_responses, avg_sentiment,
    archetype_sentiments and total_tokens, and the second run returns
    whenever the first does.  [elapsed_seconds] is the wall-clock time of
    each run, rounded to 2 decimals.  (The aggregator returns whenever
    every result has its sentiment.) *)
Theorem metrics_function_of_results :
  forall (start1 now1 start2 now2 : float) (personas1 personas2 : list Persona.t)
         (results : list Result.t),
    List.length personas1 = List.length personas2 ->
    (forall m1 : metrics,
       aggregate start1 now1 personas1 results = Ok m1 ->
       exists m2,
         aggregate start2 now2 personas2 results = Ok m2
         /\ total_personas m1 = total_personas m2
         /\ successful_responses m1 = successful_responses m2
         /\ failed_responses m1 = failed_responses m2
         /\ avg_sentiment m1 = avg_sentiment m2
         /\ archetype_sentiments m1 = archetype_sentiments m2
         /\ total_tokens m1 = total_tokens m2
         /\ elapsed_seconds m1 = round (now1 - start1) 2
         /\ elapsed_seconds m2 = round (now2 - start2) 2)
    /\ (Forall (fun r => Result.sentiment r <> None) results ->
        exists m1, aggregate start1 now1 personas1 results = Ok m1).
Proof.
  intros start1 now1 start2 now2 personas1 personas2 results L.
  split; [|apply aggregate_ok].
  intros m1 H. apply aggregate_inv in H.
  destruct H as [avg [arch [E F]]].
  eexists. split; [apply F|]. subst m1. simpl.
  repeat split; auto.
Qed.

Lemma metrics_function_of_results_witness :
  let results := [answered "I love it." "Buyer"; failed "APITimeoutError: Request timed out."] in
  exists m1 m2,
    aggregate 100 103 [ada; ada] results = Ok m1
    /\ aggregate 200 207 [ada; ada] results = Ok m2
    /\ avg_sentiment m1 = avg_sentiment m2
    /\ total_tokens m1 = total_tokens m2.
Proof.
  intros results.
  destruct (metrics_function_of_results 100 103 200 207 [ada; ada] [ada; ada]
              results eq_refl) as [A B].
  destruct B as [m1 E1].
  { repeat constructor; discriminate. }
  destruct (A m1 E1) as [m2 [E2 [_ [_ [_ [S [_ [T _]]]]]]]].
  exists m1, m2. auto.
Defined.

End AppClaims.

(* ================================================================== *)
(** * Further properties of the code *)

(** ** sentiment.py *)

Module SentimentExtras.

Import Re Sentiment Vocabulary CharFacts SentimentFacts RoundFacts.
Local Open Scope string_scope.

Lemma round_comp (x y : Q) (n : nat) : (x == y)%Q -> (round x n == round y n)%Q.
Proof.
  intros E. unfold round.
  rewrite (round_half_even_comp (x * inject_Z (pow10 n)) (y * inject_Z (pow10 n))).
  - reflexivity.
  - now rewrite E.
Qed.

Lemma score_eq (text : string) :
  (positive_score text + negative_score text <> 0)%Z ->
  (analyze_sentiment text
   == round (inject_Z (positive_score text - negative_score text)
             / inject_Z (positive_score text + negative_score text)) 2)%Q.
Proof.
  intros H. rewrite analyze_sentiment_eq. unfold clamped_ratio.
  apply Z.eqb_neq in H. rewrite H. apply clamp_id.
  destruct (scores_nonneg text) as [Hp Hn].
  apply (round_between (-1)%Z 1%Z). apply ratio_bounded; auto.
  now apply Z.eqb_neq.
Qed.

(** X1.  The sign of the score follows the two totals: it is never
    negative when the positive total is at least the negative one, never
    positive in the opposite case, exactly 1.0 for a text with positive
    signals only and exactly -1.0 for one with negative signals only. *)
Theorem analyze_sentiment_sign : forall text : string,
  let pos := positive_score text in
  let neg := negative_score text in
  ((neg <= pos)%Z -> (0 <= analyze_sentiment text)%Q)
  /\ ((pos <= neg)%Z -> (analyze_sentiment text <= 0)%Q)
  /\ ((0 < pos)%Z -> neg = 0%Z -> (analyze_sentiment text == 1)%Q)
  /\ ((0 < neg)%Z -> pos = 0%Z -> (analyze_sentiment text == -1)%Q).
Proof.
  intros text pos neg.
  destruct (scores_nonneg text) as [Hp Hn]. fold pos in Hp. fold neg in Hn.
  assert (Z0 : (pos + neg = 0)%Z -> analyze_sentiment text = 0%Q).
  { intros H. rewrite analyze_sentiment_eq. unfold clamped_ratio.
    fold pos neg. apply Z.eqb_eq in H. now rewrite H. }
  assert (T : (pos + neg <> 0)%Z -> (0 < inject_Z (pos + neg))%Q).
  { intros H. change 0%Q with (inject_Z 0). rewrite <- Zlt_Qlt. lia. }
  repeat split.
  - intros L. destruct (Z.eq_dec (pos + neg) 0) as [E|N].
    + rewrite (Z0 E). lra.
    + rewrite (score_eq text N). fold pos neg.
      rewrite <- (round_Z 0 2). apply round_mono.
      apply Qle_shift_div_l; [now apply T|].
      rewrite Qmult_0_l. change 0%Q with (inject_Z 0).
      rewrite <- Zle_Qle. lia.
  - intros L. destruct (Z.eq_dec (pos + neg) 0) as [E|N].
    + rewrite (Z0 E). lra.
    + rewrite (score_eq text N). fold pos neg.
      rewrite <- (round_Z 0 2). apply round_mono.
      apply Qle_shift_div_r; [now apply T|].
      rewrite Qmult_0_l. change 0%Q with (inject_Z 0).
      rewrite <- Zle_Qle. lia.
  - intros P E.
    assert (N : (pos + neg <> 0)%Z) by lia.
    rewrite (score_eq text N). fold pos neg. rewrite E.
    rewrite <- (round_Z 1 2). apply round_comp.
    rewrite Z.sub_0_r, Z.add_0_r. field.
    intros C. unfold Qeq in C. cbn [Qnum Qden inject_Z] in C. lia.
  - intros P E.
    assert (N : (pos + neg <> 0)%Z) by lia.
    rewrite (score_eq text N). fold pos neg. rewrite E.
    rewrite <- (round_Z (-1) 2). apply round_comp.
    rewrite Z.sub_0_l, Z.add_0_l, inject_Z_opp. field.
    intros C. unfold Qeq in C. cbn [Qnum Qden inject_Z] in C. lia.
Qed.

Lemma analyze_sentiment_sign_witness :
  (0 <= analyze_sentiment "A good, solid plan, one risk.")%Q
  /\ (analyze_sentiment "Excellent, I love it!" == 1)%Q
  /\ (analyze_sentiment "Terrible. I will cancel." == -1)%Q.
Proof.
  split; [|split].
  - apply (proj1 (analyze_sentiment_sign "A good, solid plan, one risk.")).
    vm_compute. discriminate.
  - apply (proj1 (proj2 (proj2 (analyze_sentiment_sign "Excellent, I love it!")))).
    + vm_compute. reflexivity.
    + vm_compute. reflexivity.
  - apply (proj2 (proj2 (proj2 (analyze_sentiment_sign "Terrible. I will cancel.")))).
    + vm_compute. reflexivity.
    + vm_compute. reflexivity.
Defined.

Lemma runs_acc_nonempty (p : ascii -> bool) (s : list ascii) :
  forall acc w, In w (runs_acc p acc s) -> w <> [].
Proof.
  induction s as [|c s IH]; intros acc w H; simpl in H.
  - destruct acc; simpl in H; [contradiction|].
    destruct H as [H|[]]. subst w. discriminate.
  - destruct (p c).
    + eapply IH; eauto.
    + apply in_app_or in H. destruct H as [H|H].
      * destruct acc; simpl in H; [contradiction|].
        destruct H as [H|[]]. subst w. discriminate.
      * eapply IH; eauto.
Qed.

(** X2.  Every token [re.findall] hands to the scoring loop is a
    non-empty string of the lowercase letters a-z. *)
Theorem words_lowercase_letters : forall (text : string) (w : string),
  In w (words text) ->
  w <> "" /\ forallb is_az (list_ascii_of_string w) = true.
Proof.
  intros text w H. rewrite words_letter_words in H.
  unfold letter_words, tokens in H.
  apply in_map_iff in H. destruct H as [l [E H]]. subst w.
  apply filter_In in H. destruct H as [H A].
  apply runs_acc_nonempty in H.
  rewrite list_ascii_of_string_of_list_ascii. split; [|exact A].
  destruct l; [congruence | discriminate].
Qed.

Lemma words_lowercase_letters_witness :
  forallb is_az (list_ascii_of_string "great") = true.
Proof.
  apply (words_lowercase_letters "GREAT value!" "great").
  vm_compute. left. reflexivity.
Defined.

Lemma runs_acc_sep (p : ascii -> bool) (c : ascii) (s1 s2 : list ascii) :
  p c = false ->
  forall acc,
    runs_acc p acc (s1 ++ c :: s2) = (runs_acc p acc s1 ++ runs_acc p [] s2)%list.
Proof.
  intros Hc. induction s1 as [|d s1 IH]; intros acc; simpl.
  - rewrite Hc. reflexivity.
  - destruct (p d); [apply IH|]. rewrite IH, app_assoc. reflexivity.
Qed.

Lemma word_lower (c : ascii) : is_word (lower_char c) = is_word c.
Proof. by_cases c. Qed.

Lemma list_ascii_app (a b : string) :
  list_ascii_of_string (a ++ b)
  = (list_ascii_of_string a ++ list_ascii_of_string b)%list.
Proof. induction a as [|c a IH]; simpl; [reflexivity | now rewrite IH]. Qed.

Lemma total_weight_app (d : list (string * Z)) (ws1 ws2 : list string) :
  total_weight d (ws1 ++ ws2)%list
  = (total_weight d ws1 + total_weight d ws2)%Z.
Proof.
  unfold total_weight. induction ws1 as [|w ws1 IH]; simpl; [reflexivity|].
  rewrite IH. lia.
Qed.

(** X3.  Texts compose: two texts joined by a character that is not a
    word character (a space, a newline, punctuation other than the
    underscore) have the tokens of the first followed by the tokens of
    the second, so their positive and negative totals add up. *)
Theorem words_of_joined_texts : forall (a b : string) (c : ascii),
  is_word c = false ->
  words (a ++ String c b) = (words a ++ words b)%list
  /\ positive_score (a ++ String c b)
     = (positive_score a + positive_score b)%Z
  /\ negative_score (a ++ String c b)
     = (negative_score a + negative_score b)%Z.
Proof.
  intros a b c Hc.
  assert (W : words (a ++ String c b) = (words a ++ words b)%list).
  { rewrite !words_letter_words. unfold letter_words, tokens, runs.
    rewrite list_ascii_app. simpl. unfold lower. rewrite map_app. simpl.
    rewrite runs_acc_sep by (now rewrite word_lower).
    now rewrite filter_app, map_app. }
  split; [exact W|].
  unfold positive_score, negative_score, scores.
  rewrite !scores_totals, W, !total_weight_app. simpl. split; lia.
Qed.

Lemma words_of_joined_texts_witness :
  positive_score "Strong team. Weak market"
  = (positive_score "Strong team." + positive_score "Weak market")%Z.
Proof.
  apply (proj1 (proj2 (words_of_joined_texts "Strong team." "Weak market" " "
                         eq_refl))).
Defined.

End SentimentExtras.

(* ================================================================== *)
(** ** van_westendorp.py: the parser *)

Module ParserExtras.

Import Re VanWestendorp Vocabulary Notions.
Import CharFacts ReFacts ParserFacts.

Lemma rep_greedy_consumes (R : Type) (p : cls) (lo : nat) (hi : option nat)
    (aft : list ascii) :
  forall (n : nat) (bef : list ascii)
         (k : list ascii -> list ascii -> option R) (x : R),
    match hi with Some h => (n <= h)%nat | None => True end ->
    rep_greedy p lo hi n bef aft k = Some x ->
    exists w a,
      aft = w ++ a /\ forallb p w = true
      /\ (lo <= n + List.length w)%nat
      /\ match hi with Some h => (n + List.length w <= h)%nat | None => True end
      /\ k (rev w ++ bef) a = Some x.
Proof.
  induction aft as [|c aft IH]; intros n bef k x Hn H; simpl in H.
  - destruct (lo <=? n)%nat eqn:L; [|discriminate].
    apply Nat.leb_le in L. exists [], []. simpl.
    repeat split; auto; try lia. destruct hi; [lia | exact I].
  - assert (Stop : (if (lo <=? n)%nat then k bef (c :: aft) else None) = Some x ->
                   exists w a,
                     c :: aft = w ++ a /\ forallb p w = true
                     /\ (lo <= n + List.length w)%nat
                     /\ match hi with
                        | Some h => (n + List.length w <= h)%nat
                        | None => True
                        end
                     /\ k (rev w ++ bef) a = Some x).
    { destruct (lo <=? n)%nat eqn:L; [|discriminate].
      apply Nat.leb_le in L. intros K. exists [], (c :: aft). simpl.
      repeat split; auto; try lia. destruct hi; [lia | exact I]. }
    destruct (p c) eqn:Pc; simpl in H; [|auto].
    destruct (match hi with Some h => (n <? h)%nat | None => true end) eqn:B;
      [|auto].
    destruct (rep_greedy p lo hi (S n) (c :: bef) aft k) eqn:E; [|auto].
    inversion H; subst. apply IH in E.
    + destruct E as [w [a [Ea [F [Lo [Hi K]]]]]].
      exists (c :: w), a. simpl. rewrite Pc, F, Ea, <- app_assoc. simpl.
      repeat split; auto; try lia.
      destruct hi; [lia | exact I].
    + destruct hi; [apply Nat.ltb_lt in B; lia | exact I].
Qed.

(** A successful match hands its continuation the cursor moved over a
    text the pattern can consume. *)
Lemma m_consumes (R : Type) (r : regex) :
  forall (bef aft : list ascii) (g : option (list ascii))
         (k : list ascii -> list ascii -> option (list ascii) -> option R)
         (x : R),
    m r bef aft g k = Some x ->
    exists w a g',
      aft = w ++ a /\ consumes r w /\ k (rev w ++ bef) a g' = Some x.
Proof.
  induction r as [|p|r1 IH1 r2 IH2|p lo hi|r1 IH1|r1 IH1|ps|];
    intros bef aft g k x H; simpl in H.
  - exists [], aft, g. simpl. auto.
  - destruct aft as [|c aft]; [discriminate|].
    destruct (p c) eqn:Pc; [|discriminate].
    exists [c], aft, g. simpl. eauto.
  - apply IH1 in H. destruct H as [w1 [a1 [g1 [E1 [C1 H]]]]].
    apply IH2 in H. destruct H as [w2 [a2 [g2 [E2 [C2 H]]]]].
    exists (w1 ++ w2), a2, g2. subst.
    rewrite rev_app_distr, <- !app_assoc. simpl. eauto 8.
  - apply rep_greedy_consumes in H; [|destruct hi; [lia | exact I]].
    destruct H as [w [a [E [F [Lo [Hi H]]]]]].
    exists w, a, g. simpl. repeat split; auto.
  - destruct (m r1 bef aft g k) eqn:E.
    + inversion H; subst. apply IH1 in E.
      destruct E as [w [a [g' [Ea [C K]]]]].
      exists w, a, g'. simpl. auto.
    + exists [], aft, g. simpl. auto.
  - apply IH1 in H. destruct H as [w [a [g' [E [C H]]]]].
    exists w, a, (Some (consumed bef (rev w ++ bef))). simpl. auto.
  - destruct (behind (rev ps) bef); [discriminate|].
    exists [], aft, g. simpl. auto.
  - destruct (boundary bef aft); [|discriminate].
    exists [], aft, g. simpl. auto.
Qed.

Lemma m_grp (R : Type) (r : regex) (bef aft : list ascii)
    (g : option (list ascii))
    (k : list ascii -> list ascii -> option (list ascii) -> option R) :
  m (Grp r) bef aft g k
  = m r bef aft g (fun b a _ => k b a (Some (consumed bef b))).
Proof. reflexivity. Qed.

Lemma m_seq (R : Type) (r1 r2 : regex) (bef aft : list ascii)
    (g : option (list ascii))
    (k : list ascii -> list ascii -> option (list ascii) -> option R) :
  m (Seq r1 r2) bef aft g k
  = m r1 bef aft g (fun b a g' => m r2 b a g' k).
Proof. reflexivity. Qed.

(** Group 1 of a match of a pattern that ends with the number group is a
    text the number pattern consumes. *)
Lemma number_group (R : Type) (r : regex) :
  ends_with_number r ->
  forall (bef aft : list ascii) (g : option (list ascii))
         (k : list ascii -> list ascii -> option (list ascii) -> option R)
         (x : R),
    m r bef aft g k = Some x ->
    exists w b a, consumes number_re w /\ k b a (Some w) = Some x.
Proof.
  induction 1 as [|r1 r2 E IH]; intros bef aft g k x H.
  - unfold number_re in H. rewrite m_grp in H. apply m_consumes in H.
    destruct H as [w [a [g' [Ea [C H]]]]].
    rewrite consumed_app, rev_involutive in H.
    exists w, (rev w ++ bef), a. split; [exact C | exact H].
  - rewrite m_seq in H. apply m_reaches in H.
    destruct H as [b [a [g' [H _]]]]. eapply IH; exact H.
Qed.

Lemma ends_value : ends_with_number value_re.
Proof. unfold value_re. repeat constructor. Qed.

Lemma ends_str_ci (w : string) (r : regex) :
  ends_with_number r -> ends_with_number (Seq (str_ci w) r).
Proof. now constructor. Qed.

Lemma ends_patterns :
  ends_with_number re_too_expensive /\ ends_with_number re_expensive
  /\ ends_with_number re_bargain /\ ends_with_number re_too_cheap.
Proof.
  pose proof ends_value.
  unfold re_too_expensive, re_expensive, re_bargain, re_too_cheap.
  repeat split; repeat constructor; assumption.
Qed.

Lemma search_number_group (r : regex) (text : list ascii) (mo : match_obj) :
  ends_with_number r -> search r text = Some mo ->
  exists w, m_group1 mo = Some w /\ consumes number_re w.
Proof.
  intros E H. apply search_from_sound in H. destruct H as [b [a [H _]]].
  unfold match_here in H. apply (number_group _ r E) in H.
  destruct H as [w [b' [a' [C H]]]]. inversion H; subst. simpl. eauto.
Qed.

(** *** The value of a number text *)

Lemma digits_value_ok (s : list ascii) :
  forallb is_digit s = true ->
  forall acc, (0 <= acc)%Z ->
    exists z, digits_value acc s = Some z /\ (0 <= z)%Z.
Proof.
  induction s as [|c s IH]; intros F acc A; cbn [digits_value].
  - eauto.
  - simpl in F. apply andb_true_iff in F. destruct F as [Hc F].
    rewrite Hc. apply IH; [exact F|].
    pose proof (N2Z.is_nonneg (code c - 48)). lia.
Qed.

Lemma digit_not_point (c : ascii) : is_digit c = true -> lit "." c = false.
Proof. by_cases c. Qed.

Lemma digit_not_comma (c : ascii) : is_digit c = true -> lit "," c = false.
Proof. by_cases c. Qed.

Lemma point_not_comma (c : ascii) : lit "." c = true -> lit "," c = false.
Proof. by_cases c. Qed.

Lemma split_point_digits (l : list ascii) (tail : option (list ascii)) :
  forallb is_digit l = true ->
  split_point (l ++ match tail with
                    | Some ds => "."%char :: ds
                    | None => []
                    end)
  = (l, tail).
Proof.
  induction l as [|c l IH]; intros F; simpl.
  - destruct tail; reflexivity.
  - simpl in F. apply andb_true_iff in F. destruct F as [Hc F].
    rewrite (digit_not_point _ Hc), (IH F). reflexivity.
Qed.

Lemma remove_commas_digits (l : list ascii) :
  forallb (cls_or is_digit (lit ",")) l = true ->
  forallb is_digit (remove_commas l) = true.
Proof.
  induction l as [|c l IH]; simpl; [reflexivity|].
  intros F. apply andb_true_iff in F. destruct F as [Hc F].
  unfold cls_or in Hc. destruct (lit "," c) eqn:C; simpl; [auto|].
  rewrite orb_false_r in Hc. rewrite Hc. auto.
Qed.

Lemma remove_commas_id (l : list ascii) :
  forallb is_digit l = true -> remove_commas l = l.
Proof.
  induction l as [|c l IH]; simpl; [reflexivity|].
  intros F. apply andb_true_iff in F. destruct F as [Hc F].
  rewrite (digit_not_comma _ Hc). simpl. now rewrite IH.
Qed.

Lemma lit_point (c : ascii) : lit "." c = true -> c = "."%char.
Proof. unfold lit. intros H. apply N.eqb_eq in H. now apply code_inj. Qed.

(** What the number pattern consumes: digits and commas, then perhaps a
    point and one or two digits. *)
Lemma number_shape (w : list ascii) :
  consumes number_re w ->
  exists ip tail,
    forallb is_digit ip = true
    /\ match tail with
       | Some ds => forallb is_digit ds = true
                    /\ (1 <= List.length ds <= 2)%nat
       | None => True
       end
    /\ remove_commas w
       = ip ++ match tail with Some ds => "."%char :: ds | None => [] end.
Proof.
  unfold number_re. simpl.
  intros [w1 [w2 [E [[F1 _] [E2 | [w3 [w4 [E3 [[c [Ec Pc]] [F4 [L4 U4]]]]]]]]]]].
  - subst. exists (remove_commas w1), None.
    rewrite app_nil_r. split; [now apply remove_commas_digits|].
    split; [exact I|]. now rewrite app_nil_r.
  - subst. exists (remove_commas w1), (Some w4).
    split; [now apply remove_commas_digits|].
    split; [split; [exact F4 | lia]|].
    unfold remove_commas. rewrite filter_app. simpl.
    rewrite (point_not_comma _ Pc). simpl.
    fold (remove_commas w4). rewrite (remove_commas_id _ F4).
    now rewrite (lit_point _ Pc).
Qed.

Lemma plain_nonneg (w : list ascii) (v : float) :
  plain_decimal w -> float_of_str w = Ok v -> (0 <= v)%Q.
Proof.
  intros [ip [tail [Fi [Ft E]]]] H. subst w.
  unfold float_of_str in H. rewrite (split_point_digits _ _ Fi) in H.
  destruct (digits_value_ok ip Fi 0%Z ltac:(lia)) as [i [Di Pi]].
  assert (Pos : forall (f : Z) (n : nat), (0 <= f)%Z ->
            (0 <= inject_Z i + inject_Z f / inject_Z (pow10 n))%Q).
  { intros f n Pf.
    assert (A : (0 <= inject_Z i)%Q)
      by (change 0%Q with (inject_Z 0); now rewrite <- Zle_Qle).
    assert (B : (0 <= inject_Z f)%Q)
      by (change 0%Q with (inject_Z 0); now rewrite <- Zle_Qle).
    assert (C : (0 < inject_Z (pow10 n))%Q).
    { change 0%Q with (inject_Z 0). rewrite <- Zlt_Qlt.
      apply RoundFacts.pow10_pos. }
    assert (D : (0 <= inject_Z f / inject_Z (pow10 n))%Q).
    { apply Qle_shift_div_l; [exact C|]. now rewrite Qmult_0_l. }
    change 0%Q with (0 + 0)%Q. now apply Qplus_le_compat. }
  destruct tail as [ds|].
  - destruct Ft as [Fd Ld].
    destruct (digits_value_ok ds Fd 0%Z ltac:(lia)) as [f [Df Pf]].
    rewrite Di, Df in H.
    assert (V : v = (inject_Z i
                     + inject_Z f / inject_Z (pow10 (List.length ds)))%Q).
    { destruct ip, ds; simpl in Ld; try lia; now inversion H. }
    subst v. now apply Pos.
  - rewrite Di in H. simpl in H.
    assert (V : v = (inject_Z i + inject_Z 0 / inject_Z (pow10 0))%Q).
    { destruct ip; [discriminate | now inversion H]. }
    subst v. apply Pos. lia.
Qed.

Lemma price_for_plain (r : regex) (text : list ascii) (v : float) :
  ends_with_number r -> price_for r text = Ok (Some v) ->
  plain_value v /\ (0 <= v)%Q.
Proof.
  intros E H. apply price_for_some in H.
  destruct H as [mo [g [S [G F]]]].
  destruct (search_number_group r text mo E S) as [w [G' C]].
  rewrite G in G'. inversion G'; subst w.
  assert (P : plain_decimal (remove_commas g)).
  { destruct (number_shape g C) as [ip [tail [Fi [Ft Eg]]]].
    exists ip, tail. auto. }
  split; [exists (remove_commas g); auto|].
  exact (plain_nonneg _ _ P F).
Qed.

(** X4.  Only plain decimals are parsed: every price the parser returns
    is the value [float()] gives to a text made of digits and at most one
    point followed by one or two digits (the group of the pattern with
    its commas removed).  No sign, exponent or word such as inf or nan
    can reach [float()], and digits after the second decimal are left
    out of the group, not rounded; so every price is non-negative. *)
Theorem parsed_prices_are_plain_decimals :
  forall (text : option string) (q : Prices.t),
    _parse_price_points text = Ok (Some q) ->
    Forall (fun v => plain_value v /\ (0 <= v)%Q) (Prices.values q).
Proof.
  intros text q H. apply parse_some_iff in H.
  destruct H as [s [_ [A [B [C D]]]]].
  destruct ends_patterns as [Ea [Eb [Ec Ed]]].
  unfold Prices.values.
  constructor; [exact (price_for_plain _ _ _ Ea A)|].
  constructor; [exact (price_for_plain _ _ _ Eb B)|].
  constructor; [exact (price_for_plain _ _ _ Ec C)|].
  constructor; [exact (price_for_plain _ _ _ Ed D)|].
  constructor.
Qed.

Lemma parsed_prices_are_plain_decimals_witness :
  plain_value (129999 # 100) /\ (0 <= 129999 # 100)%Q.
Proof.
  pose proof (parsed_prices_are_plain_decimals
                (Some "Too expensive: $1,299.999; expensive: 900; bargain: 5.5; too_cheap: 0.5"%string)
                (Prices.Mk (129999 # 100) 900 (55 # 10) (5 # 10))) as H.
  assert (E : _parse_price_points
                (Some "Too expensive: $1,299.999; expensive: 900; bargain: 5.5; too_cheap: 0.5"%string)
              = Ok (Some (Prices.Mk (129999 # 100) 900 (55 # 10) (5 # 10))))
    by (vm_compute; reflexivity).
  specialize (H E). inversion H as [|? ? Hv _]. exact Hv.
Defined.

End ParserExtras.

(* ------------------------------------------------------------------ *)

Module CaseExtras.

Import Re VanWestendorp Vocabulary Notions.
Import CharFacts ReFacts ParserFacts.

Lemma rep_greedy_lower (R R' : Type) (F : R -> R') (p : cls) (lo : nat)
    (hi : option nat) (aft : list ascii) :
  case_blind p ->
  forall (n : nat) (bef : list ascii)
         (k : list ascii -> list ascii -> option R)
         (k' : list ascii -> list ascii -> option R'),
    (forall b a, k' (lower b) (lower a) = option_map F (k b a)) ->
    rep_greedy p lo hi n (lower bef) (lower aft) k'
    = option_map F (rep_greedy p lo hi n bef aft k).
Proof.
  intros P. unfold lower.
  induction aft as [|c aft IH]; intros n bef k k' K; simpl.
  - destruct (lo <=? n)%nat; [apply (K bef []) | reflexivity].
  - rewrite P.
    assert (Stop : (if (lo <=? n)%nat
                    then k' (map lower_char bef)
                            (lower_char c :: map lower_char aft)
                    else None)
                   = option_map F (if (lo <=? n)%nat
                                   then k bef (c :: aft) else None)).
    { destruct (lo <=? n)%nat; [apply (K bef (c :: aft)) | reflexivity]. }
    destruct (p c && match hi with Some h => (n <? h)%nat | None => true end);
      [|exact Stop].
    pose proof (IH (S n) (c :: bef) k k' K) as E. simpl in E. rewrite E.
    destruct (rep_greedy p lo hi (S n) (c :: bef) aft k); [reflexivity|].
    simpl. exact Stop.
Qed.

Lemma behind_lower (ps : list cls) :
  Forall case_blind ps ->
  forall bef, behind ps (lower bef) = behind ps bef.
Proof.
  induction 1 as [|p ps P _ IH]; intros bef; destruct bef as [|c bef];
    simpl; try reflexivity.
  now rewrite P, IH.
Qed.

Lemma word_at_lower (s : list ascii) : word_at (lower s) = word_at s.
Proof.
  destruct s as [|c s]; simpl; [reflexivity|].
  by_cases c.
Qed.

Lemma consumed_lower (bef b : list ascii) :
  consumed (lower bef) (lower b) = lower (consumed bef b).
Proof.
  unfold consumed, lower.
  now rewrite !length_map, firstn_map, map_rev.
Qed.

(** Matching the lowercased text is matching the text, with lowercased
    results. *)
Lemma m_lower (r : regex) :
  ignores_case r ->
  forall (R R' : Type) (F : R -> R') (bef aft : list ascii)
         (g : option (list ascii))
         (k : list ascii -> list ascii -> option (list ascii) -> option R)
         (k' : list ascii -> list ascii -> option (list ascii) -> option R'),
    (forall b a g, k' (lower b) (lower a) (option_map lower g)
                   = option_map F (k b a g)) ->
    m r (lower bef) (lower aft) (option_map lower g) k'
    = option_map F (m r bef aft g k).
Proof.
  induction r as [|p|r1 IH1 r2 IH2|p lo hi|r1 IH1|r1 IH1|ps|];
    intros I R R' F bef aft g k k' K; simpl in I |- *.
  - apply K.
  - destruct aft as [|c aft]; simpl; [reflexivity|].
    rewrite I. destruct (p c); [apply (K (c :: bef) aft g) | reflexivity].
  - destruct I as [I1 I2].
    apply (IH1 I1 R R' F). intros b a g'. now apply (IH2 I2 R R' F).
  - apply rep_greedy_lower; [exact I|]. intros b a. apply K.
  - rewrite (IH1 I R R' F bef aft g k k' K).
    destruct (m r1 bef aft g k); [reflexivity | apply K].
  - apply (IH1 I R R' F). intros b a g'.
    rewrite consumed_lower. apply (K b a (Some (consumed bef b))).
  - rewrite behind_lower by (now apply Forall_rev).
    destruct (behind (rev ps) bef); [reflexivity | apply K].
  - unfold boundary. rewrite !word_at_lower.
    destruct (xorb (word_at bef) (word_at aft)); [apply K | reflexivity].
Qed.

Lemma match_here_lower (r : regex) (bef aft : list ascii) :
  ignores_case r ->
  match_here r (lower bef) (lower aft)
  = option_map lower_match (match_here r bef aft).
Proof.
  intros I. unfold match_here.
  change (@None (list ascii)) with (option_map lower (@None (list ascii))) at 1.
  apply (m_lower r I). intros b a g. simpl. unfold lower_match. simpl.
  rewrite consumed_lower. unfold lower at 1. now rewrite length_map.
Qed.

Lemma search_from_lower (r : regex) (aft : list ascii) :
  ignores_case r ->
  forall bef,
    search_from r (lower bef) (lower aft)
    = option_map lower_match (search_from r bef aft).
Proof.
  intros I. induction aft as [|c aft IH]; intros bef;
    cbn [lower map search_from].
  - pose proof (match_here_lower r bef [] I) as E.
    cbn [lower map] in E. rewrite E.
    destruct (match_here r bef []); reflexivity.
  - pose proof (match_here_lower r bef (c :: aft) I) as E.
    cbn [lower map] in E. rewrite E.
    destruct (match_here r bef (c :: aft)); [reflexivity|].
    cbn [option_map]. apply (IH (c :: bef)).
Qed.

(** *** The value does not depend on case *)

Lemma digit_lower (c : ascii) :
  is_digit (lower_char c) = is_digit c
  /\ (is_digit c = true -> lower_char c = c).
Proof. split; by_cases c. Qed.

Lemma digits_value_lower (s : list ascii) : forall acc,
  digits_value acc (lower s) = digits_value acc s.
Proof.
  induction s as [|c s IH]; intros acc; cbn [lower map digits_value];
    [reflexivity|].
  destruct (digit_lower c) as [D E]. rewrite D.
  destruct (is_digit c) eqn:Hc; [|reflexivity].
  rewrite (E eq_refl). apply IH.
Qed.

Lemma point_lower (c : ascii) : lit "." (lower_char c) = lit "." c.
Proof. by_cases c. Qed.

Lemma comma_lower (c : ascii) : lit "," (lower_char c) = lit "," c.
Proof. by_cases c. Qed.

Lemma split_point_lower (s : list ascii) :
  split_point (lower s)
  = (lower (fst (split_point s)), option_map lower (snd (split_point s))).
Proof.
  induction s as [|c s IH]; cbn [lower map split_point]; [reflexivity|].
  rewrite point_lower. destruct (lit "." c); [reflexivity|].
  fold (lower s). rewrite IH. destruct (split_point s). reflexivity.
Qed.

Lemma remove_commas_lower (s : list ascii) :
  remove_commas (lower s) = lower (remove_commas s).
Proof.
  induction s as [|c s IH]; simpl; [reflexivity|].
  rewrite comma_lower. destruct (lit "," c); simpl; now rewrite IH.
Qed.

Lemma float_of_str_lower (s : list ascii) :
  float_of_str (lower s) = float_of_str s.
Proof.
  unfold float_of_str. rewrite split_point_lower.
  destruct (split_point s) as [ip fp]. simpl.
  destruct fp as [fp|]; simpl.
  - rewrite !digits_value_lower.
    replace (List.length (lower fp)) with (List.length fp)
      by (unfold lower; now rewrite length_map).
    destruct ip, fp; reflexivity.
  - rewrite !digits_value_lower. destruct ip; reflexivity.
Qed.

Lemma price_for_lower (r : regex) (text : list ascii) :
  ignores_case r -> price_for r (lower text) = price_for r text.
Proof.
  intros I. unfold price_for, search.
  change (@nil ascii) with (lower []) at 1.
  rewrite (search_from_lower r text I []).
  destruct (search_from r [] text) as [mo|]; simpl; [|reflexivity].
  destruct (m_group1 mo) as [g|]; simpl; [|reflexivity].
  now rewrite remove_commas_lower, float_of_str_lower.
Qed.

(** *** The four patterns ignore case *)

Lemma ci_blind (c : ascii) : case_blind (ci c).
Proof. intros x. unfold ci. now rewrite lower_char_idem. Qed.

Lemma str_ci_ignores (w : string) : ignores_case (str_ci w).
Proof. induction w; simpl; [exact I | split; [apply ci_blind | assumption]]. Qed.

Lemma cls_ci_blind (w : string) : Forall case_blind (cls_ci w).
Proof. induction w; simpl; constructor; [apply ci_blind | assumption]. Qed.

Lemma sep_blind : case_blind sep.
Proof. intros c. by_cases c. Qed.

Lemma space_blind : case_blind is_space.
Proof. intros c. by_cases c. Qed.

Lemma digit_blind : case_blind is_digit.
Proof. intros c. by_cases c. Qed.

Lemma digit_comma_blind : case_blind (cls_or is_digit (lit ",")).
Proof. intros c. by_cases c. Qed.

Lemma lit_blind_colon : case_blind (lit ":").
Proof. intros c. by_cases c. Qed.

Lemma lit_blind_dollar : case_blind (lit "$").
Proof. intros c. by_cases c. Qed.

Lemma lit_blind_point : case_blind (lit ".").
Proof. intros c. by_cases c. Qed.

Lemma value_ignores : ignores_case value_re.
Proof.
  unfold value_re, number_re, star, plus. simpl.
  pose proof space_blind. pose proof digit_blind. pose proof digit_comma_blind.
  pose proof lit_blind_colon. pose proof lit_blind_dollar.
  pose proof lit_blind_point. tauto.
Qed.

Lemma ignores_seq (r1 r2 : regex) :
  ignores_case r1 -> ignores_case r2 -> ignores_case (Seq r1 r2).
Proof. intros; split; assumption. Qed.

Lemma patterns_ignore_case :
  ignores_case re_too_expensive /\ ignores_case re_expensive
  /\ ignores_case re_bargain /\ ignores_case re_too_cheap.
Proof.
  pose proof value_ignores as V. pose proof sep_blind as S.
  unfold re_too_expensive, re_expensive, re_bargain, re_too_cheap.
  split; [|split; [|split]].
  - apply ignores_seq; [apply str_ci_ignores|].
    apply ignores_seq; [exact S|].
    apply ignores_seq; [apply str_ci_ignores | exact V].
  - apply ignores_seq.
    + apply Forall_app. split; [apply cls_ci_blind|].
      constructor; [exact S | constructor].
    + apply ignores_seq; [apply str_ci_ignores | exact V].
  - apply ignores_seq; [apply str_ci_ignores | exact V].
  - apply ignores_seq; [apply str_ci_ignores|].
    apply ignores_seq; [exact S|].
    apply ignores_seq; [apply str_ci_ignores | exact V].
Qed.

Lemma parse_lower (s : string) :
  _parse_price_points (Some (lower_string s)) = _parse_price_points (Some s).
Proof.
  unfold _parse_price_points, lower_string.
  rewrite list_ascii_of_string_of_list_ascii.
  destruct patterns_ignore_case as [A [B [C D]]].
  rewrite !price_for_lower by assumption.
  destruct (list_ascii_of_string s); reflexivity.
Qed.

Lemma lower_ascii_lower (c : ascii) :
  lower_char (ascii_lower_char c) = lower_char c.
Proof.
  destruct c as [[] [] [] [] [] [] [] []]; vm_compute; reflexivity.
Qed.

Lemma lower_string_ascii (s1 s2 : string) :
  same_but_ascii_case s1 s2 -> lower_string s1 = lower_string s2.
Proof.
  unfold same_but_ascii_case, lower_string, lower. intros H. f_equal.
  assert (L : forall l, map lower_char (map ascii_lower_char l)
                        = map lower_char l).
  { intros l. rewrite map_map. apply map_ext. apply lower_ascii_lower. }
  rewrite <- (L (list_ascii_of_string s1)), <- (L (list_ascii_of_string s2)).
  now rewrite H.
Qed.

(** X5.  The parser does not see the case of the letters A-Z: two texts
    that differ only in the case of these letters (labels written
    "Too Cheap", "too cheap" or "TOO CHEAP") parse to the same result. *)
Theorem parse_price_points_ignores_ascii_case : forall s1 s2 : string,
  same_but_ascii_case s1 s2 ->
  _parse_price_points (Some s1) = _parse_price_points (Some s2).
Proof.
  intros s1 s2 H. apply lower_string_ascii in H.
  rewrite <- (parse_lower s1), <- (parse_lower s2).
  now rewrite H.
Qed.

Lemma parse_price_points_ignores_ascii_case_witness :
  _parse_price_points
    (Some "Too Expensive: 9, Expensive: 7, Bargain: 5, Too Cheap: 2"%string)
  = _parse_price_points
      (Some "TOO EXPENSIVE: 9, expensive: 7, BARGAIN: 5, too cheap: 2"%string).
Proof.
  apply parse_price_points_ignores_ascii_case. vm_compute. reflexivity.
Defined.

End CaseExtras.

(* ================================================================== *)
(** ** van_westendorp.py: the price axis and the curves *)

Module EngineExtras.

Import VanWestendorp Vocabulary Notions RoundFacts IntersectionFacts.
Local Open Scope Q_scope.

(** *** The axis *)

Lemma feq_true (x y : float) : feq x y = true <-> x == y.
Proof. unfold feq. apply Qeq_bool_iff. Qed.

Lemma existsb_feq_false (x : float) (s : list float) :
  existsb (feq x) s = false -> Forall (fun y => differ y x) s.
Proof.
  induction s as [|y s IH]; simpl; intros H; constructor.
  - apply orb_false_iff in H. destruct H as [H _].
    intros E. assert (T : feq x y = true) by (apply feq_true; now symmetry).
    congruence.
  - apply IH. apply orb_false_iff in H. tauto.
Qed.

Lemma pairs_snoc (s : list float) (x : float) :
  ForallOrdPairs differ s -> Forall (fun y => differ y x) s ->
  ForallOrdPairs differ (s ++ [x]).
Proof.
  induction 1 as [|a l Ha Hl IH]; intros F; simpl.
  - repeat constructor.
  - inversion F; subst. constructor; [|auto].
    apply Forall_app. split; [exact Ha|]. constructor; [assumption | constructor].
Qed.

Lemma set_add_pairs (s : list float) (x : float) :
  ForallOrdPairs differ s -> ForallOrdPairs differ (set_add s x).
Proof.
  intros H. unfold set_add. destruct (existsb (feq x) s) eqn:E; [exact H|].
  apply pairs_snoc; [exact H | now apply existsb_feq_false].
Qed.

Lemma set_add_in (s : list float) (x y : float) :
  In y (set_add s x) -> In y s \/ y = x.
Proof.
  unfold set_add. destruct (existsb (feq x) s); [auto|].
  intros H. apply in_app_or in H. destruct H as [H|[H|[]]]; auto.
Qed.

Lemma set_add_keeps (s : list float) (x y : float) :
  In y s -> In y (set_add s x).
Proof.
  unfold set_add. destruct (existsb (feq x) s); [auto|].
  intros H. apply in_or_app. now left.
Qed.

Lemma set_add_has (s : list float) (x : float) :
  exists y, In y (set_add s x) /\ y == x.
Proof.
  unfold set_add. destruct (existsb (feq x) s) eqn:E.
  - apply existsb_exists in E. destruct E as [y [I F]].
    exists y. split; [exact I|]. apply feq_true in F. now symmetry.
  - exists x. split; [apply in_or_app; right; now left | reflexivity].
Qed.

Lemma fold_set_add (l : list float) : forall s,
  ForallOrdPairs differ s ->
  ForallOrdPairs differ (fold_left set_add l s)
  /\ (forall y, In y (fold_left set_add l s) -> In y s \/ In y l)
  /\ (forall y, In y s -> In y (fold_left set_add l s))
  /\ (forall x, In x l -> exists y, In y (fold_left set_add l s) /\ y == x).
Proof.
  induction l as [|a l IH]; intros s P; cbn [fold_left].
  - repeat split; auto. intros x [].
  - destruct (IH (set_add s a) (set_add_pairs s a P)) as [P' [I1 [I2 I3]]].
    repeat split; auto.
    + intros y H. apply I1 in H. destruct H as [H|H]; [|right; now right].
      apply set_add_in in H. destruct H as [H|H]; [now left|].
      right. left. now symmetry.
    + intros y H. apply I2. now apply set_add_keeps.
    + intros x [H|H]; [|now apply I3]. subst x.
      destruct (set_add_has s a) as [y [Hy E]]. exists y. split; auto.
Qed.

Lemma all_values_spec (price_data : list Prices.t) : forall s,
  ForallOrdPairs differ s ->
  let out := fold_left (fun s p => fold_left set_add (Prices.values p) s)
                       price_data s in
  ForallOrdPairs differ out
  /\ (forall y, In y out -> In y s \/ quoted price_data y)
  /\ (forall y, In y s -> In y out)
  /\ (forall x, quoted price_data x -> exists y, In y out /\ y == x).
Proof.
  induction price_data as [|p pd IH]; intros s P; cbn [fold_left].
  - repeat split; auto. intros x [q [[] _]].
  - destruct (fold_set_add (Prices.values p) s P) as [P1 [A1 [A2 A3]]].
    destruct (IH _ P1) as [P2 [B1 [B2 B3]]].
    repeat split; auto.
    + intros y H. apply B1 in H. destruct H as [H|[q [Hq Hy]]].
      * apply A1 in H. destruct H as [H|H]; [now left|].
        right. exists p. split; [now left | exact H].
      * right. exists q. split; [now right | exact Hy].
    + intros x [q [[Hq|Hq] Hx]].
      * subst q. destruct (A3 x Hx) as [y [Hy E]]. exists y. split; auto.
      * apply B3. exists q. auto.
Qed.

Lemma insert_sorted_in (x : float) (l : list float) (y : float) :
  In y (insert_sorted x l) <-> y = x \/ In y l.
Proof.
  induction l as [|a l IH]; simpl.
  - intuition.
  - destruct (fle x a); simpl; [intuition|]. rewrite IH. intuition.
Qed.

Lemma sorted_in (l : list float) (y : float) : In y (sorted l) <-> In y l.
Proof.
  induction l as [|a l IH]; simpl; [reflexivity|].
  rewrite insert_sorted_in, IH. intuition.
Qed.

Lemma insert_sorted_strict (x : float) (l : list float) :
  StronglySorted Qlt l -> Forall (fun y => differ y x) l ->
  StronglySorted Qlt (insert_sorted x l).
Proof.
  induction 1 as [|a l S IH Ha]; intros D; simpl.
  - repeat constructor.
  - inversion D as [|? ? Da Dl]; subst.
    destruct (fle x a) eqn:E.
    + apply fle_true in E.
      assert (L : x < a).
      { destruct (Qlt_le_dec x a) as [L|L]; [exact L|].
        exfalso. apply Da. lra. }
      constructor; [constructor; assumption|].
      constructor; [exact L|].
      rewrite Forall_forall in *. intros y Hy. specialize (Ha y Hy). lra.
    + assert (L : a < x).
      { destruct (Qlt_le_dec a x) as [L|L]; [exact L|].
        apply fle_true in L. congruence. }
      constructor; [now apply IH|].
      apply Forall_forall. intros y Hy.
      apply (proj1 (insert_sorted_in x l y)) in Hy. destruct Hy as [Hy|Hy].
      * now subst y.
      * rewrite Forall_forall in Ha. auto.
Qed.

Lemma sorted_strict (l : list float) :
  ForallOrdPairs differ l -> StronglySorted Qlt (sorted l).
Proof.
  induction 1 as [|a l Ha Hl IH]; simpl; [constructor|].
  apply insert_sorted_strict; [exact IH|].
  apply Forall_forall. intros y Hy. apply (proj1 (sorted_in l y)) in Hy.
  rewrite Forall_forall in Ha. intros E. apply (Ha y Hy). now symmetry.
Qed.

Lemma price_axis_facts (price_data : list Prices.t) :
  StronglySorted Qlt (price_points price_data)
  /\ (forall y, In y (price_points price_data) -> quoted price_data y)
  /\ (forall x, quoted price_data x ->
        exists y, In y (price_points price_data) /\ y == x).
Proof.
  unfold price_points, all_values.
  destruct (all_values_spec price_data [] (FOP_nil _)) as [P [A [_ B]]].
  split; [now apply sorted_strict|]. split.
  - intros y H. apply (proj1 (sorted_in _ y)) in H. apply A in H.
    destruct H as [[]|H]. exact H.
  - intros x H. destruct (B x H) as [y [Hy E]].
    exists y. split; [now apply (proj2 (sorted_in _ y)) | exact E].
Qed.

(** X6.  The price axis is strictly ascending (equal prices appear once),
    each of its points is a price some respondent quoted, and every
    quoted price is on it. *)
Theorem price_axis_strictly_ascending : forall price_data : list Prices.t,
  StronglySorted Qlt (price_points price_data)
  /\ (forall y, In y (price_points price_data) -> quoted price_data y)
  /\ (forall x, quoted price_data x ->
        exists y, In y (price_points price_data) /\ y == x).
Proof. exact price_axis_facts. Qed.

Lemma price_axis_strictly_ascending_witness :
  quoted [Prices.Mk 120 90 60 40; Prices.Mk 130 100 70 50] 70.
Proof.
  apply (proj1 (proj2 (price_axis_strictly_ascending
                         [Prices.Mk 120 90 60 40; Prices.Mk 130 100 70 50]))).
  vm_compute. tauto.
Defined.

(** *** The ends of the table *)

Lemma count_all (f : Prices.t -> bool) (price_data : list Prices.t) :
  (forall p, In p price_data -> f p = true) ->
  count f price_data = Z.of_nat (List.length price_data).
Proof.
  intros H. unfold count. f_equal.
  induction price_data as [|p pd IH]; simpl; [reflexivity|].
  rewrite (H p (or_introl eq_refl)). simpl. f_equal.
  apply IH. intros q Hq. apply H. now right.
Qed.

Lemma fraction_all (f : Prices.t -> bool) (price_data : list Prices.t) :
  price_data <> [] ->
  (forall p, In p price_data -> f p = true) ->
  round (fraction f price_data (Z.of_nat (List.length price_data))) 4 == 1.
Proof.
  intros N H. unfold fraction. rewrite (count_all f price_data H).
  rewrite <- (round_Z 1 4). apply SentimentExtras.round_comp.
  change (inject_Z 1) with 1. field.
  intros C. unfold Qeq in C. cbn [Qnum Qden inject_Z] in C.
  destruct price_data; [congruence | simpl in C; lia].
Qed.

Lemma strict_head_least (x : float) (l : list float) :
  StronglySorted Qlt (x :: l) -> forall y, In y (x :: l) -> x <= y.
Proof.
  intros S y [H|H].
  - subst y. lra.
  - inversion S as [|? ? _ F]; subst. rewrite Forall_forall in F.
    specialize (F y H). lra.
Qed.

Lemma strict_last_greatest (front : list float) (z : float) :
  StronglySorted Qlt (front ++ [z]) -> forall y, In y (front ++ [z]) -> y <= z.
Proof.
  induction front as [|a front IH]; simpl; intros S y H.
  - destruct H as [H|[]]. subst y. lra.
  - inversion S as [|? ? S' F]; subst. destruct H as [H|H].
    + subst y. rewrite Forall_forall in F.
      assert (L : a < z) by (apply F, in_or_app; right; now left). lra.
    + now apply IH.
Qed.

Lemma row_of_fields (price_data : list Prices.t) (n : Z) (price : float) :
  Row.price (row_of price_data n price) = price
  /\ Row.too_cheap (row_of price_data n price)
     = round (fraction (fun p => fle price (Prices.too_cheap p)) price_data n) 4
  /\ Row.bargain (row_of price_data n price)
     = round (fraction (fun p => fle price (Prices.bargain p)) price_data n) 4
  /\ Row.expensive (row_of price_data n price)
     = round (fraction (fun p => fle (Prices.expensive p) price) price_data n) 4
  /\ Row.too_expensive (row_of price_data n price)
     = round (fraction (fun p => fle (Prices.too_expensive p) price) price_data n) 4.
Proof. repeat split. Qed.

Lemma quoted_fields (price_data : list Prices.t) (p : Prices.t) :
  In p price_data ->
  quoted price_data (Prices.too_expensive p)
  /\ quoted price_data (Prices.expensive p)
  /\ quoted price_data (Prices.bargain p)
  /\ quoted price_data (Prices.too_cheap p).
Proof.
  intros H. repeat split; exists p; (split; [exact H | simpl; tauto]).
Qed.

(** X7.  The table starts and ends saturated: in its first row (the
    lowest quoted price) the too_cheap and bargain fractions are 1, and in
    its last row (the highest quoted price) the expensive and
    too_expensive fractions are 1. *)
Theorem cumulative_table_ends : forall (price_data : list Prices.t) (d : vw_dict),
  _calculate_intersections price_data = Ok d ->
  exists first last,
    hd_error (cumulative_data d) = Some first
    /\ hd_error (rev (cumulative_data d)) = Some last
    /\ Row.too_cheap first == 1 /\ Row.bargain first == 1
    /\ Row.expensive last == 1 /\ Row.too_expensive last == 1.
Proof.
  intros price_data d H.
  assert (N : price_data <> []).
  { intros E. subst. vm_compute in H. discriminate. }
  destruct (calculate_intersections_ok price_data N) as [d' [E [C _]]].
  rewrite E in H. inversion H; subst d'. clear H.
  destruct (price_axis_facts price_data) as [S [A B]].
  pose proof (price_points_nonempty price_data N) as Np.
  set (n := Z.of_nat (List.length price_data)) in *.
  assert (Least : forall x, quoted price_data x ->
            forall p0 l, price_points price_data = p0 :: l -> p0 <= x).
  { intros x Q p0 l El. destruct (B x Q) as [y [Hy Ey]].
    rewrite El in S, Hy. pose proof (strict_head_least p0 l S y Hy). lra. }
  assert (Greatest : forall x, quoted price_data x ->
            forall z front, price_points price_data = (front ++ [z])%list ->
            x <= z).
  { intros x Q z front El. destruct (B x Q) as [y [Hy Ey]].
    rewrite El in S, Hy. pose proof (strict_last_greatest front z S y Hy). lra. }
  destruct (price_points price_data) as [|p0 l] eqn:El; [congruence|].
  destruct (rev (p0 :: l)) as [|z r] eqn:Er.
  { apply (f_equal (@rev float)) in Er. rewrite rev_involutive in Er.
    discriminate. }
  assert (Ef : (p0 :: l = rev r ++ [z])%list).
  { rewrite <- (rev_involutive (p0 :: l)), Er. reflexivity. }
  exists (row_of price_data n p0), (row_of price_data n z).
  rewrite C. split; [reflexivity|]. split.
  { rewrite <- map_rev, Er. reflexivity. }
  destruct (row_of_fields price_data n p0) as [_ [T1 [T2 _]]].
  destruct (row_of_fields price_data n z) as [_ [_ [_ [T3 T4]]]].
  rewrite T1, T2, T3, T4.
  repeat split; apply fraction_all; auto; intros p Hp; apply fle_true;
    destruct (quoted_fields price_data p Hp) as [Q1 [Q2 [Q3 Q4]]].
  - exact (Least _ Q4 p0 l eq_refl).
  - exact (Least _ Q3 p0 l eq_refl).
  - exact (Greatest _ Q2 z (rev r) Ef).
  - exact (Greatest _ Q1 z (rev r) Ef).
Qed.

Lemma cumulative_table_ends_witness :
  exists d first,
    _calculate_intersections [Prices.Mk 9 7 5 2; Prices.Mk 8 8 3 3] = Ok d
    /\ hd_error (cumulative_data d) = Some first
    /\ Row.too_cheap first == 1.
Proof.
  destruct (_calculate_intersections [Prices.Mk 9 7 5 2; Prices.Mk 8 8 3 3])
    as [d|] eqn:E; [|vm_compute in E; discriminate].
  destruct (cumulative_table_ends _ d E) as [first [last [F [_ [T _]]]]].
  exists d, first. auto.
Defined.

(** *** The intersection points lie among the quoted prices *)

Lemma round_idem (x : float) (n : nat) : round (round x n) n == round x n.
Proof.
  unfold round at 1 3.
  pose proof (inject_pow10_pos n) as P.
  rewrite (round_half_even_comp
             (round x n * inject_Z (pow10 n))
             (inject_Z (round_half_even (x * inject_Z (pow10 n))))).
  - now rewrite round_half_even_Z.
  - unfold round. field. lra.
Qed.

Lemma sign_change (d1 d2 : Q) :
  d1 * d2 < 0 -> (d1 < 0 /\ 0 < d2) \/ (d2 < 0 /\ 0 < d1).
Proof.
  intros H.
  destruct (Qlt_le_dec d1 0) as [A|A]; destruct (Qlt_le_dec 0 d2) as [B|B].
  - now left.
  - exfalso. assert (0 <= (- d1) * (- d2)) by (apply Qmult_le_0_compat; lra).
    assert ((- d1) * (- d2) == d1 * d2) by ring. lra.
  - exfalso. assert (0 <= d1 * d2) by (apply Qmult_le_0_compat; lra). lra.
  - right. split.
    + destruct (Qeq_dec d2 0) as [E|E]; [|lra].
      exfalso. rewrite E in H. assert (d1 * 0 == 0) by ring. lra.
    + destruct (Qeq_dec d1 0) as [E|E]; [|lra].
      exfalso. rewrite E in H. assert (0 * d2 == 0) by ring. lra.
Qed.

(** The interpolation fraction of a sign change lies in [0, 1]. *)
Lemma fraction_of_crossing (a1 b1 a2 b2 t : Q) :
  (a1 - b1) * (a2 - b2) < 0 ->
  fdiv (b1 - a1) (a2 - a1 - (b2 - b1)) = Ok t ->
  0 <= t <= 1.
Proof.
  intros S H. unfold fdiv in H.
  destruct (feq (a2 - a1 - (b2 - b1)) 0) eqn:Z; [discriminate|].
  inversion H; subst t. clear H.
  assert (Nz : ~ a2 - a1 - (b2 - b1) == 0).
  { intros E. apply feq_true in E. congruence. }
  destruct (sign_change _ _ S) as [[A B]|[A B]].
  - assert (D : 0 < a2 - a1 - (b2 - b1)) by lra. split.
    + apply Qle_shift_div_l; [exact D | lra].
    + apply Qle_shift_div_r; [exact D | lra].
  - assert (D : 0 < - (a2 - a1 - (b2 - b1))) by lra.
    assert (E : (b1 - a1) / (a2 - a1 - (b2 - b1))
                == (a1 - b1) / - (a2 - a1 - (b2 - b1))).
    { field. repeat split; intros C; apply Nz; lra. }
    rewrite E. split.
    + apply Qle_shift_div_l; [exact D | lra].
    + apply Qle_shift_div_r; [exact D | lra].
Qed.

Lemma convex_between (lo hi p1 p2 t : Q) :
  0 <= t <= 1 -> lo <= p1 <= hi -> lo <= p2 <= hi ->
  lo <= p1 + t * (p2 - p1) <= hi.
Proof.
  intros [T0 T1] [L1 H1] [L2 H2].
  assert (A : 0 <= t * (p2 - lo)) by (apply Qmult_le_0_compat; lra).
  assert (B : 0 <= (1 - t) * (p1 - lo)) by (apply Qmult_le_0_compat; lra).
  assert (C : 0 <= t * (hi - p2)) by (apply Qmult_le_0_compat; lra).
  assert (D : 0 <= (1 - t) * (hi - p1)) by (apply Qmult_le_0_compat; lra).
  assert (E1 : p1 + t * (p2 - p1) - lo == t * (p2 - lo) + (1 - t) * (p1 - lo))
    by ring.
  assert (E2 : hi - (p1 + t * (p2 - p1)) == t * (hi - p2) + (1 - t) * (hi - p1))
    by ring.
  split; lra.
Qed.

(** Whatever [_find_intersection] returns lies, up to the rounding to
    cents, between any two bounds of the prices of the table. *)
Lemma find_intersection_between (lo hi : float) (a b : curve)
    (table : list Row.t) :
  Forall (fun r => lo <= Row.price r <= hi) table ->
  forall v, _find_intersection table a b = Ok (Some v) ->
    round lo 2 <= v <= round hi 2.
Proof.
  induction table as [|r1 rest IH]; intros F v H; [discriminate|].
  inversion F as [|? ? B1 Frest]; subst.
  destruct rest as [|r2 rest].
  - simpl in H. destruct (flt _ eps10); [|discriminate].
    inversion H; subst. split; apply round_mono; lra.
  - cbn [_find_intersection] in H.
    inversion Frest as [|? ? B2 _]; subst.
    destruct (flt ((get r1 a - get r1 b) * (get r2 a - get r2 b)) 0) eqn:S.
    + apply flt_true in S.
      destruct (flt (fabs (get r2 a - get r1 a - (get r2 b - get r1 b))) eps10).
      * inversion H; subst. split; apply round_mono.
        -- apply Qle_shift_div_l; lra.
        -- apply Qle_shift_div_r; lra.
      * destruct (fdiv (get r1 b - get r1 a)
                       (get r2 a - get r1 a - (get r2 b - get r1 b)))
          as [t|] eqn:D; [|discriminate].
        cbn [bind] in H. inversion H; subst.
        pose proof (fraction_of_crossing _ _ _ _ _ S D) as T.
        pose proof (convex_between lo hi _ _ t T B1 B2).
        split; apply round_mono; lra.
    + destruct (flt (fabs (get r1 a - get r1 b)) eps10).
      * inversion H; subst. split; apply round_mono; lra.
      * now apply IH.
Qed.

Lemma point_between (lo hi : float) (a b : curve) (table : list Row.t)
    (v : option float) :
  Forall (fun r => lo <= Row.price r <= hi) table ->
  _find_intersection table a b = Ok v ->
  point_within (round lo 2) (round hi 2) v.
Proof.
  intros F H. destruct v as [x|]; simpl; [|exact I].
  eapply find_intersection_between; eauto.
Qed.

(** X8.  The result stays among the quoted prices: if every quoted price
    lies between [lo] and [hi], then so do, up to the rounding to cents,
    the four intersection points and both ends of the acceptable range. *)
Theorem intersections_within_quoted_prices :
  forall (price_data : list Prices.t) (d : vw_dict) (lo hi : float),
    (forall x, quoted price_data x -> lo <= x <= hi) ->
    _calculate_intersections price_data = Ok d ->
    result_within (round lo 2) (round hi 2) d.
Proof.
  intros price_data d lo hi Q H.
  assert (N : price_data <> []).
  { intros E. subst. vm_compute in H. discriminate. }
  destruct (price_axis_facts price_data) as [_ [A _]].
  unfold _calculate_intersections in H.
  rewrite (cumulative_ok _ N) in H. cbn [bind] in H.
  set (table := map _ _) in H.
  assert (F : Forall (fun r => lo <= Row.price r <= hi) table).
  { apply Forall_forall. intros r Hr. apply in_map_iff in Hr.
    destruct Hr as [x [Er Hx]]. subst r.
    destruct (row_of_fields price_data
                (Z.of_nat (List.length price_data)) x) as [P _].
    rewrite P. auto. }
  destruct (_find_intersection table too_expensive too_cheap) as [v1|] eqn:E1;
    [|discriminate].
  destruct (_find_intersection table expensive bargain) as [v2|] eqn:E2;
    [|discriminate].
  destruct (_find_intersection table too_cheap expensive) as [v3|] eqn:E3;
    [|discriminate].
  destruct (_find_intersection table too_expensive bargain) as [v4|] eqn:E4;
    [|discriminate].
  cbn [bind] in H.
  pose proof (point_between lo hi _ _ _ _ F E1) as W1.
  pose proof (point_between lo hi _ _ _ _ F E2) as W2.
  pose proof (point_between lo hi _ _ _ _ F E3) as W3.
  pose proof (point_between lo hi _ _ _ _ F E4) as W4.
  assert (Ax : forall l x, (first_item l = Ok x \/ last_item l = Ok x) ->
                           In x l).
  { intros l x [G|G].
    - destruct l; [discriminate|]. inversion G. now left.
    - unfold last_item in G. destruct (rev l) eqn:R; [discriminate|].
      inversion G; subst. apply in_rev. rewrite R. now left. }
  assert (Lo : forall low,
            match v3 with Some v => Ok v
            | None => first_item (price_points price_data) end = Ok low ->
            round lo 2 <= round low 2 <= round hi 2).
  { intros low G. destruct v3 as [v|].
    - inversion G; subst. simpl in W3.
      rewrite <- (round_idem lo 2), <- (round_idem hi 2).
      split; apply round_mono; lra.
    - assert (I : In low (price_points price_data)) by (apply Ax; now left).
      specialize (Q low (A low I)). split; apply round_mono; lra. }
  assert (Hi : forall high,
            match v4 with Some v => Ok v
            | None => last_item (price_points price_data) end = Ok high ->
            round lo 2 <= round high 2 <= round hi 2).
  { intros high G. destruct v4 as [v|].
    - inversion G; subst. simpl in W4.
      rewrite <- (round_idem lo 2), <- (round_idem hi 2).
      split; apply round_mono; lra.
    - assert (I : In high (price_points price_data)) by (apply Ax; now right).
      specialize (Q high (A high I)). split; apply round_mono; lra. }
  destruct (match v3 with Some v => Ok v
            | None => first_item (price_points price_data) end)
    as [low|] eqn:EL; [|discriminate].
  destruct (match v4 with Some v => Ok v
            | None => last_item (price_points price_data) end)
    as [high|] eqn:EH; [|discriminate].
  cbn [bind] in H. inversion H; subst d. clear H.
  unfold result_within. simpl.
  repeat split; auto; try apply (Lo low eq_refl); try apply (Hi high eq_refl).
Qed.

Lemma intersections_within_quoted_prices_witness :
  exists d,
    _calculate_intersections [Prices.Mk 120 90 60 40; Prices.Mk 130 100 70 50]
    = Ok d
    /\ result_within (round 40 2) (round 130 2) d.
Proof.
  destruct (_calculate_intersections
              [Prices.Mk 120 90 60 40; Prices.Mk 130 100 70 50])
    as [d|] eqn:E; [|vm_compute in E; discriminate].
  exists d. split; [reflexivity|].
  apply (intersections_within_quoted_prices
           [Prices.Mk 120 90 60 40; Prices.Mk 130 100 70 50] d 40 130);
    [|exact E].
  intros x [p [[Hp|[Hp|[]]] Hx]]; subst p; simpl in Hx;
    repeat (destruct Hx as [Hx|Hx]; [subst x; split; vm_compute; discriminate|]);
    contradiction.
Defined.

End EngineExtras.

(* ================================================================== *)
(** ** van_westendorp.py: the breakdown by archetype *)

Module BreakdownExtras.

Import VanWestendorp Vocabulary Notions.
Import ParserFacts IntersectionFacts CalculateFacts.

Lemma find_key_append (d : list (string * list Prices.t)) (k k' : string)
    (v : Prices.t) :
  find_key (dict_append d k v) k'
  = if String.eqb k k' then Some (group_of d k ++ [v]) else find_key d k'.
Proof.
  unfold group_of. induction d as [|[k0 l] d IH]; simpl.
  - reflexivity.
  - destruct (String.eqb k0 k) eqn:E0; simpl.
    + apply String.eqb_eq in E0. subst k0.
      destruct (String.eqb k k'); reflexivity.
    + rewrite IH. destruct (String.eqb k k') eqn:E1.
      * apply String.eqb_eq in E1. subst k'. now rewrite E0.
      * reflexivity.
Qed.

Lemma group_append (d : list (string * list Prices.t)) (k k' : string)
    (v : Prices.t) :
  group_of (dict_append d k v) k'
  = group_of d k' ++ (if String.eqb k k' then [v] else []).
Proof.
  unfold group_of at 1. rewrite find_key_append.
  destruct (String.eqb k k') eqn:E.
  - apply String.eqb_eq in E. now subst k'.
  - fold (group_of d k'). now rewrite app_nil_r.
Qed.

Lemma keys_append (d : list (string * list Prices.t)) (k : string)
    (v : Prices.t) :
  forall x, In x (map fst (dict_append d k v)) <-> x = k \/ In x (map fst d).
Proof.
  induction d as [|[k0 l] d IH]; intros x; simpl.
  - intuition.
  - destruct (String.eqb k0 k) eqn:E; simpl.
    + apply String.eqb_eq in E. subst k0. intuition.
    + rewrite IH. intuition.
Qed.

Lemma nodup_append (d : list (string * list Prices.t)) (k : string)
    (v : Prices.t) :
  NoDup (map fst d) -> NoDup (map fst (dict_append d k v)).
Proof.
  induction d as [|[k0 l] d IH]; simpl; intros N.
  - repeat constructor. intros [].
  - inversion N as [|? ? Nk Nd]; subst.
    destruct (String.eqb k0 k) eqn:E; simpl.
    + constructor; assumption.
    + constructor; [|auto]. intros H. apply keys_append in H.
      destruct H as [H|H]; [|contradiction].
      subst k0. rewrite String.eqb_refl in E. discriminate.
Qed.

Lemma nonempty_append (d : list (string * list Prices.t)) (k : string)
    (v : Prices.t) :
  Forall (fun kv => snd kv <> []) d ->
  Forall (fun kv => snd kv <> []) (dict_append d k v).
Proof.
  induction 1 as [|[k0 l] d Hl Hd IH]; simpl.
  - repeat constructor. simpl. discriminate.
  - destruct (String.eqb k0 k); constructor; auto.
    simpl. destruct l; discriminate.
Qed.

(** What the loop over [results] leaves in [by_archetype]. *)
Lemma collect_groups (results : list Result.t) :
  forall ap ba ap' ba',
    foldM collect_step results (ap, ba) = Ok (ap', ba') ->
    (forall a, group_of ba' a = group_of ba a ++ quadruples_in a results)
    /\ (NoDup (map fst ba) -> NoDup (map fst ba'))
    /\ (Forall (fun kv => snd kv <> []) ba ->
        Forall (fun kv => snd kv <> []) ba').
Proof.
  induction results as [|r rs IH]; intros ap ba ap' ba' H; cbn [foldM] in H.
  - inversion H; subst. repeat split; auto.
    intros a. simpl. now rewrite app_nil_r.
  - rewrite collect_step_eq in H. cbn [bind fst snd] in H.
    unfold quadruples_in. cbn [flat_map]. fold (quadruples_in).
    destruct (quadruple_of r) as [p|].
    + apply IH in H. destruct H as [G [N F]].
      repeat split.
      * intros a. rewrite (G a), group_append, <- app_assoc. reflexivity.
      * intros Nb. now apply N, nodup_append.
      * intros Fb. now apply F, nonempty_append.
    + apply IH in H. exact H.
Qed.

Lemma find_key_in {V : Type} (d : list (string * V)) (k : string) (v : V) :
  NoDup (map fst d) -> (In (k, v) d <-> find_key d k = Some v).
Proof.
  induction d as [|[k0 v0] d IH]; simpl; intros N.
  - split; [intros [] | discriminate].
  - inversion N as [|? ? Nk Nd]; subst.
    destruct (String.eqb k0 k) eqn:E.
    + apply String.eqb_eq in E. subst k0. split.
      * intros [H|H]; [now inversion H|].
        exfalso. apply Nk. apply in_map_iff. exists (k, v). auto.
      * intros H. inversion H. now left.
    + rewrite <- (IH Nd). split.
      * intros [H|H]; [|exact H]. inversion H; subst.
        rewrite String.eqb_refl in E. discriminate.
      * auto.
Qed.

Lemma dict_set_fresh {V : Type} (d : list (string * V)) (k : string) (v : V) :
  ~ In k (map fst d) -> dict_set d k v = d ++ [(k, v)].
Proof.
  induction d as [|[k0 v0] d IH]; simpl; intros N; [reflexivity|].
  destruct (String.eqb k0 k) eqn:E.
  - apply String.eqb_eq in E. subst k0. exfalso. apply N. now left.
  - rewrite IH; [reflexivity|]. intros H. apply N. now right.
Qed.

(** What the loop over [by_archetype.items()] builds. *)
Lemma archetype_entries (ba : list (string * list Prices.t)) :
  NoDup (map fst ba) ->
  forall acc ar,
    NoDup (map fst acc) ->
    (forall k, In k (map fst acc) -> ~ In k (map fst ba)) ->
    foldM archetype_step ba acc = Ok ar ->
    NoDup (map fst ar)
    /\ (forall k, In k (map fst ar) -> In k (map fst acc) \/ In k (map fst ba))
    /\ forall a pts,
         In (a, pts) ar <->
         In (a, pts) acc
         \/ exists l d', In (a, l) ba /\ (2 <= List.length l)%nat
                         /\ _calculate_intersections l = Ok d'
                         /\ pts = points_of d'.
Proof.
  induction ba as [|[k l] ba IH]; intros N acc ar Na D H; cbn [foldM] in H.
  - inversion H; subst. repeat split; auto.
    intros [I|[l0 [d' [[] _]]]]. exact I.
  - inversion N as [|? ? Nk Nb]; subst.
    unfold archetype_step at 1 in H.
    destruct (2 <=? List.length l)%nat eqn:L.
    + destruct (_calculate_intersections l) as [d0|] eqn:C; [|discriminate].
      cbn [bind] in H.
      assert (Fr : ~ In k (map fst acc)).
      { intros I. apply (D k I). now left. }
      rewrite (dict_set_fresh acc k _ Fr) in H.
      apply IH in H; auto.
      * destruct H as [Nar [K E]]. repeat split; auto.
        -- intros x Hx. apply K in Hx. rewrite map_app, in_app_iff in Hx.
           simpl in *. intuition.
        -- intros I. apply E in I. destruct I as [I|[l0 [d' [I R]]]].
           ++ apply in_app_or in I. destruct I as [I|[I|[]]]; [now left|].
              inversion I; subst. right. exists l, d0.
              apply Nat.leb_le in L. repeat split; auto. now left.
           ++ right. exists l0, d'. split; [now right | exact R].
        -- intros [I|[l0 [d' [[I|I] [L0 [C0 P]]]]]]; apply E.
           ++ left. apply in_or_app. now left.
           ++ inversion I; subst. left. apply in_or_app. right. left.
              rewrite C in C0. inversion C0. reflexivity.
           ++ right. exists l0, d'. auto.
      * rewrite map_app. simpl. apply NoDup_app_remove_l with (l := []).
        simpl. apply Permutation.Permutation_NoDup with (l := k :: map fst acc).
        -- apply Permutation.Permutation_cons_append.
        -- constructor; assumption.
      * intros x Hx Hb. rewrite map_app, in_app_iff in Hx. simpl in Hx.
        destruct Hx as [Hx|[Hx|[]]].
        -- apply (D x Hx). now right.
        -- subst x. contradiction.
    + cbn [bind] in H. apply IH in H; auto.
      * destruct H as [Nar [K E]]. repeat split; auto.
        -- intros x Hx. apply K in Hx. simpl. intuition.
        -- intros I. apply E in I. destruct I as [I|[l0 [d' [I R]]]];
             [now left|].
           right. exists l0, d'. split; [now right | exact R].
        -- intros [I|[l0 [d' [[I|I] [L0 [C0 P]]]]]]; apply E.
           ++ now left.
           ++ inversion I; subst. apply Nat.leb_gt in L. lia.
           ++ right. exists l0, d'. auto.
      * intros x Hx Hb. apply (D x Hx). now right.
Qed.

Lemma quadruples_in_length (a : string) (results : list Result.t) :
  (List.length (quadruples_in a results)
   <= List.length (valid_quadruples results))%nat.
Proof.
  unfold quadruples_in, valid_quadruples.
  induction results as [|r rs IH]; simpl; [lia|].
  rewrite !length_app.
  destruct (quadruple_of r); [|simpl; lia].
  destruct (String.eqb (archetype_of r) a); simpl; lia.
Qed.

(** X9.  The breakdown by archetype holds one entry for each archetype
    with at least two valid quadruples and none for the others; the entry
    of an archetype is what the engine finds on the quadruples of that
    archetype alone, taken in input order.  (A result without an
    archetype_name counts under "unknown".) *)
Theorem by_archetype_entries :
  forall (results : list Result.t) (d : vw_dict),
    calculate_van_westendorp results = Ok d ->
    exists ar,
      by_archetype d = Some ar
      /\ NoDup (map fst ar)
      /\ forall a pts,
           In (a, pts) ar <->
           (2 <= List.length (quadruples_in a results))%nat
           /\ exists d',
                _calculate_intersections (quadruples_in a results) = Ok d'
                /\ pts = points_of d'.
Proof.
  intros results d H. unfold calculate_van_westendorp in H.
  destruct (foldM collect_step results ([], [])) as [[ap ba]|] eqn:C;
    [|discriminate].
  cbn [bind] in H.
  destruct (collect_all results [] []) as [ba0 C0]. rewrite C in C0.
  inversion C0; subst ap ba0. clear C0.
  destruct (collect_groups results _ _ _ _ C) as [G [N F]].
  specialize (N (NoDup_nil _)). specialize (F (Forall_nil _)).
  destruct (List.length (valid_quadruples results) <? 2)%nat eqn:L.
  - inversion H; subst d. exists []. split; [reflexivity|].
    split; [constructor|]. intros a pts. split; [intros []|].
    intros [L2 _]. apply Nat.ltb_lt in L.
    pose proof (quadruples_in_length a results). lia.
  - destruct (_calculate_intersections (valid_quadruples results))
      as [overall|]; [|discriminate].
    cbn [bind] in H.
    destruct (foldM archetype_step ba []) as [ar|] eqn:A; [|discriminate].
    cbn [bind] in H. inversion H; subst d. clear H.
    exists ar. split; [reflexivity|].
    destruct (archetype_entries ba N [] ar (NoDup_nil _)
                (fun k (I : In k []) => False_ind _ I) A) as [Nar [_ E]].
    split; [exact Nar|]. intros a pts. rewrite E.
    assert (Key : forall l, In (a, l) ba ->
                            l = quadruples_in a results).
    { intros l I. apply (find_key_in ba a l N) in I.
      specialize (G a). unfold group_of in G. rewrite I in G. exact G. }
    split.
    + intros [[]|[l [d' [I [L2 [Cd P]]]]]].
      rewrite (Key l I) in *. eauto.
    + intros [L2 [d' [Cd P]]]. right.
      exists (quadruples_in a results), d'. repeat split; auto.
      apply (find_key_in ba a _ N).
      specialize (G a). unfold group_of in G. simpl in G.
      destruct (find_key ba a) as [l|] eqn:Fk.
      * now rewrite G.
      * rewrite <- G in L2. simpl in L2. lia.
Qed.

Lemma by_archetype_entries_witness :
  exists d ar pts,
    calculate_van_westendorp
      [ Samples.answered "TOO_EXPENSIVE: 12 EXPENSIVE: 9 BARGAIN: 6 TOO_CHEAP: 4" "Buyer";
        Samples.answered "TOO_EXPENSIVE: 20 EXPENSIVE: 15 BARGAIN: 10 TOO_CHEAP: 5" "Seller";
        Samples.answered "TOO_EXPENSIVE: 13 EXPENSIVE: 10 BARGAIN: 7 TOO_CHEAP: 5" "Buyer" ]
    = Ok d
    /\ by_archetype d = Some ar
    /\ In ("Buyer"%string, pts) ar
    /\ ~ In ("Seller"%string, pts) ar.
Proof.
  destruct (calculate_van_westendorp
      [ Samples.answered "TOO_EXPENSIVE: 12 EXPENSIVE: 9 BARGAIN: 6 TOO_CHEAP: 4" "Buyer";
        Samples.answered "TOO_EXPENSIVE: 20 EXPENSIVE: 15 BARGAIN: 10 TOO_CHEAP: 5" "Seller";
        Samples.answered "TOO_EXPENSIVE: 13 EXPENSIVE: 10 BARGAIN: 7 TOO_CHEAP: 5" "Buyer" ])
    as [d|] eqn:E; [|vm_compute in E; discriminate].
  destruct (by_archetype_entries _ d E) as [ar [B [_ I]]].
  destruct (_calculate_intersections
              (quadruples_in "Buyer"
                 [ Samples.answered "TOO_EXPENSIVE: 12 EXPENSIVE: 9 BARGAIN: 6 TOO_CHEAP: 4" "Buyer";
                   Samples.answered "TOO_EXPENSIVE: 20 EXPENSIVE: 15 BARGAIN: 10 TOO_CHEAP: 5" "Seller";
                   Samples.answered "TOO_EXPENSIVE: 13 EXPENSIVE: 10 BARGAIN: 7 TOO_CHEAP: 5" "Buyer" ]))
    as [d'|] eqn:Cd; [|vm_compute in Cd; discriminate].
  exists d, ar, (points_of d'). split; [reflexivity|]. split; [exact B|].
  split.
  - apply I. split; [vm_compute; lia|]. exists d'. auto.
  - intros H. apply I in H. destruct H as [L _]. vm_compute in L. lia.
Defined.

(** X10.  The overall analysis depends on the valid quadruples only: two
    lists of results with the same valid quadruples in the same order
    (whatever their archetype names, failed results and unparseable
    responses) give the same four points, the same acceptable range and
    the same cumulative table. *)
Theorem overall_depends_on_valid_quadruples :
  forall (results1 results2 : list Result.t) (d1 d2 : vw_dict),
    valid_quadruples results1 = valid_quadruples results2 ->
    calculate_van_westendorp results1 = Ok d1 ->
    calculate_van_westendorp results2 = Ok d2 ->
    points_of d1 = points_of d2
    /\ acceptable_price_range d1 = acceptable_price_range d2
    /\ cumulative_data d1 = cumulative_data d2.
Proof.
  intros results1 results2 d1 d2 V H1 H2.
  destruct (calculate_shape results1) as [A1 B1].
  destruct (calculate_shape results2) as [A2 B2].
  rewrite <- V in A2, B2.
  destruct (Nat.lt_ge_cases (List.length (valid_quadruples results1)) 2)
    as [L|L].
  - rewrite (A1 L) in H1. rewrite (A2 L) in H2.
    inversion H1; inversion H2; subst. auto.
  - destruct (B1 L) as [o1 [ar1 [E1 C1]]].
    destruct (B2 L) as [o2 [ar2 [E2 C2]]].
    rewrite E1 in E2. inversion E2; subst o2.
    rewrite C1 in H1. rewrite C2 in H2.
    inversion H1; inversion H2; subst. auto.
Qed.

Lemma overall_depends_on_valid_quadruples_witness :
  exists d1 d2,
    calculate_van_westendorp
      [ Samples.answered "TOO_EXPENSIVE: 12 EXPENSIVE: 9 BARGAIN: 6 TOO_CHEAP: 4" "Buyer";
        Samples.failed "APITimeoutError: Request timed out.";
        Samples.answered "TOO_EXPENSIVE: 13 EXPENSIVE: 10 BARGAIN: 7 TOO_CHEAP: 5" "Buyer" ]
    = Ok d1
    /\ calculate_van_westendorp
         [ Samples.answered "too expensive: 12; expensive: 9; bargain: 6; too cheap: 4" "Seller";
           Samples.answered "TOO_EXPENSIVE: $13 EXPENSIVE: $10 BARGAIN: $7 TOO_CHEAP: $5" "Buyer";
           Samples.answered "no prices here" "Buyer" ]
       = Ok d2
    /\ points_of d1 = points_of d2.
Proof.
  destruct (calculate_total
      [ Samples.answered "TOO_EXPENSIVE: 12 EXPENSIVE: 9 BARGAIN: 6 TOO_CHEAP: 4" "Buyer";
        Samples.failed "APITimeoutError: Request timed out.";
        Samples.answered "TOO_EXPENSIVE: 13 EXPENSIVE: 10 BARGAIN: 7 TOO_CHEAP: 5" "Buyer" ])
    as [d1 [E1 _]].
  destruct (calculate_total
      [ Samples.answered "too expensive: 12; expensive: 9; bargain: 6; too cheap: 4" "Seller";
        Samples.answered "TOO_EXPENSIVE: $13 EXPENSIVE: $10 BARGAIN: $7 TOO_CHEAP: $5" "Buyer";
        Samples.answered "no prices here" "Buyer" ])
    as [d2 [E2 _]].
  exists d1, d2. split; [exact E1|]. split; [exact E2|].
  eapply overall_depends_on_valid_quadruples; [|exact E1 | exact E2].
  vm_compute. reflexivity.
Defined.

End BreakdownExtras.

(* ================================================================== *)
(** ** experiment_runner.py *)

Module RunnerExtras.

Import Runner Samples Notions.
Import SentimentFacts RoundFacts.
Local Open Scope string_scope.

(** X11.  A failure of the client never escapes [execute_persona]: the
    function returns a result exactly when the persona has its id, name
    and role keys, and the only exception it can raise is the KeyError of
    one of these three keys. *)
Theorem execute_persona_escapes :
  forall (start_time end_time : float) (client : client_t)
         (persona : Persona.t) (stimulus model : string)
         (temperature : float) (max_tokens : Z),
    ((exists r,
        execute_persona start_time end_time client persona stimulus model
                        temperature max_tokens = Ok r)
     <-> (Persona.id persona <> None /\ Persona.name persona <> None
          /\ Persona.role persona <> None))
    /\ (forall e,
          execute_persona start_time end_time client persona stimulus model
                          temperature max_tokens = Raise e ->
          e = KeyError "name" \/ e = KeyError "role" \/ e = KeyError "id").
Proof.
  intros start_time end_time client persona stimulus model temperature
         max_tokens.
  unfold execute_persona, build_persona_system_prompt.
  destruct (Persona.name persona) as [n|]; cbn [item bind].
  2:{ split.
      - split; [intros [r H]; discriminate | intros [_ [H _]]; congruence].
      - intros e H. inversion H. auto. }
  destruct (Persona.role persona) as [ro|]; cbn [item bind].
  2:{ split.
      - split; [intros [r H]; discriminate | intros [_ [_ H]]; congruence].
      - intros e H. inversion H. auto. }
  destruct (Persona.id persona) as [i|]; cbn [item bind].
  - split.
    + split; [intros _; repeat split; discriminate|]. intros _.
      destruct (client _) as [resp|e]; cbn [bind]; [|eauto].
      destruct (first_text resp); cbn [bind]; eauto.
    + intros e. destruct (client _) as [resp|e']; cbn [bind];
        [|discriminate].
      destruct (first_text resp); cbn [bind]; discriminate.
  - split.
    + split; [|intros [H _]; congruence].
      intros [r H]. destruct (client _) as [resp|e]; cbn [bind] in H;
        [|discriminate].
      destruct (first_text resp); cbn [bind] in H; discriminate.
    + intros e H. destruct (client _) as [resp|e']; cbn [bind] in H.
      * destruct (first_text resp); cbn [bind] in H; inversion H; auto.
      * inversion H; auto.
Qed.

Lemma execute_persona_escapes_witness :
  exists r,
    execute_persona 10 12 timing_out ada "Would you buy it?" "claude-haiku"
                    (7 # 10) 500 = Ok r.
Proof.
  apply (proj2 (proj1 (execute_persona_escapes 10 12 timing_out ada
                         "Would you buy it?" "claude-haiku" (7 # 10) 500))).
  repeat split; discriminate.
Defined.

Lemma sentiment_in_ball (text : string) :
  in_unit_ball (Sentiment.analyze_sentiment text).
Proof.
  unfold in_unit_ball. rewrite analyze_sentiment_eq.
  unfold Vocabulary.clamped_ratio.
  destruct (Z.eqb _ _); [lra | apply clamp_bounds].
Qed.



End RunnerExtras.

(* ================================================================== *)
(** ** app.py: the aggregator *)

Module AppExtras.

Import App Vocabulary Notions Samples AppFacts RoundFacts.
Local Open Scope string_scope.

Lemma filter_split {A} (f : A -> bool) (l : list A) :
  (List.length (filter f l) + List.length (filter (fun x => negb (f x)) l)
   = List.length l)%nat.
Proof.
  induction l as [|x l IH]; simpl; [reflexivity|].
  destruct (f x); simpl; lia.
Qed.

(** X13.  The aggregator counts every result once: successful_responses
    and failed_responses add up to the number of results, and
    total_personas is the number of personas. *)
Theorem metrics_counts :
  forall (start_time now : float) (personas : list Persona.t)
         (results : list Result.t) (m : metrics),
    aggregate start_time now personas results = Ok m ->
    (successful_responses m + failed_responses m = List.length results)%nat
    /\ total_personas m = List.length personas
    /\ successful_responses m
       = List.length (filter error_is_none results).
Proof.
  intros start_time now personas results m H.
  apply aggregate_inv in H. destruct H as [avg [arch [E _]]]. subst m.
  simpl. split; [apply filter_split | split; reflexivity].
Qed.

Lemma metrics_counts_witness :
  exists m,
    aggregate 100 103 [ada; ada]
      [answered "I love it." "Buyer"; failed "APITimeoutError: Request timed out."]
    = Ok m
    /\ (successful_responses m + failed_responses m = 2)%nat.
Proof.
  destruct (aggregate 100 103 [ada; ada]
              [answered "I love it." "Buyer";
               failed "APITimeoutError: Request timed out."])
    as [m|] eqn:E; [|vm_compute in E; discriminate].
  exists m. split; [reflexivity|].
  apply (proj1 (metrics_counts _ _ _ _ m E)).
Defined.

(** *** Token totals *)

Lemma add_tokens_sum (results : list Result.t) : forall acc : Z * Z,
  fold_left add_tokens results acc
  = ((fst acc + tokens_sum Tokens.input results)%Z,
     (snd acc + tokens_sum Tokens.output results)%Z).
Proof.
  unfold tokens_sum.
  induction results as [|r rs IH]; intros [i o]; cbn [fold_left map fold_right].
  - simpl. f_equal; lia.
  - rewrite IH. unfold add_tokens. cbn [fst snd]. f_equal; lia.
Qed.

Lemma tokens_sum_perm (key : Tokens.t -> option Z) (l1 l2 : list Result.t) :
  Permutation l1 l2 -> tokens_sum key l1 = tokens_sum key l2.
Proof. unfold tokens_sum. induction 1; simpl; lia. Qed.

Lemma filter_length_perm {A} (f : A -> bool) (l1 l2 : list A) :
  Permutation l1 l2 -> List.length (filter f l1) = List.length (filter f l2).
Proof.
  induction 1 as [|x l1 l2 P IH|x y l|l1 l2 l3 P1 IH1 P2 IH2]; simpl.
  - reflexivity.
  - destruct (f x); simpl; lia.
  - destruct (f x), (f y); reflexivity.
  - lia.
Qed.

(** X14.  total_tokens holds the sums of the input and of the output
    tokens of all results (a result without the counts adds nothing), and
    neither the totals nor the two counts depend on the order in which
    the results complete. *)
Theorem token_totals :
  forall (start_time now : float) (personas : list Persona.t)
         (results : list Result.t) (m : metrics),
    aggregate start_time now personas results = Ok m ->
    total_tokens m
    = (tokens_sum Tokens.input results, tokens_sum Tokens.output results)
    /\ forall (results' : list Result.t) (m' : metrics),
         Permutation results results' ->
         aggregate start_time now personas results' = Ok m' ->
         total_tokens m' = total_tokens m
         /\ successful_responses m' = successful_responses m
         /\ failed_responses m' = failed_responses m.
Proof.
  intros start_time now personas results m H.
  apply aggregate_inv in H. destruct H as [avg [arch [E _]]]. subst m.
  cbn [total_tokens successful_responses failed_responses].
  rewrite add_tokens_sum. cbn [fst snd]. split; [reflexivity|].
  intros results' m' P H'.
  apply aggregate_inv in H'. destruct H' as [avg' [arch' [E' _]]]. subst m'.
  cbn [total_tokens successful_responses failed_responses].
  rewrite add_tokens_sum. cbn [fst snd].
  rewrite (tokens_sum_perm Tokens.input _ _ P),
          (tokens_sum_perm Tokens.output _ _ P).
  repeat split; symmetry; now apply filter_length_perm.
Qed.

Lemma token_totals_witness :
  exists m,
    aggregate 100 103 [ada; ada]
      [answered "I love it." "Buyer"; failed "APITimeoutError: Request timed out."]
    = Ok m
    /\ total_tokens m = (120, 45)%Z.
Proof.
  destruct (aggregate 100 103 [ada; ada]
              [answered "I love it." "Buyer";
               failed "APITimeoutError: Request timed out."])
    as [m|] eqn:E; [|vm_compute in E; discriminate].
  exists m. split; [reflexivity|].
  rewrite (proj1 (token_totals _ _ _ _ m E)). reflexivity.
Defined.

(** *** No successful result *)

(** X15.  When no result succeeded (in particular on an empty list) the
    aggregator still returns: zero successful responses, every result
    counted as failed, avg_sentiment 0.0 and no archetype sentiment; the
    failed results need not even have a sentiment. *)
Theorem metrics_without_success :
  forall (start_time now : float) (personas : list Persona.t)
         (results : list Result.t),
    Forall (fun r => error_is_none r = false) results ->
    exists m,
      aggregate start_time now personas results = Ok m
      /\ successful_responses m = 0%nat
      /\ failed_responses m = List.length results
      /\ avg_sentiment m = 0%Q
      /\ archetype_sentiments m = [].
Proof.
  intros start_time now personas results F.
  assert (SN : filter error_is_none results = []
               /\ filter (fun r => negb (error_is_none r)) results = results).
  { induction F as [|r rs Hr _ [IH1 IH2]]; simpl; [auto|].
    rewrite Hr. simpl. split; [exact IH1 | now f_equal]. }
  destruct SN as [S N].
  unfold aggregate, compute_metrics. rewrite S, N. cbn.
  eexists. split; [reflexivity|]. simpl. auto.
Qed.

Lemma metrics_without_success_witness :
  exists m,
    aggregate 100 103 [ada]
      [failed "APITimeoutError: Request timed out."] = Ok m
    /\ avg_sentiment m = 0%Q /\ failed_responses m = 1%nat.
Proof.
  destruct (metrics_without_success 100 103 [ada]
              [failed "APITimeoutError: Request timed out."])
    as [m [E [_ [Fl [A _]]]]].
  - repeat constructor.
  - exists m. auto.
Defined.

(** *** Sentiments by archetype *)

Lemma find_key_gappend (d : list (string * list float)) (k k' : string)
    (v : float) :
  find_key (group_append d k v) k'
  = if String.eqb k k' then Some (scores_of d k ++ [v])%list
    else find_key d k'.
Proof.
  unfold scores_of. induction d as [|[k0 l] d IH]; simpl.
  - reflexivity.
  - destruct (String.eqb k0 k) eqn:E0; simpl.
    + apply String.eqb_eq in E0. subst k0.
      destruct (String.eqb k k'); reflexivity.
    + rewrite IH. destruct (String.eqb k k') eqn:E1.
      * apply String.eqb_eq in E1. subst k'. now rewrite E0.
      * reflexivity.
Qed.

Lemma scores_gappend (d : list (string * list float)) (k k' : string)
    (v : float) :
  scores_of (group_append d k v) k'
  = (scores_of d k' ++ (if String.eqb k k' then [v] else []))%list.
Proof.
  unfold scores_of at 1. rewrite find_key_gappend.
  destruct (String.eqb k k') eqn:E.
  - apply String.eqb_eq in E. now subst k'.
  - fold (scores_of d k'). now rewrite app_nil_r.
Qed.

Lemma keys_gappend (d : list (string * list float)) (k : string) (v : float) :
  forall x, In x (map fst (group_append d k v)) <-> x = k \/ In x (map fst d).
Proof.
  induction d as [|[k0 l] d IH]; intros x; simpl.
  - intuition.
  - destruct (String.eqb k0 k) eqn:E; simpl.
    + apply String.eqb_eq in E. subst k0. intuition.
    + rewrite IH. intuition.
Qed.

Lemma nodup_gappend (d : list (string * list float)) (k : string) (v : float) :
  NoDup (map fst d) -> NoDup (map fst (group_append d k v)).
Proof.
  induction d as [|[k0 l] d IH]; simpl; intros N.
  - repeat constructor. intros [].
  - inversion N as [|? ? Nk Nd]; subst.
    destruct (String.eqb k0 k) eqn:E; simpl.
    + constructor; assumption.
    + constructor; [|auto]. intros H. apply keys_gappend in H.
      destruct H as [H|H]; [|contradiction].
      subst k0. rewrite String.eqb_refl in E. discriminate.
Qed.

(** The sentiments of the results of archetype [a] in a list of
    successful results. *)
Lemma sentiments_in_filter (a : string) (results : list Result.t) :
  flat_map (fun r => if String.eqb (archetype_of r) a
                     then match Result.sentiment r with
                          | Some s => [s]
                          | None => []
                          end
                     else [])
           (filter error_is_none results)
  = sentiments_in a results.
Proof.
  unfold sentiments_in. induction results as [|r rs IH]; simpl; [reflexivity|].
  destruct (error_is_none r); simpl; now rewrite IH.
Qed.

Lemma groups_spec (rs : list Result.t) :
  forall d d',
    foldM group_step rs d = Ok d' ->
    (forall a,
       scores_of d' a
       = (scores_of d a
          ++ flat_map (fun r => if String.eqb (archetype_of r) a
                                then match Result.sentiment r with
                                     | Some s => [s]
                                     | None => []
                                     end
                                else [])
                      rs)%list)
    /\ (NoDup (map fst d) -> NoDup (map fst d'))
    /\ (Forall (fun kv => snd kv <> []) d ->
        Forall (fun kv => snd kv <> []) d').
Proof.
  induction rs as [|r rs IH]; intros d d' H; cbn [foldM] in H.
  - inversion H; subst. repeat split; auto.
    intros a. simpl. now rewrite app_nil_r.
  - unfold group_step at 1, sentiment_of in H.
    destruct (Result.sentiment r) as [s|] eqn:Es; [|discriminate].
    cbn [bind] in H. apply IH in H. destruct H as [G [N F]].
    repeat split.
    + intros a. rewrite (G a), scores_gappend. cbn [flat_map].
      rewrite Es. fold (archetype_of r). rewrite <- app_assoc. reflexivity.
    + intros Nd. now apply N, nodup_gappend.
    + intros Fd. now apply F, group_append_nonempty.
Qed.

Lemma means_spec (d : list (string * list float)) :
  forall l,
    mapM (fun item => m <- mean3 (snd item) ;; Ok (fst item, m)) d = Ok l ->
    map fst l = map fst d
    /\ forall a v, In (a, v) l <-> exists g, In (a, g) d /\ mean3 g = Ok v.
Proof.
  induction d as [|[k g] d IH]; intros l H; cbn [mapM] in H.
  - inversion H; subst. split; [reflexivity|].
    intros a v. split; [intros [] | intros [g [[] _]]].
  - cbn [fst snd] in H.
    destruct (mean3 g) as [mv|] eqn:M; [|discriminate]. cbn [bind] in H.
    destruct (mapM _ d) as [l0|] eqn:E; [|discriminate]. cbn [bind] in H.
    inversion H; subst l. destruct (IH l0 eq_refl) as [K I].
    split; [simpl; now rewrite K|].
    intros a v. simpl. rewrite I. split.
    + intros [H1|[g0 [H1 H2]]].
      * inversion H1; subst. exists g. auto.
      * exists g0. auto.
    + intros [g0 [[H1|H1] H2]].
      * inversion H1; subst. left. congruence.
      * right. exists g0. auto.
Qed.

Lemma archetype_sentiments_spec (start_time now : float)
    (personas : list Persona.t) (results : list Result.t) (m : metrics) :
  aggregate start_time now personas results = Ok m ->
  NoDup (map fst (archetype_sentiments m))
  /\ forall a v,
       In (a, v) (archetype_sentiments m) <->
       sentiments_in a results <> []
       /\ mean3 (sentiments_in a results) = Ok v.
Proof.
  unfold aggregate, compute_metrics.
  destruct (mapM sentiment_of (filter error_is_none results)) as [l|];
    cbn [bind]; [|discriminate].
  destruct (match l with [] => Ok 0%Q | _ => mean3 l end) as [avg|];
    cbn [bind]; [|discriminate].
  destruct (foldM group_step (filter error_is_none results) []) as [d|] eqn:G;
    cbn [bind]; [|discriminate].
  destruct (mapM _ d) as [ms|] eqn:Ms; cbn [bind]; [|discriminate].
  intros H. inversion H; subst m. cbn [archetype_sentiments]. clear H.
  apply groups_spec in G. destruct G as [Sc [N F]].
  specialize (N (NoDup_nil _)). specialize (F (Forall_nil _)).
  apply means_spec in Ms. destruct Ms as [K I].
  split; [now rewrite K|].
  assert (Key : forall a, scores_of d a = sentiments_in a results).
  { intros a. rewrite (Sc a), sentiments_in_filter. reflexivity. }
  intros a v. rewrite I. split.
  - intros [g [Hg Mg]].
    pose proof (proj1 (BreakdownExtras.find_key_in d a g N) Hg) as Fk.
    assert (Eg : g = sentiments_in a results).
    { rewrite <- Key. unfold scores_of. now rewrite Fk. }
    subst g. split; [|exact Mg].
    rewrite Forall_forall in F. apply (F _ Hg).
  - intros [Ne Mg]. exists (sentiments_in a results). split; [|exact Mg].
    apply (BreakdownExtras.find_key_in d a _ N).
    rewrite <- Key in *. unfold scores_of in *.
    destruct (find_key d a); [reflexivity | congruence].
Qed.

(** X16.  archetype_sentiments has one entry for each archetype name
    that occurs among the successful results and no other; the value of
    an archetype is the mean, rounded to three decimals, of the
    sentiments of its successful results.  (A result without an
    archetype_name counts under "unknown".) *)
Theorem archetype_sentiments_entries :
  forall (start_time now : float) (personas : list Persona.t)
         (results : list Result.t) (m : metrics),
    aggregate start_time now personas results = Ok m ->
    NoDup (map fst (archetype_sentiments m))
    /\ forall a v,
         In (a, v) (archetype_sentiments m) <->
         sentiments_in a results <> []
         /\ mean3 (sentiments_in a results) = Ok v.
Proof. exact archetype_sentiments_spec. Qed.

Lemma archetype_sentiments_entries_witness :
  exists m,
    aggregate 100 103 [ada; ada; ada]
      [answered "I love it." "Buyer"; failed "APITimeoutError: Request timed out.";
       answered "Too much risk" "Buyer"]
    = Ok m
    /\ NoDup (map fst (archetype_sentiments m)).
Proof.
  destruct (aggregate 100 103 [ada; ada; ada]
      [answered "I love it." "Buyer"; failed "APITimeoutError: Request timed out.";
       answered "Too much risk" "Buyer"])
    as [m|] eqn:E; [|vm_compute in E; discriminate].
  exists m. split; [reflexivity|].
  apply (proj1 (archetype_sentiments_entries _ _ _ _ m E)).
Defined.

(** *** Means stay in [-1, 1] *)

Lemma fsum_bounds (l : list float) : forall acc : Q,
  Forall in_unit_ball l ->
  (acc - inject_Z (Z.of_nat (List.length l)) <= fold_left Qplus l acc
   <= acc + inject_Z (Z.of_nat (List.length l)))%Q.
Proof.
  induction l as [|x l IH]; intros acc F.
  - simpl. change (inject_Z 0) with 0%Q. lra.
  - inversion F as [|? ? Hx Hl]; subst. cbn [fold_left].
    specialize (IH (acc + x)%Q Hl).
    replace (Z.of_nat (List.length (x :: l)))
      with (Z.of_nat (List.length l) + 1)%Z by (simpl List.length; lia).
    rewrite inject_Z_plus. change (inject_Z 1) with 1%Q.
    unfold in_unit_ball in Hx. lra.
Qed.

Lemma mean3_in_ball (l : list float) (v : float) :
  Forall in_unit_ball l -> mean3 l = Ok v -> in_unit_ball v.
Proof.
  intros F H. unfold mean3, fdiv in H.
  destruct (feq (inject_Z (Z.of_nat (List.length l))) 0) eqn:E;
    [discriminate|].
  cbn [bind] in H. inversion H; subst v. clear H.
  assert (P : (0 < inject_Z (Z.of_nat (List.length l)))%Q).
  { destruct (Qlt_le_dec 0 (inject_Z (Z.of_nat (List.length l)))) as [L|L];
      [exact L|].
    exfalso. assert (Z : (inject_Z (Z.of_nat (List.length l)) == 0)%Q).
    { apply Qle_antisym; [exact L|].
      change 0%Q with (inject_Z 0). rewrite <- Zle_Qle. lia. }
    apply Qeq_bool_iff in Z. unfold feq in E. congruence. }
  pose proof (fsum_bounds l 0%Q F) as [Lo Hi]. fold (fsum l) in Lo, Hi.
  unfold in_unit_ball. apply (round_between (-1)%Z 1%Z). split.
  - apply Qle_shift_div_l; [exact P|]. change (inject_Z (-1)) with (-1)%Q. lra.
  - apply Qle_shift_div_r; [exact P|]. change (inject_Z 1) with 1%Q. lra.
Qed.

Lemma sentiments_of_ok (rs : list Result.t) (l : list float) :
  mapM sentiment_of rs = Ok l ->
  forall s, In s l -> exists r, In r rs /\ Result.sentiment r = Some s.
Proof.
  revert l. induction rs as [|r rs IH]; intros l H s Hs; cbn [mapM] in H.
  - inversion H; subst. contradiction.
  - unfold sentiment_of at 1 in H.
    destruct (Result.sentiment r) as [x|] eqn:Ex; [|discriminate].
    cbn [bind] in H.
    destruct (mapM sentiment_of rs) as [l0|]; [|discriminate].
    cbn [bind] in H. inversion H; subst l.
    destruct Hs as [Hs|Hs].
    + subst x. exists r. split; [now left | exact Ex].
    + destruct (IH l0 eq_refl s Hs) as [r0 [I E]]. exists r0. split; auto.
      now right.
Qed.

(** X17.  Averages stay in range: when the sentiment of every result
    lies in [-1, 1] (as for the results of [execute_persona]), so do
    avg_sentiment and every value of archetype_sentiments. *)
Theorem mean_sentiments_in_range :
  forall (start_time now : float) (personas : list Persona.t)
         (results : list Result.t) (m : metrics),
    (forall r s, In r results -> Result.sentiment r = Some s ->
                 in_unit_ball s) ->
    aggregate start_time now personas results = Ok m ->
    in_unit_ball (avg_sentiment m)
    /\ forall a v, In (a, v) (archetype_sentiments m) -> in_unit_ball v.
Proof.
  intros start_time now personas results m B H. split.
  - unfold aggregate, compute_metrics in H.
    destruct (mapM sentiment_of (filter error_is_none results)) as [l|] eqn:El;
      cbn [bind] in H; [|discriminate].
    destruct (match l with [] => Ok 0%Q | _ => mean3 l end) as [avg|] eqn:Ea;
      cbn [bind] in H; [|discriminate].
    destruct (foldM group_step (filter error_is_none results) []) as [d|];
      cbn [bind] in H; [|discriminate].
    destruct (mapM _ d) as [ms|]; cbn [bind] in H; [|discriminate].
    inversion H; subst m. cbn [avg_sentiment].
    destruct l as [|x l].
    + inversion Ea; subst. unfold in_unit_ball. lra.
    + apply (mean3_in_ball (x :: l)); [|exact Ea].
      apply Forall_forall. intros s Hs.
      destruct (sentiments_of_ok _ _ El s Hs) as [r [I E]].
      apply filter_In in I. apply (B r s); tauto.
  - intros a v I.
    apply (proj2 (archetype_sentiments_spec _ _ _ _ m H)) in I.
    destruct I as [_ M].
    apply (mean3_in_ball (sentiments_in a results) v); [|exact M].
    apply Forall_forall. intros s Hs. unfold sentiments_in in Hs.
    apply in_flat_map in Hs. destruct Hs as [r [Ir Hs]].
    destruct (error_is_none r && String.eqb (archetype_of r) a);
      [|contradiction].
    destruct (Result.sentiment r) as [x|] eqn:Ex; [|contradiction].
    destruct Hs as [Hs|[]]. subst x. apply (B r s Ir Ex).
Qed.

Lemma mean_sentiments_in_range_witness :
  exists m,
    aggregate 100 103 [ada; ada]
      [answered "I love it." "Buyer"; answered "Too much risk" "Buyer"] = Ok m
    /\ in_unit_ball (avg_sentiment m).
Proof.
  destruct (aggregate 100 103 [ada; ada]
      [answered "I love it." "Buyer"; answered "Too much risk" "Buyer"])
    as [m|] eqn:E; [|vm_compute in E; discriminate].
  exists m. split; [reflexivity|].
  refine (proj1 (mean_sentiments_in_range _ _ _ _ m _ E)).
  intros r s I S. simpl in I.
  destruct I as [I|[I|[]]]; subst r; inversion S;
    apply RunnerExtras.sentiment_in_ball.
Defined.

End AppExtras.

(* ================================================================== *)
(** ** Code fences *)

Module FenceExtras.

Import Fences FenceNotions.

Lemma split_acc_app (a b : list ascii) : forall acc,
  split_acc acc (a ++ newline :: b) = split_acc acc a ++ split_acc [] b.
Proof.
  induction a as [|c a IH]; intros acc; simpl.
  - reflexivity.
  - destruct (is_nl c); [now rewrite IH | apply IH].
Qed.

Lemma split_acc_one_line (s : list ascii) : forall acc,
  one_line s -> forall t, split_acc acc (s ++ t) = split_acc (acc ++ s) t.
Proof.
  induction s as [|c s IH]; intros acc H t; simpl.
  - now rewrite app_nil_r.
  - unfold one_line in H. simpl in H. apply andb_true_iff in H.
    destruct H as [Hc Hs]. apply negb_true_iff in Hc. rewrite Hc.
    rewrite IH by exact Hs. now rewrite <- app_assoc.
Qed.

Lemma split_acc_head (s acc : list ascii) :
  exists p tl, split_acc acc s = (acc ++ p) :: tl.
Proof.
  revert acc. induction s as [|c s IH]; intros acc; simpl.
  - exists [], []. now rewrite app_nil_r.
  - destruct (is_nl c).
    + exists [], (split_acc [] s). now rewrite app_nil_r.
    + destruct (IH (acc ++ [c])) as [p [tl E]]. rewrite E.
      exists (c :: p), tl. now rewrite <- app_assoc.
Qed.

Lemma join_split (s : list ascii) : forall acc,
  join_lines (split_acc acc s) = acc ++ s.
Proof.
  induction s as [|c s IH]; intros acc; simpl.
  - now rewrite app_nil_r.
  - destruct (is_nl c) eqn:E.
    + destruct (split_acc_head s []) as [p [tl Es]].
      pose proof (IH []) as J. rewrite Es in *. simpl in J.
      cbn [join_lines]. simpl. rewrite J.
      unfold is_nl, code in E. apply N.eqb_eq in E.
      replace c with newline; [reflexivity|].
      rewrite <- (ascii_N_embedding c), E. reflexivity.
    + rewrite IH. now rewrite <- app_assoc.
Qed.

Lemma loop_in_block (ls : list (list ascii)) : forall acc,
  Forall plain ls ->
  fence_loop true acc ls = acc ++ ls
  /\ forall fl tl, starts_with_fence fl = true ->
       fence_loop true acc (ls ++ fl :: tl) = acc ++ ls.
Proof.
  induction ls as [|l ls IH]; intros acc H.
  - split; [simpl; now rewrite app_nil_r|].
    intros fl tl F. simpl. rewrite F. simpl. now rewrite app_nil_r.
  - inversion H as [|? ? Hl Hls]; subst.
    destruct (IH (acc ++ [l]) Hls) as [A B].
    unfold plain in Hl. simpl. rewrite Hl. simpl.
    split.
    + rewrite A. now rewrite <- app_assoc.
    + intros fl tl F. rewrite (B fl tl F). now rewrite <- app_assoc.
Qed.

Lemma lstrip_blank (ws t : list ascii) :
  blank ws -> lstrip (ws ++ t) = lstrip t.
Proof.
  unfold blank. induction ws as [|c ws IH]; simpl; intros H; [reflexivity|].
  apply andb_true_iff in H. destruct H as [Hc Hs]. rewrite Hc. now apply IH.
Qed.

Lemma lstrip_keep (u : list ascii) (c : ascii) (t : list ascii) :
  is_space c = false -> exists u', lstrip (u ++ c :: t) = u' ++ c :: t.
Proof.
  intros Hc. induction u as [|d u [u' IH]]; simpl.
  - rewrite Hc. now exists [].
  - destruct (is_space d).
    + now exists u'.
    + now exists (d :: u).
Qed.

(** Stripping a text that starts and ends with a fence, up to what
    follows the last fence. *)
Lemma strip_fenced (ws mid rest : list ascii) :
  blank ws ->
  exists rest',
    strip (ws ++ fence ++ mid ++ fence ++ rest) = fence ++ mid ++ fence ++ rest'.
Proof.
  intros Hws. unfold strip. rewrite lstrip_blank by exact Hws.
  assert (E : lstrip (fence ++ mid ++ fence ++ rest)
              = fence ++ mid ++ fence ++ rest) by reflexivity.
  rewrite E.
  assert (R : rev (fence ++ mid ++ fence ++ rest)
              = rev rest ++ tick :: ([tick; tick] ++ rev mid ++ fence)).
  { rewrite !rev_app_distr. simpl. now rewrite <- !app_assoc. }
  rewrite R.
  destruct (lstrip_keep (rev rest) tick ([tick; tick] ++ rev mid ++ fence))
    as [u' Eu]; [reflexivity|].
  rewrite Eu. exists (rev u').
  rewrite rev_app_distr. simpl rev at 1.
  rewrite !rev_app_distr, rev_involutive. simpl.
  now rewrite <- !app_assoc.
Qed.

Lemma one_line_app (a b : list ascii) :
  one_line a -> one_line b -> one_line (a ++ b).
Proof.
  unfold one_line. intros A B. rewrite forallb_app. now rewrite A, B.
Qed.

Lemma split_one_line (s : list ascii) : one_line s -> split_lines s = [s].
Proof.
  intros H. unfold split_lines.
  pose proof (split_acc_one_line s [] H []) as E.
  rewrite app_nil_r in E. rewrite E. reflexivity.
Qed.

Lemma split_fence_head (rest : list ascii) :
  exists fl tl, split_lines (fence ++ rest) = fl :: tl
                /\ starts_with_fence fl = true.
Proof.
  destruct (split_acc_head rest fence) as [p [tl E]].
  exists (fence ++ p), tl. split; [|reflexivity].
  unfold split_lines. simpl. exact E.
Qed.

(** X18.  Round trip of a fenced reply: when the reply is, after leading
    white space, a line opening with three backticks (with any info text),
    a body none of whose lines starts with three backticks, and a line
    starting with three backticks followed by anything at all, the text
    handed to [json.loads] is exactly the body; and a block that is never
    closed yields the body as well. *)
Theorem fenced_reply_round_trip (ws info body rest : list ascii) :
  blank ws -> one_line info -> plain_text body ->
  reply_json (ws ++ fence ++ info ++ newline :: body
                 ++ newline :: fence ++ rest) = body
  /\ strip_fences (fence ++ info ++ newline :: body) = body.
Proof.
  intros Hws Hinfo Hbody.
  assert (Hopen : split_lines (fence ++ info) = [fence ++ info]).
  { apply split_one_line, one_line_app; [reflexivity | exact Hinfo]. }
  split.
  - unfold reply_json.
    destruct (strip_fenced ws (info ++ newline :: body ++ [newline]) rest Hws)
      as [rest' E].
    replace (ws ++ fence ++ info ++ newline :: body ++ newline :: fence ++ rest)
      with (ws ++ fence ++ (info ++ newline :: body ++ [newline])
               ++ fence ++ rest)
      by (now rewrite <- !app_assoc; simpl; rewrite <- !app_assoc).
    rewrite E. unfold strip_fences.
    replace (starts_with_fence
               (fence ++ (info ++ newline :: body ++ [newline]) ++ fence ++ rest'))
      with true by reflexivity.
    replace (fence ++ (info ++ newline :: body ++ [newline]) ++ fence ++ rest')
      with ((fence ++ info) ++ newline :: (body ++ newline :: (fence ++ rest')))
      by (now rewrite <- !app_assoc; simpl; rewrite <- !app_assoc).
    unfold split_lines. rewrite !split_acc_app.
    fold (split_lines (fence ++ info)). rewrite Hopen.
    destruct (split_fence_head rest') as [fl [tl [Ef Hf]]].
    unfold split_lines in Ef. rewrite Ef.
    cbn [app fence_loop].
    replace (starts_with_fence (fence ++ info)) with true by reflexivity.
    cbn [andb negb].
    rewrite (proj2 (loop_in_block (split_acc [] body) [] Hbody) fl tl Hf).
    cbn [app]. apply (join_split body []).
  - unfold strip_fences.
    replace (starts_with_fence (fence ++ info ++ newline :: body))
      with true by reflexivity.
    replace (fence ++ info ++ newline :: body)
      with ((fence ++ info) ++ newline :: body)
      by (now rewrite <- !app_assoc).
    unfold split_lines. rewrite split_acc_app.
    fold (split_lines (fence ++ info)). rewrite Hopen.
    cbn [app fence_loop].
    replace (starts_with_fence (fence ++ info)) with true by reflexivity.
    cbn [andb negb].
    rewrite (proj1 (loop_in_block (split_acc [] body) [] Hbody)).
    cbn [app]. apply (join_split body []).
Qed.

Lemma fenced_reply_round_trip_witness :
  reply_json (list_ascii_of_string
    "  ```json
[1,
 2]
``` Done.")
  = list_ascii_of_string "[1,
 2]".
Proof.
  refine (proj1 (fenced_reply_round_trip
            (list_ascii_of_string "  ") (list_ascii_of_string "json")
            (list_ascii_of_string "[1,
 2]")
            (list_ascii_of_string " Done.") _ _ _)).
  - reflexivity.
  - reflexivity.
  - vm_compute. repeat constructor.
Defined.

(** *** What the loop leaves *)

Lemma one_line_snoc (acc : list ascii) (c : ascii) :
  one_line acc -> is_nl c = false -> one_line (acc ++ [c]).
Proof.
  intros A C. apply one_line_app; [exact A|].
  unfold one_line. simpl. now rewrite C.
Qed.

Lemma split_acc_lines (s : list ascii) : forall acc,
  one_line acc -> Forall one_line (split_acc acc s).
Proof.
  induction s as [|c s IH]; intros acc H; simpl.
  - now constructor.
  - destruct (is_nl c) eqn:E.
    + constructor; [exact H | now apply IH].
    + apply IH. now apply one_line_snoc.
Qed.

Lemma loop_keeps (ls : list (list ascii)) : forall b acc,
  Forall (fun l => plain l /\ one_line l) acc ->
  Forall one_line ls ->
  Forall (fun l => plain l /\ one_line l) (fence_loop b acc ls).
Proof.
  induction ls as [|l ls IH]; intros b acc Ha Hl; simpl; [exact Ha|].
  inversion Hl as [|? ? H1 H2]; subst.
  destruct (starts_with_fence l) eqn:F; destruct b; simpl; auto.
  apply IH; [|exact H2].
  apply Forall_app. split; [exact Ha|]. repeat constructor; assumption.
Qed.

Lemma split_join (ls : list (list ascii)) : forall l acc,
  Forall one_line (l :: ls) ->
  split_acc acc (join_lines (l :: ls)) = (acc ++ l) :: ls.
Proof.
  induction ls as [|l2 ls IH]; intros l acc H;
    inversion H as [|? ? H1 H2]; subst.
  - cbn [join_lines].
    pose proof (split_acc_one_line l acc H1 []) as E.
    rewrite app_nil_r in E. rewrite E. reflexivity.
  - change (join_lines (l :: l2 :: ls))
      with (l ++ newline :: join_lines (l2 :: ls)).
    rewrite split_acc_app.
    pose proof (split_acc_one_line l acc H1 []) as E.
    rewrite app_nil_r in E. rewrite E. cbn [split_acc app].
    rewrite (IH l2 [] H2). reflexivity.
Qed.

Lemma plain_then_newline (l x : list ascii) :
  plain l -> starts_with_fence (l ++ newline :: x) = false.
Proof.
  unfold plain. intros H.
  assert (T : is_tick newline = false) by reflexivity.
  destruct l as [|c1 [|c2 [|c3 l]]]; [| | |exact H];
    destruct x as [|x1 [|x2 x]]; cbn [app starts_with_fence];
    rewrite ?T, ?andb_false_r; reflexivity.
Qed.

Lemma plain_join (l : list ascii) (ls : list (list ascii)) :
  plain l -> starts_with_fence (join_lines (l :: ls)) = false.
Proof.
  intros H. destruct ls as [|l2 ls].
  - exact H.
  - change (join_lines (l :: l2 :: ls))
      with (l ++ newline :: join_lines (l2 :: ls)).
    now apply plain_then_newline.
Qed.

Lemma stripped_lines (text : list ascii) :
  starts_with_fence text = true ->
  plain_text (strip_fences text)
  /\ starts_with_fence (strip_fences text) = false.
Proof.
  intros F. unfold strip_fences. rewrite F.
  pose proof (loop_keeps (split_lines text) false [] (Forall_nil _)
                (split_acc_lines text [] eq_refl)) as K.
  destruct (fence_loop false [] (split_lines text)) as [|l ls].
  - split; [|reflexivity]. unfold plain_text. simpl. now repeat constructor.
  - inversion K as [|? ? [Pl Ol] Kls]; subst. split.
    + unfold plain_text, split_lines. rewrite split_join.
      * constructor; [exact Pl|].
        eapply Forall_impl; [|exact Kls]. intros a [Pa _]. exact Pa.
      * constructor; [exact Ol|].
        eapply Forall_impl; [|exact Kls]. intros a [_ Oa]. exact Oa.
    + now apply plain_join.
Qed.

(** X19.  What the fence stripping leaves is never fenced: the text it returns
    does not start with three backticks, so stripping it again changes
    nothing; and when the reply did start with three backticks, no line
    of the returned text starts with three backticks. *)
Theorem strip_fences_leaves_no_fence (text : list ascii) :
  starts_with_fence (strip_fences text) = false
  /\ strip_fences (strip_fences text) = strip_fences text
  /\ (starts_with_fence text = true -> plain_text (strip_fences text)).
Proof.
  assert (N : starts_with_fence (strip_fences text) = false).
  { destruct (starts_with_fence text) eqn:F.
    - apply stripped_lines, F.
    - unfold strip_fences. now rewrite F. }
  split; [exact N|]. split.
  - unfold strip_fences at 1. now rewrite N.
  - intros F. apply stripped_lines, F.
Qed.

Lemma strip_fences_leaves_no_fence_witness :
  plain_text (strip_fences (list_ascii_of_string "```
a
```
```b")).
Proof.
  apply (proj2 (proj2 (strip_fences_leaves_no_fence
                         (list_ascii_of_string "```
a
```
```b")))).
  reflexivity.
Defined.

End FenceExtras.

(* ================================================================== *)
(** ** insight_extractor.py *)

Module InsightExtras.

Import App Json Insights InsightNotions Notions Vocabulary.
Local Open Scope string_scope.

Lemma gather_lists (d : list (string * gathered)) (k : string) (s : float) :
  sentiment_lists (gather d k s) = group_append (sentiment_lists d) k s.
Proof.
  induction d as [|[k' g] d IH]; simpl; [reflexivity|].
  destruct (String.eqb k' k); simpl; [reflexivity | now rewrite IH].
Qed.

Lemma fold_lists (rs : list Result.t) : forall d,
  sentiment_lists (fold_left gather_step rs d)
  = fold_left plain_step rs (sentiment_lists d).
Proof.
  induction rs as [|r rs IH]; intros d; cbn [fold_left]; [reflexivity|].
  rewrite IH. unfold gather_step, plain_step, Runner.get_or, archetype_of.
  rewrite gather_lists. reflexivity.
Qed.

Lemma patterns_of_means (g : list (string * gathered)) :
  forall ms,
    mapM (fun item => m <- mean3 (snd item) ;; Ok (fst item, m))
         (sentiment_lists g) = Ok ms ->
    mapM (fun item => p <- pattern_of (snd item) ;; Ok (fst item, p)) g
    = Ok (map (fun kv => (fst kv, pattern (snd kv))) ms).
Proof.
  induction g as [|[k e] g IH]; intros ms H; cbn [sentiment_lists map mapM] in *.
  - inversion H. reflexivity.
  - cbn [fst snd] in *.
    destruct (mean3 (sentiments e)) as [v|] eqn:M; [|discriminate].
    cbn [bind] in H.
    destruct (mapM _ (map _ g)) as [ms0|] eqn:E; [|discriminate].
    cbn [bind] in H. inversion H; subst ms. clear H.
    unfold pattern_of at 1.
    destruct (sentiments e) as [|x l] eqn:S.
    + vm_compute in M. discriminate.
    + rewrite M. cbn [bind]. rewrite (IH ms0 E). reflexivity.
Qed.

Lemma fallback_of_means (results : list Result.t)
    (ms : list (string * float)) :
  mapM (fun item => m <- mean3 (snd item) ;; Ok (fst item, m))
       (fold_left plain_step results []) = Ok ms ->
  fallback_insights results = Ok (fallback_dict ms).
Proof.
  intros H. unfold fallback_insights.
  rewrite (patterns_of_means (fold_left gather_step results []) ms).
  - reflexivity.
  - rewrite fold_lists. exact H.
Qed.

Lemma plain_groups (rs : list Result.t) : forall d,
  (forall a,
     scores_of (fold_left plain_step rs d) a
     = (scores_of d a ++ scores_in a rs)%list)
  /\ (NoDup (map fst d) -> NoDup (map fst (fold_left plain_step rs d)))
  /\ (Forall (fun kv => snd kv <> []) d ->
      Forall (fun kv => snd kv <> []) (fold_left plain_step rs d)).
Proof.
  induction rs as [|r rs IH]; intros d; cbn [fold_left].
  - repeat split; auto. intros a. simpl. now rewrite app_nil_r.
  - destruct (IH (plain_step d r)) as [G [N F]]. repeat split.
    + intros a. rewrite (G a). unfold plain_step at 1.
      rewrite AppExtras.scores_gappend. cbn [scores_in flat_map].
      rewrite <- app_assoc. reflexivity.
    + intros Nd. now apply N, AppExtras.nodup_gappend.
    + intros Fd. now apply F, AppFacts.group_append_nonempty.
Qed.

Lemma fallback_spec (results : list Result.t) :
  exists averages,
    fallback_insights results = Ok (fallback_dict averages)
    /\ NoDup (map fst averages)
    /\ forall a v,
         In (a, v) averages <->
         scores_in a results <> [] /\ mean3 (scores_in a results) = Ok v.
Proof.
  destruct (plain_groups results []) as [G [N F]].
  specialize (N (NoDup_nil _)). specialize (F (Forall_nil _)).
  destruct (AppFacts.means_ok _ F) as [ms Ms].
  exists ms. split; [now apply fallback_of_means|].
  apply AppExtras.means_spec in Ms. destruct Ms as [K I].
  split; [now rewrite K|].
  set (d := fold_left plain_step results []) in *.
  assert (Key : forall a, scores_of d a = scores_in a results).
  { intros a. now rewrite (G a). }
  intros a v. rewrite I. split.
  - intros [g [Hg Mg]].
    pose proof (proj1 (BreakdownExtras.find_key_in d a g N) Hg) as Fk.
    assert (Eg : g = scores_in a results).
    { rewrite <- Key. unfold scores_of. now rewrite Fk. }
    subst g. split; [|exact Mg].
    rewrite Forall_forall in F. apply (F _ Hg).
  - intros [Ne Mg]. exists (scores_in a results). split; [|exact Mg].
    apply (BreakdownExtras.find_key_in d a _ N).
    rewrite <- Key in *. unfold scores_of in *.
    destruct (find_key d a); [reflexivity | congruence].
Qed.

(** X20.  [_fallback_insights] never raises, whatever the results (its guard
    against an empty sentiment list is never needed).  It returns empty
    themes and concerns, one fixed recommendation, and in
    archetype_patterns exactly one entry per archetype name occurring
    among the results: avg_sentiment is round(mean, 3) of the sentiments
    of the results of that archetype, a result without a sentiment
    counting as 0.0 and one without an archetype_name under "unknown";
    key_themes is empty. *)
Theorem fallback_insights_total :
  forall results : list Result.t,
    exists averages,
      fallback_insights results = Ok (fallback_dict averages)
      /\ NoDup (map fst averages)
      /\ forall a v,
           In (a, v) averages <->
           scores_in a results <> [] /\ mean3 (scores_in a results) = Ok v.
Proof. exact fallback_spec. Qed.

Lemma groups_plain (rs : list Result.t) : forall d d',
  foldM group_step rs d = Ok d' -> d' = fold_left plain_step rs d.
Proof.
  induction rs as [|r rs IH]; intros d d' H; cbn [foldM fold_left] in *.
  - now inversion H.
  - unfold group_step at 1, sentiment_of in H.
    destruct (Result.sentiment r) as [s|] eqn:Es; [|discriminate].
    cbn [bind] in H. apply IH in H. subst d'.
    f_equal. unfold plain_step, sentiment_or_zero, archetype_of.
    now rewrite Es.
Qed.

(** X21.  The local fallback agrees with the aggregator of the stream: on the
    successful results of an experiment, the archetype_patterns of
    [_fallback_insights] list the same archetypes, in the same order and
    with the same avg_sentiment, as the archetype_sentiments of the
    metrics of [stream_results]. *)
Theorem fallback_agrees_with_metrics :
  forall (start_time now : float) (personas : list Persona.t)
         (results : list Result.t) (m : metrics),
    aggregate start_time now personas results = Ok m ->
    fallback_insights (filter error_is_none results)
    = Ok (fallback_dict (archetype_sentiments m)).
Proof.
  intros start_time now personas results m.
  unfold aggregate, compute_metrics.
  destruct (mapM sentiment_of (filter error_is_none results)) as [l|];
    cbn [bind]; [|discriminate].
  destruct (match l with [] => Ok 0%Q | _ => mean3 l end) as [avg|];
    cbn [bind]; [|discriminate].
  destruct (foldM group_step (filter error_is_none results) []) as [d|] eqn:G;
    cbn [bind]; [|discriminate].
  destruct (mapM _ d) as [ms|] eqn:Ms; cbn [bind]; [|discriminate].
  intros H. inversion H; subst m. cbn [archetype_sentiments]. clear H.
  apply groups_plain in G. subst d.
  now apply fallback_of_means.
Qed.

Lemma fallback_agrees_with_metrics_witness :
  exists m,
    aggregate 100 103 [Samples.ada; Samples.ada]
      [Samples.answered "I love it." "Buyer";
       Samples.failed "APITimeoutError: Request timed out."]
    = Ok m
    /\ fallback_insights
         (filter error_is_none
            [Samples.answered "I love it." "Buyer";
             Samples.failed "APITimeoutError: Request timed out."])
       = Ok (fallback_dict (archetype_sentiments m)).
Proof.
  destruct (aggregate 100 103 [Samples.ada; Samples.ada]
      [Samples.answered "I love it." "Buyer";
       Samples.failed "APITimeoutError: Request timed out."])
    as [m|] eqn:E; [|vm_compute in E; discriminate].
  exists m. split; [reflexivity|].
  apply (fallback_agrees_with_metrics _ _ _ _ m E).
Defined.

(** *** [extract_insights] *)

Lemma find_key_app {V} (d d' : list (string * V)) (k : string) :
  find_key (d ++ d') k
  = match find_key d k with Some v => Some v | None => find_key d' k end.
Proof.
  induction d as [|[k' v] d IH]; simpl; [reflexivity|].
  destruct (String.eqb k' k); [reflexivity | exact IH].
Qed.

Lemma setdefault_has (items : list (string * value)) (k : string) (v : value) :
  find_key (setdefault items k v) k <> None.
Proof.
  unfold setdefault. destruct (find_key items k) eqn:E.
  - now rewrite E.
  - rewrite find_key_app, E. simpl. rewrite String.eqb_refl. discriminate.
Qed.

Lemma setdefault_keeps (items : list (string * value)) (k k' : string)
    (v : value) :
  find_key items k' <> None -> find_key (setdefault items k v) k' <> None.
Proof.
  intros H. unfold setdefault. destruct (find_key items k); [exact H|].
  rewrite find_key_app. destruct (find_key items k'); congruence.
Qed.

Lemma ensure_keys_has (v v' : value) :
  ensure_keys v = Ok v' -> exists items, v' = JDict items /\ has_keys items.
Proof.
  destruct v; simpl; try discriminate.
  intros H. inversion H. eexists. split; [reflexivity|].
  unfold has_keys, insight_keys.
  repeat constructor;
    repeat (apply setdefault_has || apply setdefault_keeps).
Qed.

Lemma fallback_dict_has (averages : list (string * float)) :
  exists items, fallback_dict averages = JDict items /\ has_keys items.
Proof.
  eexists. split; [reflexivity|].
  unfold has_keys, insight_keys. repeat constructor; simpl; discriminate.
Qed.

Lemma summaries_some (rs : list Result.t) (ss : list value) :
  summaries rs = Some ss ->
  forall r, In r rs -> Result.response r <> Some None.
Proof.
  revert ss. induction rs as [|r0 rs IH]; intros ss H r I; [contradiction|].
  cbn [summaries] in H.
  destruct (summary_of r0) as [s0|] eqn:S0; [|discriminate].
  destruct (summaries rs) as [ss0|]; [|discriminate].
  destruct I as [I|I].
  - subst r0. unfold summary_of in S0.
    destruct (Result.response r) as [[t|]|]; congruence.
  - apply (IH ss0 eq_refl r I).
Qed.

Lemma summaries_none (rs : list Result.t) :
  summaries rs = None ->
  exists r, In r rs /\ Result.response r = Some None.
Proof.
  induction rs as [|r0 rs IH]; cbn [summaries]; [discriminate|].
  destruct (summary_of r0) as [s0|] eqn:S0.
  - destruct (summaries rs) as [ss0|]; [discriminate|].
    intros _. destruct (IH eq_refl) as [r [I E]].
    exists r. split; [now right | exact E].
  - intros _. exists r0. split; [now left|].
    unfold summary_of in S0.
    destruct (Result.response r0) as [[t|]|]; congruence.
Qed.

(** X22.  [extract_insights] always hands back a dict with the four keys
    themes, recommendations, concerns and archetype_patterns: whatever
    the client does (raises, answers without a text block, answers with
    text that is not JSON, or with JSON that is not an object or lacks
    keys) and whatever the results are, provided no successful result has
    a null response.  If one has, the call raises TypeError before the
    client is asked. *)
Theorem extract_insights_keys :
  forall (json_dumps : value -> string) (json_loads : string -> exc value)
         (client : query_client) (results : list Result.t) (body : Body.t),
    (responses_present results ->
     exists items,
       extract_insights json_dumps json_loads client results body
       = Returned (JDict items)
       /\ has_keys items)
    /\ (~ responses_present results ->
        extract_insights json_dumps json_loads client results body
        = TypeError).
Proof.
  intros json_dumps json_loads client results body.
  unfold extract_insights.
  set (successful := filter error_is_none results).
  assert (P : forall ss, summaries successful = Some ss ->
                         responses_present results).
  { intros ss S r I E. apply (summaries_some successful ss S).
    apply filter_In. auto. }
  assert (N : summaries successful = None -> ~ responses_present results).
  { intros S R. destruct (summaries_none successful S) as [r [I E]].
    apply filter_In in I. destruct I as [I Er]. now apply (R r I Er). }
  destruct successful as [|r0 rs] eqn:Es.
  - split.
    + intros _. eexists. split; [reflexivity|].
      unfold has_keys, insight_keys. repeat constructor; simpl; discriminate.
    + intros R. exfalso. apply R. apply (P []). reflexivity.
  - destruct (summaries (r0 :: rs)) as [ss|] eqn:S.
    + split; [|intros R; exfalso; apply R; now apply (P ss)].
      intros _.
      destruct (ask json_loads client _) as [v|e] eqn:A.
      * unfold ask in A.
        destruct (client _) as [response|]; cbn [bind] in A; [|discriminate].
        destruct (Runner.first_text response) as [text|]; cbn [bind] in A;
          [|discriminate].
        destruct (json_loads _) as [insights|]; cbn [bind] in A;
          [|discriminate].
        destruct (ensure_keys_has _ _ A) as [items [Ev Hk]].
        exists items. subst v. auto.
      * destruct (fallback_spec (r0 :: rs)) as [averages [F _]].
        rewrite F. destruct (fallback_dict_has averages) as [items [Ei Hk]].
        exists items. rewrite Ei. auto.
    + split; [|reflexivity].
      intros R. exfalso. now apply N.
Qed.

Lemma extract_insights_keys_witness :
  exists items,
    extract_insights (fun _ => "[]") (fun _ => Raise ValueError)
      (fun _ => Raise (ApiError "APITimeoutError" "Request timed out."))
      [Samples.answered "I love it." "Buyer";
       Samples.failed "APITimeoutError: Request timed out."]
      (Body.Mk None)
    = Returned (JDict items)
    /\ has_keys items.
Proof.
  refine (proj1 (extract_insights_keys _ _ _ _ _) _).
  intros r I E. simpl in I.
  destruct I as [I|[I|[]]]; subst r; [discriminate|].
  vm_compute in E. discriminate.
Defined.

End InsightExtras.

(* ================================================================== *)
(** ** app.py: the event stream *)

Module StreamExtras.

Import App Stream StreamNotions Format.
Local Open Scope string_scope.

Lemma gbind_ok {A B} (g : gen A) (k : A -> gen B) (a : A) :
  snd g = Ok a -> gbind g k = ((fst g ++ fst (k a))%list, snd (k a)).
Proof. intros H. unfold gbind. now rewrite H. Qed.

Lemma gbind_raise {A B} (g : gen A) (k : A -> gen B) (e : pyexn) :
  snd g = Raise e -> gbind g k = (fst g, Raise e).
Proof. intros H. unfold gbind. now rewrite H. Qed.

Lemma persona_event_ok (eid : string) (p : Persona.t) :
  announced p -> persona_event eid p = Ok (persona_line eid p).
Proof.
  intros [Hi [Hn [Hr [Ha Hb]]]]. unfold persona_event, persona_line.
  destruct (Persona.id p); [|congruence].
  destruct (Persona.name p); [|congruence].
  destruct (Persona.role p); [|congruence].
  destruct (Persona.archetype_id p); [|congruence].
  destruct (Persona.archetype_name p); [|congruence].
  reflexivity.
Qed.

Lemma persona_event_missing (eid : string) (p : Persona.t) (k : string) :
  missing_key p = Some k -> persona_event eid p = Raise (KeyError k).
Proof.
  unfold missing_key, persona_event.
  destruct (Persona.id p); [|intros H; inversion H; reflexivity].
  destruct (Persona.name p); [|intros H; inversion H; reflexivity].
  destruct (Persona.role p); [|intros H; inversion H; reflexivity].
  destruct (Persona.archetype_id p); [|intros H; inversion H; reflexivity].
  destruct (Persona.archetype_name p); [|intros H; inversion H; reflexivity].
  discriminate.
Qed.

Lemma persona_events_ok (eid : string) (ps : list Persona.t) :
  Forall announced ps ->
  persona_events eid ps = (map (persona_line eid) ps, Ok tt).
Proof.
  induction 1 as [|p ps Hp Hps IH]; [reflexivity|].
  cbn [persona_events map]. rewrite (persona_event_ok eid p Hp), IH.
  reflexivity.
Qed.

Lemma persona_events_stop (eid : string) (before : list Persona.t)
    (p : Persona.t) (after : list Persona.t) (k : string) :
  Forall announced before -> missing_key p = Some k ->
  persona_events eid (before ++ p :: after)
  = (map (persona_line eid) before, Raise (KeyError k)).
Proof.
  intros Hb Hk. induction Hb as [|q qs Hq Hqs IH].
  - cbn [app persona_events map]. now rewrite (persona_event_missing eid p k Hk).
  - cbn [app persona_events map]. rewrite (persona_event_ok eid q Hq), IH.
    reflexivity.
Qed.

Lemma response_event_ok (eid : string) (r : Result.t) :
  reported r -> response_event eid r = Ok (response_line eid r).
Proof.
  intros [Hi [Hn [Hr Hs]]].
  unfold response_event, response_line, response_of, sentiment_of,
    Insights.sentiment_or_zero.
  destruct (Result.persona_id r); [|congruence].
  destruct (Result.persona_name r); [|congruence].
  destruct (Result.response r); [|congruence].
  destruct (Result.sentiment r); [|congruence].
  reflexivity.
Qed.

Lemma responses_ok (eid : string) (outputs : list Result.t) :
  Forall reported outputs ->
  forall results total_tokens,
    responses eid outputs results total_tokens
    = (map (response_line eid) outputs,
       Ok ((results ++ outputs)%list,
           fold_left add_tokens outputs total_tokens)).
Proof.
  induction 1 as [|r rs Hr Hrs IH]; intros results total_tokens.
  - cbn [responses map fold_left]. now rewrite app_nil_r.
  - cbn [responses map fold_left].
    rewrite (response_event_ok eid r Hr), IH, <- app_assoc. reflexivity.
Qed.

Lemma reported_sentiment (outputs : list Result.t) :
  Forall reported outputs ->
  Forall (fun r => Result.sentiment r <> None) outputs.
Proof.
  intros H. eapply Forall_impl; [|exact H]. intros r [_ [_ [_ Hs]]]. exact Hs.
Qed.

(** The runs of [stream_results], case by case. *)
Lemma stream_cases (eid : string) (st now : float)
    (personas : list Persona.t)
    (remote_map : list Persona.t -> iterator Result.t) :
  stream_results eid st now (Ok personas) remote_map
  = let pe := persona_events eid personas in
    let rs := responses eid (fst (remote_map personas)) [] (0, 0)%Z in
    let head :=
      (generating eid :: fst pe)%list in
    let lines :=
      (head ++ running eid (List.length personas) :: fst rs)%list in
    match snd pe with
    | Raise e => (head, Raise e)
    | Ok _ =>
        match snd rs with
        | Raise e => (lines, Raise e)
        | Ok state =>
            match snd (remote_map personas) with
            | Some e => (lines, Raise e)
            | None =>
                match compute_metrics st now personas (fst state)
                        (snd state) with
                | Raise e => (lines, Raise e)
                | Ok m =>
                    ((lines ++ [ExperimentComplete eid (fst state) m])%list,
                     Ok tt)
                end
            end
        end
    end.
Proof.
  unfold stream_results, gbind, yield, lift, generating, running.
  cbn [fst snd].
  destruct (persona_events eid personas) as [ev1 [[]|e1]]; cbn [fst snd app];
    [|reflexivity].
  destruct (remote_map personas) as [outputs failure]. cbn [fst snd].
  destruct (responses eid outputs [] (0, 0)%Z) as [ev2 [[results tt]|e2]];
    cbn [fst snd app]; [|reflexivity].
  destruct failure as [e|]; cbn [fst snd app].
  - now rewrite !app_nil_r.
  - destruct (compute_metrics st now personas results tt) as [m|e];
      cbn [fst snd app].
    + rewrite <- !app_assoc. reflexivity.
    + now rewrite !app_nil_r.
Qed.

(** X23.  The lines of a stream whose personas and results have their keys.
    With personas that each have id, name, role, archetype_id and
    archetype_name, and results that each have persona_id, persona_name,
    response and sentiment (as the results of [execute_persona] do), the
    stream is: the status line "Generating personas...", one
    persona_generated line per persona in order, the status line
    "Running N persona responses in parallel...", one response_complete
    line per result in the order the results arrive, and then, when the
    remote map ends normally, a single experiment_complete line that
    carries all the results and the metrics of the aggregator, after
    which the generator returns; when the remote map ends with an
    exception, the stream stops after the last response_complete line
    with that exception.  Phase 3 itself never raises. *)
Theorem stream_lines :
  forall (experiment_id : string) (start_time now : float)
         (personas : list Persona.t)
         (remote_map : list Persona.t -> iterator Result.t)
         (outputs : list Result.t) (failure : option pyexn),
    Forall announced personas ->
    remote_map personas = (outputs, failure) ->
    Forall reported outputs ->
    let lines :=
      (generating experiment_id
         :: map (persona_line experiment_id) personas
         ++ running experiment_id (List.length personas)
         :: map (response_line experiment_id) outputs)%list in
    match failure with
    | None =>
        exists m,
          aggregate start_time now personas outputs = Ok m
          /\ stream_results experiment_id start_time now (Ok personas)
                            remote_map
             = ((lines ++ [ExperimentComplete experiment_id outputs m])%list,
                Ok tt)
    | Some e =>
        stream_results experiment_id start_time now (Ok personas) remote_map
        = (lines, Raise e)
    end.
Proof.
  intros eid st now personas remote_map outputs failure Hp Hm Ho lines.
  rewrite stream_cases, Hm. cbn [fst snd].
  rewrite (persona_events_ok eid personas Hp).
  rewrite (responses_ok eid outputs Ho [] (0, 0)%Z).
  cbn [fst snd app]. subst lines.
  destruct failure as [e|]; [reflexivity|].
  destruct (AppFacts.aggregate_ok st now personas outputs
              (reported_sentiment outputs Ho)) as [m Em].
  exists m. split; [exact Em|].
  unfold aggregate in Em. rewrite Em. reflexivity.
Qed.

Lemma stream_lines_witness :
  exists m,
    stream_results "exp-1" 100 103 (Ok [Samples.ada; Samples.ada])
      (fun _ => ([Samples.answered "I love it." "Buyer";
                  Samples.failed "APITimeoutError: Request timed out."], None))
    = ([generating "exp-1";
        persona_line "exp-1" Samples.ada; persona_line "exp-1" Samples.ada;
        running "exp-1" 2;
        response_line "exp-1" (Samples.answered "I love it." "Buyer");
        response_line "exp-1"
          (Samples.failed "APITimeoutError: Request timed out.");
        ExperimentComplete "exp-1"
          [Samples.answered "I love it." "Buyer";
           Samples.failed "APITimeoutError: Request timed out."] m],
       Ok tt).
Proof.
  destruct (stream_lines "exp-1" 100 103 [Samples.ada; Samples.ada]
              (fun _ => ([Samples.answered "I love it." "Buyer";
                          Samples.failed "APITimeoutError: Request timed out."],
                         None))
              [Samples.answered "I love it." "Buyer";
               Samples.failed "APITimeoutError: Request timed out."] None)
    as [m [_ E]].
  - repeat constructor; discriminate.
  - reflexivity.
  - repeat constructor; discriminate.
  - exists m. exact E.
Defined.

Lemma unfinished_app (a b : list event) :
  unfinished a -> unfinished b -> unfinished (a ++ b).
Proof.
  unfold unfinished. intros A B. rewrite forallb_app. now rewrite A, B.
Qed.

Lemma persona_events_unfinished (eid : string) (ps : list Persona.t) :
  unfinished (fst (persona_events eid ps)).
Proof.
  induction ps as [|p ps IH]; [reflexivity|].
  cbn [persona_events]. unfold gbind at 1, lift. cbn [fst snd].
  destruct (persona_event eid p) as [e|x] eqn:E; [|reflexivity].
  cbn [fst snd app]. unfold gbind, yield. cbn [fst snd].
  apply (unfinished_app [e]); [|exact IH].
  unfold persona_event in E.
  destruct (Persona.id p); cbn [Runner.item bind] in E; [|discriminate].
  destruct (Persona.name p); cbn [Runner.item bind] in E; [|discriminate].
  destruct (Persona.role p); cbn [Runner.item bind] in E; [|discriminate].
  destruct (Persona.archetype_id p); cbn [Runner.item bind] in E;
    [|discriminate].
  destruct (Persona.archetype_name p); cbn [Runner.item bind] in E;
    [|discriminate].
  inversion E. reflexivity.
Qed.

Lemma responses_unfinished (eid : string) (outputs : list Result.t) :
  forall results total_tokens,
    unfinished (fst (responses eid outputs results total_tokens)).
Proof.
  induction outputs as [|r rs IH]; intros results total_tokens;
    [reflexivity|].
  cbn [responses]. unfold gbind at 1, lift. cbn [fst snd].
  destruct (response_event eid r) as [e|x] eqn:E; [|reflexivity].
  cbn [fst snd app]. unfold gbind, yield. cbn [fst snd].
  apply (unfinished_app [e]); [|apply IH].
  unfold response_event in E.
  destruct (Runner.item "persona_id" _); cbn [bind] in E; [|discriminate].
  destruct (Runner.item "persona_name" _); cbn [bind] in E; [|discriminate].
  destruct (response_of r); cbn [bind] in E; [|discriminate].
  destruct (sentiment_of r); cbn [bind] in E; [|discriminate].
  inversion E. reflexivity.
Qed.

(** X24.  The experiment_complete line is the mark of a stream that ran to its
    end.  For every outcome of the persona generation and of the remote
    map: the stream starts with the status line "Generating
    personas..."; if the generator returns, its last line, and no other,
    is an experiment_complete line; if it is ended by an exception (of
    the generation, of a missing key, of the remote map), no
    experiment_complete line is ever emitted. *)
Theorem complete_line_marks_the_end :
  forall (experiment_id : string) (start_time now : float)
         (generated : exc (list Persona.t))
         (remote_map : list Persona.t -> iterator Result.t),
    let run := stream_results experiment_id start_time now generated
                              remote_map in
    (exists rest, fst run = generating experiment_id :: rest)
    /\ match snd run with
       | Ok _ =>
           exists lines results m,
             fst run
             = (lines ++ [ExperimentComplete experiment_id results m])%list
             /\ unfinished lines
       | Raise _ => unfinished (fst run)
       end.
Proof.
  intros eid st now generated remote_map run. subst run.
  destruct generated as [personas|e].
  2:{ split; [eexists; reflexivity | reflexivity]. }
  rewrite stream_cases. cbv zeta.
  pose proof (persona_events_unfinished eid personas) as U1.
  pose proof (responses_unfinished eid (fst (remote_map personas)) []
                (0, 0)%Z) as U2.
  assert (Uh : unfinished (generating eid :: fst (persona_events eid personas)))
    by exact U1.
  assert (Ul : unfinished
                 ((generating eid :: fst (persona_events eid personas))
                  ++ running eid (List.length personas)
                  :: fst (responses eid (fst (remote_map personas)) []
                            (0, 0)%Z))).
  { apply unfinished_app; [exact Uh | exact U2]. }
  destruct (snd (persona_events eid personas)) as [[]|e1].
  2:{ split; [eexists; reflexivity | exact Uh]. }
  destruct (snd (responses eid (fst (remote_map personas)) [] (0, 0)%Z))
    as [state|e2].
  2:{ split; [eexists; reflexivity | exact Ul]. }
  destruct (snd (remote_map personas)) as [e3|].
  { split; [eexists; reflexivity | exact Ul]. }
  destruct (compute_metrics st now personas (fst state) (snd state))
    as [m|e4].
  - split; [eexists; reflexivity|]. cbn [fst snd].
    eexists _, (fst state), m. split; [reflexivity | exact Ul].
  - split; [eexists; reflexivity | exact Ul].
Qed.

(** X25.  A generated persona that lacks one of the keys id, name, role,
    archetype_id, archetype_name ends the stream with the KeyError of the
    first key it lacks, right after the persona_generated lines of the
    personas before it: no persona after it is announced and the remote
    map is never consulted, so no response is requested at all (not even
    for a persona lacking only archetype_id or archetype_name, which
    [execute_persona] itself would accept). *)
Theorem persona_without_key_stops_stream :
  forall (experiment_id : string) (start_time now : float)
         (before : list Persona.t) (p : Persona.t) (after : list Persona.t)
         (k : string) (remote_map : list Persona.t -> iterator Result.t),
    Forall announced before ->
    missing_key p = Some k ->
    stream_results experiment_id start_time now
                   (Ok (before ++ p :: after)%list) remote_map
    = ((generating experiment_id
          :: map (persona_line experiment_id) before)%list,
       Raise (KeyError k)).
Proof.
  intros eid st now before p after k remote_map Hb Hk.
  rewrite stream_cases. cbv zeta.
  rewrite (persona_events_stop eid before p after k Hb Hk).
  reflexivity.
Qed.

Lemma persona_without_key_stops_stream_witness :
  stream_results "exp-1" 100 103
    (Ok [Samples.ada;
         Persona.Mk (Some "p-2") (Some "Bo") (Some "CTO") None None None None
                    None (Some "Buyer");
         Samples.ada])
    (fun _ => ([], None))
  = ([generating "exp-1"; persona_line "exp-1" Samples.ada],
     Raise (KeyError "archetype_id")).
Proof.
  apply (persona_without_key_stops_stream "exp-1" 100 103 [Samples.ada]
           (Persona.Mk (Some "p-2") (Some "Bo") (Some "CTO") None None None
                       None None (Some "Buyer"))
           [Samples.ada] "archetype_id" (fun _ => ([], None))).
  - repeat constructor; discriminate.
  - reflexivity.
Defined.

End StreamExtras.

(* ================================================================== *)
(** ** app.py: the response model *)

Module ExperimentExtras.

Import Experiment.
Local Open Scope string_scope.

(** X26.  The short model names never reach the remote calls: whatever
    the execution config says, the model passed on is neither
    "claude-sonnet" nor "claude-haiku" (each is replaced by its full id);
    a config without a model gives "claude-sonnet-4-5-20250929"; and the
    mapping is idempotent, the model passed on being mapped to itself. *)
Theorem short_model_names_are_resolved :
  forall configured : option string,
    resp_model configured <> "claude-sonnet"
    /\ resp_model configured <> "claude-haiku"
    /\ resp_model (Some (resp_model configured)) = resp_model configured
    /\ (configured = None
        -> resp_model configured = "claude-sonnet-4-5-20250929").
Proof.
  intros [s|]; [|repeat split; discriminate].
  unfold resp_model, model_mapping. cbn [Runner.get_or Notions.find_key].
  destruct (String.eqb "claude-sonnet-4-5-20250929" s) eqn:E1;
    [repeat split; discriminate|].
  destruct (String.eqb "claude-haiku-4-5-20251001" s) eqn:E2;
    [repeat split; discriminate|].
  destruct (String.eqb "claude-sonnet" s) eqn:E3;
    [repeat split; discriminate|].
  destruct (String.eqb "claude-haiku" s) eqn:E4;
    [repeat split; discriminate|].
  cbn [Runner.get_or]. rewrite E1, E2, E3, E4. cbn [Runner.get_or].
  apply String.eqb_neq in E3, E4.
  repeat split; congruence.
Qed.

Lemma short_model_names_are_resolved_witness :
  resp_model None = "claude-sonnet-4-5-20250929".
Proof.
  apply (proj2 (proj2 (proj2 (short_model_names_are_resolved None)))).
  reflexivity.
Defined.

End ExperimentExtras.
